(** * convert_mlst_to_phyloviz: a shallow embedding and its properties

    The program reads the output of tseemann/mlst (one tab separated line per
    sample: file, scheme, ST and one [gene(allele)] designation per locus),
    selects one MLST scheme, and splits the table into the profiles typed
    completely under that scheme, the samples typed under another scheme and
    the samples whose typing failed.

    The embedding follows [convert_mlst_to_phyloviz.py] function by function.
    A [DataFrame] is a list of column labels and a list of rows; the console,
    the files on disk and the tables written with [to_csv] form the [world]
    that the functions pass along; a Python exception is the left summand of
    a result.

    What is taken from pandas rather than from the script is stated where it
    is defined.  Four conventions hold throughout, and bound what the
    theorems say of the program:
    - a [string] is the UTF-8 text of a Python [str];
    - a table that is read is a table of text.  pandas gives every column
      of a file a dtype: a column whose fields all read as numbers comes out
      numeric (the ST column of a typed sample, a locus field that is a bare
      number), and an empty field or a missing-value token comes out as the
      missing marker.  None of this is modelled: a file is given by its size
      and by a table of text, and the theorems on the stages are stated for
      tables of text.  On a column that pandas has read as numbers the
      program differs: [fix_header] and the [.str] accessor raise
      AttributeError on a number, and a numeric ST is written as a number;
    - a column is looked up by its label.  Where the script goes through the
      [.str] accessor the repeated label is modelled, as the AttributeError
      that it is; elsewhere ([getitem]) a repeated label stands for its
      first column, where pandas hands back all of them, so that the
      theorems on the allele stage and on the stages together assume
      distinct labels;
    - the percentage of the selected scheme is an exact fraction, where
      Python has a float: the two compare alike with 75 for every table of
      fewer than 2^52 rows. *)

From Stdlib Require Import ZArith QArith Ascii String List Lia.
From stdpp Require Import base option list strings gmap pretty.

Local Open Scope string_scope.
Local Open Scope list_scope.

(** ** Python exceptions and the world *)

Inductive exn :=
| ValueError | TypeError | KeyError | IndexError | AttributeError
| FileNotFoundError | UnboundLocalError | ZeroDivisionError.

Global Instance exn_eq_dec : EqDecision exn.
Proof. solve_decision. Defined.

(** A table cell.  Text cells are what the reader delivers; the numeric
    constructors are the element types of the columns that [pd.to_numeric]
    and [astype] produce. *)
Inductive cell :=
| Str (s : string)          (* a Python str in an object column *)
| Int64 (z : Z)             (* an element of an int64 or uint64 column *)
| Float64 (q : Q)           (* an element of a float64 column: the double
                               read from the numeral whose value is q *)
| NaN                       (* the missing marker of a float64 column *)
| Int32 (z : Z)             (* an element of an int32 column *)
| Int32_of_double (q : Q).  (* the C conversion to int32 of a double that is
                               fractional or out of range: left symbolic *)

(** A DataFrame: column labels and rows.  The labels of a table read with
    [header=None] are the integers 0..n-1; such a raw table is a bare
    list of rows below. *)
Record frame (A : Type) := Frame { columns : list string; data : list (list A) }.
Arguments Frame {A} _ _.
Arguments columns {A} _.
Arguments data {A} _.

Definition raw_frame := list (list string).

(** A file on disk: its size in bytes and its fields, line by line, as
    text: the table that [pd.read_table(file, header=None)] returns for it
    when it takes no column for numbers and no field for missing. *)
Record file := File { st_size : N; table : raw_frame }.

(** What [print] puts on the console.  The two lines that show the
    percentage carry it as an exact fraction: [Percentage q] is
    [print(selected_pct)] and [Warning s q] is the line
    ['WARNING: the selected scheme <s> applies to <q, two decimals>% of the
    dataset.'], whose number Python renders with ["{:.2f}"]. *)
Inductive output :=
| Line (text : string)
| Percentage (q : Q)
| Warning (scheme : string) (pct : Q).

Record world := World {
  files : gmap string file;              (* the files that can be read *)
  stdout : list output;                  (* console, oldest line first *)
  written : list (string * frame cell)   (* to_csv calls, oldest first *)
}.

(** ** The monad of the script: state and exceptions *)

Definition M (A : Type) : Type := world -> (exn + A) * world.

Definition ret {A} (a : A) : M A := fun w => (inr a, w).
Definition raise {A} (e : exn) : M A := fun w => (inl e, w).
Definition bind {A B} (m : M A) (k : A -> M B) : M B :=
  fun w => match m w with
           | (inl e, w') => (inl e, w')
           | (inr a, w') => k a w'
           end.
Definition lift {A} (r : exn + A) : M A := fun w => (r, w).

Declare Scope py_scope.
Delimit Scope py_scope with py.
Notation "'do' x <- m ; k" := (bind m (fun x => k))
  (at level 10, x name, m at level 100, k at level 200) : py_scope.
Notation "'do' ' pat <- m ; k" :=
  (bind m (fun x => match x with pat => k end))
  (at level 10, pat pattern, m at level 100, k at level 200) : py_scope.
Notation "'run' m ; k" := (bind m (fun _ => k))
  (at level 10, m at level 100, k at level 200) : py_scope.

Definition print (o : output) : M unit :=
  fun w => (inr tt, World (files w) (stdout w ++ [o]) (written w)).

(** [df.to_csv(path, sep='\t', index=None)], as the record of the call: the
    path and the table.  Two things are left out.  Writing can fail (a
    directory that does not exist, a path that cannot be written), which
    raises OSError; here it never does.  And the file written is not put
    among [files]: a table written at the path of an input replaces that
    input on disk, while [files] stays as it was.  Nothing below is
    stated about either. *)
Definition to_csv (path : string) (df : frame cell) : M unit :=
  fun w => (inr tt, World (files w) (stdout w) (written w ++ [(path, df)])).

(** [os.stat(path)] and the readers fail on a path that does not exist.
    The reader returns the fields as text (see the conventions above) and
    fails on nothing else: a file that pandas cannot parse is not
    modelled. *)
Definition os_stat_size (path : string) : M N :=
  fun w => match files w !! path with
           | Some f => (inr (st_size f), w)
           | None => (inl FileNotFoundError, w)
           end.
Definition read_table (path : string) : M raw_frame :=
  fun w => match files w !! path with
           | Some f => (inr (table f), w)
           | None => (inl FileNotFoundError, w)
           end.

(** The pure counterpart of [bind], for the functions that touch nothing. *)
Definition ebind {A B} (r : exn + A) (k : A -> exn + B) : exn + B :=
  match r with inl e => inl e | inr a => k a end.

(** ** Text *)

Definition chars (s : string) : list ascii := list_ascii_of_string s.
Definition text (l : list ascii) : string := string_of_list_ascii l.

Definition code (c : ascii) : N := N_of_ascii c.

Definition is_digit (c : ascii) : bool :=
  ((48 <=? code c) && (code c <=? 57))%N.
Definition is_letter (c : ascii) : bool :=
  ((65 <=? code c) && (code c <=? 90) || (97 <=? code c) && (code c <=? 122))%N.
(** The white space of the C locale: space, \t, \n, \v, \f, \r. *)
Definition is_space (c : ascii) : bool :=
  ((code c =? 32) || (9 <=? code c) && (code c <=? 13))%N.

Fixpoint take_while {A} (p : A -> bool) (l : list A) : list A :=
  match l with
  | x :: l' => if p x then x :: take_while p l' else []
  | [] => []
  end.
Fixpoint drop_while {A} (p : A -> bool) (l : list A) : list A :=
  match l with
  | x :: l' => if p x then drop_while p l' else l
  | [] => []
  end.

(** [allele.split('(')[0]]: the text before the first opening parenthesis,
    the whole text when there is none. *)
Definition split_paren_0 (allele : string) : string :=
  text (take_while (fun c => negb (Ascii.eqb c "(")) (chars allele)).

(** [Series.str.replace('[a-zA-Z()]', '')] on one element.  The pattern is
    read as a regular expression, the default of [str.replace] in the pandas
    versions the script was written for: every ASCII letter and every
    parenthesis is removed. *)
Definition in_class (c : ascii) : bool :=
  is_letter c || Ascii.eqb c "(" || Ascii.eqb c ")".
Definition str_replace (s : string) : string :=
  text (List.filter (fun c => negb (in_class c)) (chars s)).

(** ** [pd.to_numeric(..., errors='coerce')]

    One element first.  pandas reads a str with its C number parser:
    optional white space, an optional sign, decimal digits with at most one
    decimal point and at least one digit, optional white space, and nothing
    else.  (The parser also knows exponents and the words [inf] and [nan];
    they contain letters, so none survives [str_replace].)  A numeral
    without a decimal point is an integer, converted by Python's [int]; one
    with a point is a float; everything else, the empty string included, is
    coerced to NaN. *)
Inductive parsed := PInt (z : Z) | PFloat (q : Q) | PNaN.

Definition digit_value (c : ascii) : Z := Z.of_N (code c) - 48.
Definition digits_value (ds : list ascii) : Z :=
  fold_left (fun acc c => 10 * acc + digit_value c)%Z ds 0%Z.

Definition signed (neg : bool) (z : Z) : Z := if neg then (- z)%Z else z.

Definition split_sign (l : list ascii) : bool * list ascii :=
  match l with
  | c :: t => if Ascii.eqb c "-" then (true, t)
              else if Ascii.eqb c "+" then (false, t) else (false, l)
  | [] => (false, [])
  end.

Definition parse_number (l : list ascii) : parsed :=
  let '(neg, l2) := split_sign (drop_while is_space l) in
  let ds1 := take_while is_digit l2 in
  match drop_while is_digit l2 with
  | c :: t =>
      if Ascii.eqb c "." then
        let ds2 := take_while is_digit t in
        match ds1 ++ ds2, drop_while is_space (drop_while is_digit t) with
        | _ :: _, [] =>
            PFloat (signed neg (digits_value (ds1 ++ ds2))
                      # Z.to_pos (10 ^ Z.of_nat (length ds2)))
        | _, _ => PNaN
        end
      else
        match ds1, drop_while is_space (c :: t) with
        | _ :: _, [] => PInt (signed neg (digits_value ds1))
        | _, _ => PNaN
        end
  | [] =>
      match ds1 with
      | _ :: _ => PInt (signed neg (digits_value ds1))
      | [] => PNaN
      end
  end.

Definition to_numeric_scalar (s : string) : parsed := parse_number (chars s).

(** Then the column.  The result is an int64 column when every element is an
    integer that fits, a uint64 column when all are non-negative and one
    exceeds the int64 range, and a float64 column as soon as one element is
    a float, is missing, or is an integer outside both ranges; an integer
    stored in a float64 column is stored as the double of that value.
    [Float64 q] stands for the double that the parser computes for a numeral
    of value [q]; it is [q] itself whenever [q] is an integer below 2^53
    written with at most 17 digits, which covers every use made of it. *)
Inductive dtype := int64 | uint64 | float64.

Definition int64_max : Z := 2 ^ 63 - 1.
Definition int64_min : Z := - 2 ^ 63.
Definition uint64_max : Z := 2 ^ 64 - 1.

Definition forces_float (p : parsed) : bool :=
  match p with
  | PInt z => (z <? int64_min)%Z || (uint64_max <? z)%Z
  | PFloat _ | PNaN => true
  end.
Definition is_uint (p : parsed) : bool :=
  match p with PInt z => (int64_max <? z)%Z | _ => false end.
Definition is_sint (p : parsed) : bool :=
  match p with PInt z => (z <? 0)%Z | _ => false end.

Definition result_dtype (ps : list parsed) : dtype :=
  if existsb forces_float ps then float64
  else if existsb is_uint ps then
         (if existsb is_sint ps then float64 else uint64)
       else int64.

Definition store (d : dtype) (p : parsed) : cell :=
  match p with
  | PNaN => NaN
  | PFloat q => Float64 q
  | PInt z => match d with float64 => Float64 (inject_Z z) | _ => Int64 z end
  end.

(** An element that is not a str: numbers pass, NaN stays NaN. *)
Definition parse_cell (c : cell) : parsed :=
  match c with
  | Str s => to_numeric_scalar s
  | Int64 z | Int32 z => PInt z
  | Float64 q | Int32_of_double q => PFloat q
  | NaN => PNaN
  end.

Definition to_numeric (col : list cell) : list cell :=
  let ps := map parse_cell col in
  map (store (result_dtype ps)) ps.

(** [.str.replace] on a column: an element that is not a str becomes NaN. *)
Definition str_replace_cell (c : cell) : cell :=
  match c with Str s => Str (str_replace s) | _ => NaN end.

Definition isna (c : cell) : bool :=
  match c with NaN => true | _ => false end.

(** ** Tables *)

Global Instance cell_inhabited : Inhabited cell := populate NaN.

(** Column [j] of a table, and its replacement. *)
Definition get_col {A} `{Inhabited A} (j : nat) (rows : list (list A)) : list A :=
  map (fun r => r !!! j) rows.
Definition set_col {A} (j : nat) (col : list A) (rows : list (list A))
  : list (list A) :=
  zip_with (fun r v => <[j := v]> r) rows col.

(** The position of a label, and [dataframe[label]] for a label that occurs
    once: the column, or KeyError.  For a label that occurs several times
    pandas returns the DataFrame of all its columns, not a column;
    [getitem] returns the first of them, which is not what the program
    goes on with.  Its results are to be read for distinct labels. *)
Fixpoint index_of (label : string) (labels : list string) : option nat :=
  match labels with
  | [] => None
  | l :: ls => if String.eqb l label then Some 0
               else S <$> index_of label ls
  end.
Definition getitem {A} `{Inhabited A} (df : frame A) (label : string)
  : exn + list A :=
  match index_of label (columns df) with
  | Some j => inr (get_col j (data df))
  | None => inl KeyError
  end.

(** [rows[mask]] for a boolean mask over the rows (or over the columns). *)
Fixpoint select {A} (mask : list bool) (l : list A) : list A :=
  match mask, l with
  | b :: mask', x :: l' => if b then x :: select mask' l' else select mask' l'
  | _, _ => []
  end.

(** The row positions that a mask keeps, in order. *)
Definition positions (mask : list bool) : list nat :=
  select mask (seq 0 (length mask)).

(** [df.drop(labels, axis=1)]: every column that carries one of the labels
    goes; a label that no column carries is a KeyError. *)
Definition drop_labels {A} (labels : list string) (df : frame A)
  : exn + frame A :=
  if forallb (fun l => existsb (String.eqb l) (columns df)) labels then
    let keep := map (fun c => negb (existsb (String.eqb c) labels)) (columns df) in
    inr (Frame (select keep (columns df)) (map (select keep) (data df)))
  else inl KeyError.

(** [tmp_df.shape == (1, nr_cols)].  The width of a table is the width of
    its rows. *)
Definition shape (t : raw_frame) : Z * Z :=
  (Z.of_nat (length t),
   match t with r :: _ => Z.of_nat (length r) | [] => 0%Z end).
Definition shape_is (t : raw_frame) (nrows ncols : Z) : bool :=
  ((fst (shape t) =? nrows) && (snd (shape t) =? ncols))%Z.

(** [pd.concat(df_list)] stacks the tables; it raises on an empty list. *)
Definition pd_concat (df_list : list raw_frame) : exn + raw_frame :=
  match df_list with
  | [] => inl ValueError
  | _ => inr (concat df_list)
  end.

(** ** read_mlst_files, read_mlst_summary *)

Fixpoint read_mlst_loop (mlst_files : list string) (nr_cols : Z)
    (df_list : list raw_frame) : M (list raw_frame) :=
  match mlst_files with
  | [] => ret df_list
  | file :: rest =>
      (do size <- os_stat_size file;
       if (0 <? size)%N then
         do tmp_df <- read_table file;
         if shape_is tmp_df 1 nr_cols then
           read_mlst_loop rest nr_cols (df_list ++ [tmp_df])
         else
           run print (Line (file +:+ " did not have expected dimensions. Skipping..."));
           read_mlst_loop rest nr_cols df_list
       else
         run print (Line (file +:+ " is an empty file. Skipping..."));
         read_mlst_loop rest nr_cols df_list)%py
  end.

Definition read_mlst_files (mlst_files : list string) (nr_loci : Z)
  : M raw_frame :=
  (let nr_cols := (nr_loci + 3)%Z in
   do df_list <- read_mlst_loop mlst_files nr_cols [];
   let nr_dfs := length df_list in
   do df <- lift (pd_concat df_list);
   run print (Line ("Combined " +:+ pretty nr_dfs +:+ " files"));
   ret df)%py.

Definition read_mlst_summary (mlst_summary : string) : M raw_frame :=
  read_table mlst_summary.

(** ** fix_header

    [dataframe.iloc[0,3:]] needs a first row, and assigning the header
    raises when its length is not the number of columns, which happens
    exactly when the table has fewer than three. *)
Definition fix_header (dataframe : raw_frame) : exn + frame string :=
  match dataframe with
  | [] => inl IndexError
  | first :: _ =>
      let header := ["file"; "scheme"; "ST"] ++ map split_paren_0 (drop 3 first) in
      if (length header =? length first)%nat
      then inr (Frame header dataframe)
      else inl ValueError
  end.

(** ** select_scheme *)

Definition count (k : string) (col : list string) : nat :=
  length (List.filter (String.eqb k) col).

Fixpoint distinct (col : list string) : list string :=
  match col with
  | [] => []
  | x :: col' => x :: List.filter (fun y => negb (String.eqb x y)) (distinct col')
  end.

Fixpoint insert_desc (x : string * nat) (l : list (string * nat))
  : list (string * nat) :=
  match l with
  | [] => [x]
  | y :: l' => if (snd y <=? snd x)%nat then x :: y :: l'
               else y :: insert_desc x l'
  end.

(** [Series.value_counts()]: the distinct values with their counts, the most
    frequent first.  pandas does not fix the order of equally frequent
    values: it is that of its sort, and differs between versions.  Here the
    one met first in the column comes first, which is one of the orders
    pandas can give, not the one it gives everywhere.  The theorems on the
    selector say that the head of the table is a most frequent value;
    which of several it is, they do not say. *)
Definition value_counts (col : list string) : list (string * nat) :=
  fold_right insert_desc [] (map (fun k => (k, count k col)) (distinct col)).

Definition Qlt_bool (a b : Q) : bool := negb (Qle_bool b a).

Definition percentage (n total : nat) : Q :=
  (inject_Z (Z.of_nat n) / inject_Z (Z.of_nat total)) * 100.

Definition select_scheme (dataframe : frame string) (scheme : option string)
  : M string :=
  (do col <- lift (getitem dataframe "scheme");
   let valuecounts := value_counts col in
   let total := sum_list (map snd valuecounts) in
   do selected_scheme <-
     match scheme with
     | None => match valuecounts with
               | (k, _) :: _ => ret k
               | [] => raise IndexError
               end
     | Some s => ret s
     end;
   do n <-
     match List.filter (fun kc => String.eqb (fst kc) selected_scheme) valuecounts with
     | [(_, n)] => ret n
     | _ => raise TypeError
     end;
   do selected_pct <-
     match total with
     | O => raise ZeroDivisionError
     | _ => ret (percentage n total)
     end;
   if Qlt_bool selected_pct 75 then
     run print (Percentage selected_pct);
     run print (Line "<class 'float'>");
     run print (Warning selected_scheme selected_pct);
     ret selected_scheme
   else ret selected_scheme)%py.

(** ** clean_dataframe_scheme *)

Definition clean_dataframe_scheme (dataframe : frame string) (scheme : string)
  : exn + (frame string * frame string) :=
  ebind (getitem dataframe "scheme") (fun col =>
  let filter_scheme := map (fun s => String.eqb s scheme) col in
  let dataframe_clean :=
    Frame (columns dataframe) (select filter_scheme (data dataframe)) in
  let dataframe_not_scheme :=
    Frame (columns dataframe) (select (map negb filter_scheme) (data dataframe)) in
  ebind (getitem dataframe_not_scheme "scheme") (fun col' =>
  let dataframe_not_scheme :=
    Frame (columns dataframe)
          (select (map (fun s => negb (String.eqb s "-")) col')
                  (data dataframe_not_scheme)) in
  inr (dataframe_clean, dataframe_not_scheme))).

(** ** clean_dataframe_alleles *)

Fixpoint traverse {A B} (f : A -> exn + B) (l : list A) : exn + list B :=
  match l with
  | [] => inr []
  | x :: l' => ebind (f x) (fun y => ebind (traverse f l') (fun ys => inr (y :: ys)))
  end.

(** A 64-bit integer cast to int32 keeps its low 32 bits. *)
Definition wrap32 (z : Z) : Z := ((z + 2 ^ 31) mod 2 ^ 32 - 2 ^ 31)%Z.

Definition in_int32 (z : Z) : bool := ((- 2 ^ 31 <=? z) && (z <=? 2 ^ 31 - 1))%Z.

(** A double cast to int32: its value when that is an integer of the int32
    range.  (For a fractional double C truncates, for one out of range the
    result is not defined by C; neither is needed below.) *)
Definition double_to_int32 (q : Q) : cell :=
  let r := Qred q in
  if (Qden r =? 1)%positive && in_int32 (Qnum r) then Int32 (Qnum r)
  else Int32_of_double q.

Definition cell_eqb_str (c : cell) (s : string) : bool :=
  match c with Str s' => String.eqb s' s | _ => false end.

Section pipeline.

(** Python's [int] on a str: the integer it denotes, [None] when it raises
    ValueError.  Only [astype] on a column of text applies it. *)
Variable int_of_str : string -> option Z.

(** [astype('int32')] on one element.  pandas refuses to cast a column that
    holds a missing value. *)
Definition astype_int32 (c : cell) : exn + cell :=
  match c with
  | Str s => match int_of_str s with
             | Some z => inr (Int32 (wrap32 z))
             | None => inl ValueError
             end
  | Int64 z => inr (Int32 (wrap32 z))
  | Float64 q => inr (double_to_int32 q)
  | NaN => inl ValueError
  | Int32 z => inr (Int32 z)
  | Int32_of_double q => inr (Int32_of_double q)
  end.

(** [astype({label: 'int32'}, errors=...)] for the column at position [j]:
    the column is cast as a whole; with [errors='ignore'] a column that
    cannot be cast is left as it is. *)
Definition astype_col (errors_ignore : bool) (j : nat) (rows : list (list cell))
  : exn + list (list cell) :=
  match traverse astype_int32 (get_col j rows) with
  | inr col => inr (set_col j col rows)
  | inl e => if errors_ignore then inr rows else inl e
  end.

Definition astype (errors_ignore : bool) (js : list nat) (rows : list (list cell))
  : exn + list (list cell) :=
  fold_left (fun acc j => ebind acc (astype_col errors_ignore j)) js (inr rows).

(** One turn of the loop over [columns[3:]]: the column is stripped of
    letters and parentheses and replaced by its numeric coercion. *)
Definition coerce_col (j : nat) (rows : list (list cell)) : list (list cell) :=
  let stripped_series := map str_replace_cell (get_col j rows) in
  set_col j (to_numeric stripped_series) rows.

(** The positions of the locus columns, [columns[3:]]. *)
Definition loci {A} (df : frame A) : list nat :=
  seq 3 (length (columns df) - 3).

(** [dataframe_clean[col].str] for a label of the header.  pandas selects by
    label: for a label that the header carries once it gives that column, a
    Series; for a label that the header carries several times it gives a
    DataFrame, which has no [.str], and the access raises AttributeError. *)
Definition label_positions (label : string) (labels : list string) : list nat :=
  positions (map (String.eqb label) labels).
Definition str_accessor (label : string) (labels : list string) : exn + nat :=
  match label_positions label labels with
  | [] => inl KeyError
  | [j] => inr j
  | _ => inl AttributeError
  end.

(** Lines 173 to 176: the coerced copy.  The loop runs over the labels
    [columns[3:]], in order, and stops at the first one that the header
    carries more than once. *)
Definition coerce_label (labels : list string) (acc : exn + list (list cell))
    (col : string) : exn + list (list cell) :=
  ebind acc (fun rows =>
  ebind (str_accessor col labels) (fun j => inr (coerce_col j rows))).
Definition coerced (dataframe : frame string) : exn + list (list cell) :=
  fold_left (coerce_label (columns dataframe)) (drop 3 (columns dataframe))
            (inr (map (map Str) (data dataframe))).

(** Lines 177 and 178: the two filters, on the coerced copy. *)
Definition filter_nan (dataframe_clean : list (list cell)) : list bool :=
  map (fun r => existsb isna (drop 3 r)) dataframe_clean.

Definition filter_no_ST (labels : list string) (dataframe_clean : list (list cell))
  : exn + list bool :=
  ebind (getitem (Frame labels dataframe_clean) "ST")
        (fun st => inr (map (fun c => cell_eqb_str c "-") st)).

(** Lines 179 to 186.  [astype] takes the dtypes by label; once the loop
    above has passed, every locus label occurs once, and the labels
    [columns[3:]] stand for the positions [loci]. *)
Definition clean_dataframe_alleles (dataframe : frame string)
  : exn + (frame cell * frame cell) :=
  ebind (coerced dataframe) (fun dataframe_clean =>
  let filter_nan := filter_nan dataframe_clean in
  ebind (filter_no_ST (columns dataframe) dataframe_clean) (fun filter_no_ST =>
  let dataframe_clean :=
    select (zip_with andb (map negb filter_nan) (map negb filter_no_ST))
           dataframe_clean in
  let dataframe_failed_alleles :=
    select (zip_with orb filter_nan filter_no_ST)
           (map (map Str) (data dataframe)) in
  ebind (astype false (loci dataframe) dataframe_clean) (fun dataframe_clean =>
  ebind (astype true (loci dataframe) dataframe_failed_alleles)
        (fun dataframe_failed_alleles =>
  inr (Frame (columns dataframe) dataframe_clean,
       Frame (columns dataframe) dataframe_failed_alleles))))).

(** ** main *)

Record arguments := Args {
  mlst_summary : option string;
  mlst_files : option (list string);
  scheme : option string;
  out : string;
  not_scheme : option string;
  failed_alleles : option string;
  nr_loci : Z;
  include_filename : bool
}.

(** Lines 197 to 203: what is written, and where. *)
Definition write_outputs (args : arguments)
    (df : frame cell) (df_not_scheme : frame string)
    (df_failed_alleles : frame cell) : M unit :=
  (do df <- (if include_filename args then ret df
             else lift (drop_labels ["file"; "scheme"] df));
   run to_csv (out args) df;
   run match not_scheme args with
       | Some path =>
           to_csv path (Frame (columns df_not_scheme)
                              (map (map Str) (data df_not_scheme)))
       | None => ret tt
       end;
   match failed_alleles args with
   | Some path => to_csv path df_failed_alleles
   | None => ret tt
   end)%py.

Definition main (args : arguments) : M unit :=
  (do df <- match mlst_files args with
            | Some paths => do df <- read_mlst_files paths (nr_loci args);
                            ret (Some df)
            | None => ret None
            end;
   do df <- match mlst_summary args with
            | Some path => do df <- read_mlst_summary path; ret (Some df)
            | None => ret df
            end;
   do df <- match df with
            | Some df => ret df
            | None => raise UnboundLocalError
            end;
   do df <- lift (fix_header df);
   do scheme <- select_scheme df (scheme args);
   do '(df, df_not_scheme) <- lift (clean_dataframe_scheme df scheme);
   do '(df, df_failed_alleles) <- lift (clean_dataframe_alleles df);
   write_outputs args df df_not_scheme df_failed_alleles)%py.

End pipeline.

(** Python's [int] on the plain ASCII integer literals: optional white
    space, an optional sign, digits, optional white space.  Python accepts
    more (an underscore between digits, digits of other scripts), which
    [int_literal] rejects.  It stands in for [int_of_str] where a sample is
    evaluated; the theorems hold for every [int_of_str]. *)
Definition int_literal (s : string) : option Z :=
  match parse_number (chars s) with
  | PInt z => Some z
  | _ => None
  end.

(** ** Notions of the specification *)

(** The table that [fix_header] delivers: the three fixed labels, and rows
    as wide as the header. *)
Definition typed {A} (df : frame A) : Prop :=
  take 3 (columns df) = ["file"; "scheme"; "ST"] /\
  Forall (fun r => length r = length (columns df)) (data df).

(** The coercion of one locus designation: letters and parentheses go, the
    rest is read as a number. *)
Definition coerce_text (s : string) : parsed := to_numeric_scalar (str_replace s).

Definition is_missing (p : parsed) : bool :=
  match p with PNaN => true | _ => false end.

(** A complete row: no locus cell is coerced to the missing marker, and
    the ST is not the sentinel. *)
Definition complete (r : list string) : bool :=
  forallb (fun s => negb (is_missing (coerce_text s))) (drop 3 r)
  && negb (String.eqb (r !!! 2) "-").

(** The dtype that [to_numeric] gives the locus column at position [j]. *)
Definition locus_dtype (df : frame string) (j : nat) : dtype :=
  result_dtype (map (fun r => coerce_text (r !!! j)) (data df)).

(** A numeric element after [astype('int32')]. *)
Definition int32_of (c : cell) : cell :=
  match c with
  | Int64 z => Int32 (wrap32 z)
  | Float64 q => double_to_int32 q
  | _ => c
  end.

(** The row of the coerced copy, and the row of the clean table, that
    belong to the row [r] of [df]. *)
Definition coerced_row (df : frame string) (r : list string) : list cell :=
  (Str <$> take 3 r)
  ++ imap (fun k s => store (locus_dtype df (3 + k)) (coerce_text s)) (drop 3 r).
Definition clean_row (df : frame string) (r : list string) : list cell :=
  (Str <$> take 3 r)
  ++ imap (fun k s => int32_of (store (locus_dtype df (3 + k)) (coerce_text s)))
          (drop 3 r).

(** The positions of the complete rows and of the others. *)
Definition clean_positions (df : frame string) : list nat :=
  positions (map complete (data df)).
Definition failed_positions (df : frame string) : list nat :=
  positions (map (fun r => negb (complete r)) (data df)).

(** A row of the failed table next to its original: each cell is the
    original text, or, in a locus column that [astype] could cast, the
    int32 of the integer that the text denotes. *)
Definition recast_of (int_of_str : string -> option Z)
    (r : list string) (f : list cell) : Prop :=
  Forall2 (fun s c => c = Str s \/
                      exists z, int_of_str s = Some z /\ c = Int32 (wrap32 z)) r f
  /\ take 3 f = Str <$> take 3 r.

(** A decimal numeral, as the grammar of the number parser has it. *)
Definition decimal_numeral (l : list ascii) : Prop :=
  exists ws1 sign ds1 frac ws2,
    l = ws1 ++ sign ++ ds1 ++ frac ++ ws2 /\
    Forall (fun c => is_space c = true) ws1 /\
    (sign = [] \/ sign = ["-"%char] \/ sign = ["+"%char]) /\
    Forall (fun c => is_digit c = true) ds1 /\
    (frac = [] /\ ds1 <> [] \/
     exists ds2, frac = "."%char :: ds2 /\
                 Forall (fun c => is_digit c = true) ds2 /\ ds1 ++ ds2 <> []) /\
    Forall (fun c => is_space c = true) ws2.

(** An integer numeral: an optional sign and digits. *)
Definition integer_numeral (l : list ascii) (z : Z) : Prop :=
  exists (neg : bool) (ds : list ascii),
    l = (if neg then ["-"%char] else []) ++ ds /\ ds <> [] /\
    Forall (fun c => is_digit c = true) ds /\
    z = signed neg (digits_value ds).

(** The integer parse that section 4.5 of the specification speaks of, on
    the stripped text: the value of an integer numeral, and nothing for any
    other text. *)
Definition spec_integer_parse (s : string) : option Z :=
  match parse_number (chars s) with
  | PInt z => Some z
  | _ => None
  end.

(** The designation [gene(alleleId)] that mlst prints. *)
Definition designation (gene : string) (allele : N) : string :=
  gene +:+ "(" +:+ pretty allele +:+ ")".

(** The stage places the rows at the positions [cp] in the clean table,
    coerced and cast, and the rows at the positions [fp] in the failed
    table, as they were. *)
Definition placed (int_of_str : string -> option Z) (df : frame string)
    (cp fp : list nat) : Prop :=
  exists clean failed,
    clean_dataframe_alleles int_of_str df = inr (clean, failed) /\
    columns clean = columns df /\ columns failed = columns df /\
    data clean = (fun i => clean_row df (data df !!! i)) <$> cp /\
    Forall2 (fun i f => recast_of int_of_str (data df !!! i) f) fp (data failed).

(** The table [df] with the text [t] in row [i], column [k]. *)
Definition with_cell (df : frame string) (i k : nat) (t : string) : frame string :=
  Frame (columns df) (<[i := <[k := t]> (data df !!! i)]> (data df)).

(** The label that the selector settles on, or the exception it raises: the
    explicit label when it occurs in the scheme column, else the first key
    of the frequency table. *)
Definition selected (arg : option string) (col : list string) : exn + string :=
  match arg with
  | Some s => if bool_decide (s ∈ col) then inr s else inl TypeError
  | None => match value_counts col with
            | (k, _) :: _ => inr k
            | [] => inl IndexError
            end
  end.

(** What the selector prints for the label [s] and the percentage [pct]. *)
Definition warning_lines (s : string) (pct : Q) : list output :=
  if Qlt_bool pct 75
  then [Percentage pct; Line "<class 'float'>"; Warning s pct]
  else [].

(** A file passes the checks of [read_mlst_files] when it is not empty and
    its table is one row of [nr_cols] fields; a file that does not is
    skipped with a message. *)
Definition accepted (fs : gmap string file) (nr_cols : Z) (path : string) : bool :=
  match fs !! path with
  | Some f => (0 <? st_size f)%N && shape_is (table f) 1 nr_cols
  | None => false
  end.
Definition skip_message (fs : gmap string file) (nr_cols : Z) (path : string)
  : option output :=
  match fs !! path with
  | Some f =>
      if (0 <? st_size f)%N then
        if shape_is (table f) 1 nr_cols then None
        else Some (Line (path +:+ " did not have expected dimensions. Skipping..."))
      else Some (Line (path +:+ " is an empty file. Skipping..."))
  | None => None
  end.
Definition table_of (fs : gmap string file) (path : string) : raw_frame :=
  match fs !! path with Some f => table f | None => [] end.

(** ** Auxiliary notions of the proofs *)

(** The coerced copy of a table whose labels are distinct: there the loop
    over the labels visits the positions [loci] in order. *)
Definition coerced_by_position (dataframe : frame string) : list (list cell) :=
  fold_left (fun rows j => coerce_col j rows) (loci dataframe)
            (map (map Str) (data dataframe)).

(** The coercion of one cell under a column dtype, and the dtype that the
    column at position [k] of a table of cells gets. *)
Definition cell_coerce (d : dtype) (c : cell) : cell :=
  store d (parse_cell (str_replace_cell c)).
Definition col_dtype (k : nat) (rows : list (list cell)) : dtype :=
  result_dtype (map (fun r => parse_cell (str_replace_cell (r !!! k))) rows).

(** An element of an int64 or float64 column that is not missing. *)
Definition numeric (c : cell) : Prop :=
  match c with Int64 _ | Float64 _ => True | _ => False end.

(** The first element that a scan leaves does not satisfy the test. *)
Definition stops {A} (p : A -> bool) (l : list A) : Prop :=
  match l with [] => True | x :: _ => p x = false end.

(** With [errors='ignore'] a cell is left as it is or cast, and only the
    columns listed are touched. *)
Definition cast_or_same (int_of_str : string -> option Z) (c c' : cell) : Prop :=
  c' = c \/ astype_int32 int_of_str c = inr c'.
Definition recast (int_of_str : string -> option Z) (js : list nat)
    (r r' : list cell) : Prop :=
  Forall2 (cast_or_same int_of_str) r r' /\ forall k, k ∉ js -> r' !! k = r !! k.

(** ** Readings of the specification that the code does not follow *)

(** Section 4.5 read to the letter: the coercion is an integer parse, so
    that a locus cell whose stripped text is no integer is missing in the
    coerced copy. *)
Definition integer_parse_only : Prop :=
  forall (df : frame string) (i j : nat) (r : list string) (s : string),
    typed df -> NoDup (columns df) ->
    data df !! i = Some r -> 3 <= j -> r !! j = Some s ->
    spec_integer_parse (str_replace s) = None ->
    exists rows r',
      coerced df = inr rows /\ rows !! i = Some r' /\ r' !! j = Some NaN.

(** ** Sample data *)

Definition sample_table : frame string :=
  Frame ["file"; "scheme"; "ST"; "adk"; "fumC"]
        [ ["a.fa"; "ecoli"; "10"; "adk(12)"; "fumC(3)"];
          ["b.fa"; "ecoli"; "-"; "adk(1)"; "fumC(7)"];
          ["c.fa"; "ecoli"; "11"; "adk(-)"; "fumC(7)"];
          ["d.fa"; "senterica"; "-"; "-"; "-"];
          ["e.fa"; "-"; "-"; "-"; "-"] ].

Definition sample_clean : frame cell :=
  Frame ["file"; "scheme"; "ST"; "adk"; "fumC"]
        [ [Str "a.fa"; Str "ecoli"; Str "10"; Int32 12; Int32 3] ].

(** Three files of one sample each, an empty file and a file that is too
    narrow. *)
Definition sample_files : gmap string file :=
  list_to_map
    [ ("s1.tsv", File 40 [["s1.fa"; "scheme1"; "5"; "adk(1)"; "fumC(2)"]]);
      ("s2.tsv", File 40 [["s2.fa"; "scheme1"; "6"; "adk(1)"; "fumC(3)"]]);
      ("s3.tsv", File 40 [["s3.fa"; "scheme2"; "7"; "adk(4)"; "fumC(2)"]]);
      ("empty.tsv", File 0 []);
      ("narrow.tsv", File 12 [["n.fa"; "-"; "-"]]) ].

Definition sample_world : world := World sample_files [] [].

Definition sample_arguments : arguments :=
  Args None (Some ["s1.tsv"; "empty.tsv"; "s2.tsv"; "narrow.tsv"; "s3.tsv"])
       None "allelic_profiles.tsv" (Some "other.tsv") (Some "failed.tsv") 2 false.

(** A decimal allele, and an allele number beyond the int32 range. *)
Definition decimal_table : frame string :=
  Frame ["file"; "scheme"; "ST"; "adk"] [ ["a.fa"; "ecoli"; "10"; "adk(1.5)"] ].
Definition large_table : frame string :=
  Frame ["file"; "scheme"; "ST"; "adk"]
        [ ["a.fa"; "ecoli"; "10"; "adk(4294967297)"] ].

(** A gene whose name carries digits. *)
Definition digit_table : frame string :=
  Frame ["file"; "scheme"; "ST"; "cpn60"] [ ["a.fa"; "ecoli"; "10"; "cpn60(2)"] ].


(** ** The script

    Lines 221 to 225: the script leaves with a usage message unless exactly
    one of the two inputs is given, and runs [main] otherwise.  The
    arguments are taken as argparse delivers them. *)
Inductive outcome :=
| Usage (message : string)
| Ran (result : (exn + unit) * world).

Definition script (int_of_str : string -> option Z) (args : arguments)
    (w : world) : outcome :=
  if Bool.eqb (bool_decide (mlst_files args = None))
              (bool_decide (mlst_summary args = None))
  then Usage "Need to set exactly one of either --mlst-dir or --mlst-summary"
  else Ran (main int_of_str args w).

(** ** Further notions *)

(** A character that a decimal numeral can hold. *)
Definition numeral_char (c : ascii) : bool :=
  is_digit c || is_space c || Ascii.eqb c "." || Ascii.eqb c "+" || Ascii.eqb c "-".

(** A frequency table whose counts do not increase. *)
Fixpoint descending (l : list (string * nat)) : Prop :=
  match l with
  | [] => True
  | x :: l' => Forall (fun y => snd y <= snd x) l' /\ descending l'
  end.

(** An element of an int32 column: an integer of the int32 range, or the
    cast of a double that is not such an integer. *)
Definition int32_cell (c : cell) : Prop :=
  match c with
  | Int32 z => (- 2 ^ 31 <= z < 2 ^ 31)%Z
  | Int32_of_double _ => True
  | _ => False
  end.

(** One sample as mlst reports it under a scheme: the file, the ST and one
    allele number for each gene of the scheme; the line that mlst prints
    for it, and its allelic profile. *)
Record isolate := Isolate {
  isolate_file : string;
  isolate_ST : string;
  isolate_alleles : list N
}.
Definition mlst_row (sch : string) (genes : list string) (iso : isolate)
  : list string :=
  [isolate_file iso; sch; isolate_ST iso]
  ++ zip_with designation genes (isolate_alleles iso).
Definition profile (iso : isolate) : list cell :=
  Str (isolate_ST iso) :: map (fun a => Int32 (Z.of_N a)) (isolate_alleles iso).

(** A sample that mlst has typed: an allele for every gene, each within
    the int32 range, and an ST. *)
Definition fully_typed (genes : list string) (iso : isolate) : Prop :=
  length (isolate_alleles iso) = length genes /\
  isolate_ST iso <> "-" /\
  Forall (fun a => (a <= 2147483647)%N) (isolate_alleles iso).

(** Three typed samples. *)
Definition typed_isolates : list isolate :=
  [ Isolate "s1.fa" "5" [1; 2]%N; Isolate "s2.fa" "6" [1; 3]%N;
    Isolate "s3.fa" "7" [4; 2]%N ].

(** A table whose first row holds no designation: both locus labels come
    out as the sentinel. *)
Definition untyped_table : frame string :=
  Frame ["file"; "scheme"; "ST"; "-"; "-"]
        [["d.fa"; "senterica"; "-"; "-"; "-"]].

(** * Properties *)

(** ** Masks and positions *)

Lemma select_map {A B} (f : A -> B) (mask : list bool) (l : list A) :
  select mask (map f l) = map f (select mask l).
Proof.
  revert l; induction mask as [|b mask IH]; intros [|x l]; simpl; try done.
  destruct b; simpl; by rewrite IH.
Qed.

Lemma select_seq_shift {A} `{Inhabited A} (mask : list bool) (l pre : list A) :
  length mask = length l ->
  select mask l
  = (fun i => (pre ++ l) !!! i) <$> select mask (seq (length pre) (length mask)).
Proof.
  revert l pre; induction mask as [|b mask IH]; intros [|x l] pre Hlen;
    simpl in *; try done.
  injection Hlen as Hlen.
  specialize (IH l (pre ++ [x]) Hlen).
  rewrite length_app, Nat.add_1_r, <- app_assoc in IH. simpl in IH.
  destruct b; simpl; [|done].
  f_equal; [|done].
  by rewrite list_lookup_total_middle.
Qed.

Lemma select_positions {A} `{Inhabited A} (mask : list bool) (l : list A) :
  length mask = length l ->
  select mask l = (fun i => l !!! i) <$> positions mask.
Proof. intros Hlen. apply (select_seq_shift mask l [] Hlen). Qed.

Lemma elem_of_select_seq (mask : list bool) (n i : nat) :
  i ∈ select mask (seq n (length mask)) <-> n <= i /\ mask !! (i - n) = Some true.
Proof.
  revert n; induction mask as [|b mask IH]; intros n; simpl.
  - split; [by intros ?%elem_of_nil | by intros [_ ?]].
  - assert (Hcase : i = n \/ i < n \/ S n <= i) by lia.
    assert (Htail : i ∈ select mask (seq (S n) (length mask))
                    <-> S n <= i /\ mask !! (i - S n) = Some true) by apply IH.
    destruct Hcase as [->|[Hlt|Hgt]].
    + rewrite Nat.sub_diag. simpl. destruct b.
      * split; [done|]. intros _. apply elem_of_cons; by left.
      * rewrite Htail. split; [intros [? _]; lia | intros [_ ?]; done].
    + destruct b.
      * rewrite elem_of_cons, Htail. split; [intros [?|[? _]]; lia | intros [? _]; lia].
      * rewrite Htail. split; [intros [? _]; lia | intros [? _]; lia].
    + replace (i - n) with (S (i - S n)) by lia. simpl.
      destruct b.
      * rewrite elem_of_cons, Htail. split.
        -- intros [?|[? ?]]; [lia|]. split; [lia|done].
        -- intros [_ ?]. right. split; [lia|done].
      * rewrite Htail. split; intros [? ?]; (split; [lia|done]).
Qed.

Lemma elem_of_positions (mask : list bool) (i : nat) :
  i ∈ positions mask <-> mask !! i = Some true.
Proof.
  unfold positions. rewrite elem_of_select_seq, Nat.sub_0_r.
  split; [by intros [_ ?]|]. intros ?; split; [lia|done].
Qed.

Lemma select_sublist {A} (mask : list bool) (l : list A) :
  select mask l `sublist_of` l.
Proof.
  revert l; induction mask as [|b mask IH]; intros [|x l]; simpl;
    try apply sublist_nil_l.
  destruct b; [by apply sublist_skip | by apply sublist_cons].
Qed.

Lemma NoDup_positions (mask : list bool) : NoDup (positions mask).
Proof. eapply sublist_NoDup; [apply NoDup_seq | apply select_sublist]. Qed.

(** The positions kept by a mask and by its negation split the rows. *)
Lemma positions_split {A} (p : A -> bool) (l : list A) (i : nat) :
  i < length l ->
  (i ∈ positions (map p l) /\ (i ∉ positions (map (fun x => negb (p x)) l))) \/
  ((i ∉ positions (map p l)) /\ i ∈ positions (map (fun x => negb (p x)) l)).
Proof.
  intros Hi. rewrite !elem_of_positions, !list_lookup_fmap.
  destruct (lookup_lt_is_Some_2 l i Hi) as [x Hx]. rewrite Hx. simpl.
  destruct (p x); [left|right]; split; (done || by intros [=]).
Qed.

(** ** The coerced copy *)

Lemma coerce_col_map (j : nat) (rows : list (list cell)) :
  coerce_col j rows
  = map (fun r => <[j := cell_coerce (col_dtype j rows) (r !!! j)]> r) rows.
Proof.
  unfold coerce_col, set_col, to_numeric, get_col, col_dtype, cell_coerce.
  rewrite !map_map.
  change (map ?f ?l) with (f <$> l).
  rewrite zip_with_fmap_r, zip_with_diag. done.
Qed.

Lemma col_dtype_insert_ne (j k : nat) (f : list cell -> cell) (rows : list (list cell)) :
  j <> k ->
  col_dtype k (map (fun r => <[j := f r]> r) rows) = col_dtype k rows.
Proof.
  intros Hne. unfold col_dtype. rewrite map_map. f_equal.
  apply map_ext. intros r. by rewrite list_lookup_total_insert_ne.
Qed.

Lemma fold_coerce_col (js : list nat) (rows : list (list cell)) :
  NoDup js ->
  fold_left (fun rows j => coerce_col j rows) js rows
  = map (imap (fun k c => if bool_decide (k ∈ js)
                          then cell_coerce (col_dtype k rows) c else c)) rows.
Proof.
  revert rows; induction js as [|j js IH]; intros rows Hnd; simpl.
  - symmetry. erewrite map_ext; [apply map_id|].
    intros r. simpl. apply list_eq. intros i. rewrite list_lookup_imap.
    by destruct (r !! i).
  - apply NoDup_cons in Hnd as [Hj Hnd].
    rewrite (IH _ Hnd), coerce_col_map, map_map.
    apply map_ext. intros r. apply list_eq. intros i.
    rewrite !list_lookup_imap.
    destruct (decide (i = j)) as [->|Hij].
    + rewrite bool_decide_eq_false_2 by done.
      rewrite bool_decide_eq_true_2 by (apply elem_of_cons; by left).
      destruct (r !! j) as [c|] eqn:Hc.
      * rewrite list_lookup_insert_eq by (by eapply lookup_lt_Some). simpl.
        by rewrite (list_lookup_total_correct _ _ _ Hc).
      * rewrite list_insert_ge by (by apply lookup_ge_None). by rewrite Hc.
    + rewrite list_lookup_insert_ne by done.
      destruct (r !! i) as [c|]; simpl; [|done].
      destruct (decide (i ∈ js)) as [Hi|Hi].
      * rewrite !bool_decide_eq_true_2; [|apply elem_of_cons; by right|done].
        by rewrite col_dtype_insert_ne by done.
      * rewrite !bool_decide_eq_false_2; [done| |done].
        intros [?|?]%elem_of_cons; done.
Qed.

Lemma typed_width {A} (df : frame A) : typed df -> 3 <= length (columns df).
Proof.
  intros [Hcols _]. apply (f_equal length) in Hcols.
  rewrite length_take in Hcols. cbn [length] in Hcols. lia.
Qed.

Lemma typed_row_length {A} (df : frame A) (r : list A) :
  typed df -> r ∈ data df -> length r = length (columns df).
Proof. intros [_ Hrows] Hr. by apply (proj1 (Forall_forall _ _) Hrows). Qed.

Lemma typed_index_ST {A} (df : frame A) :
  typed df -> index_of "ST" (columns df) = Some 2.
Proof.
  intros [Hcols _]. destruct (columns df) as [|a [|b [|c cols]]]; try done.
  by injection Hcols as -> -> ->.
Qed.

Lemma typed_index_scheme {A} (df : frame A) :
  typed df -> index_of "scheme" (columns df) = Some 1.
Proof.
  intros [Hcols _]. destruct (columns df) as [|a [|b [|c cols]]]; try done.
  by injection Hcols as -> -> ->.
Qed.

Lemma col_dtype_typed (df : frame string) (k : nat) :
  typed df -> k < length (columns df) ->
  col_dtype k (map (map Str) (data df)) = locus_dtype df k.
Proof.
  intros Hty Hk. unfold col_dtype, locus_dtype. rewrite map_map. f_equal.
  apply map_ext_in. intros r Hr%list_elem_of_In.
  change (map Str r) with (Str <$> r).
  rewrite (list_lookup_total_fmap Str r k) by (by rewrite (typed_row_length df r)).
  done.
Qed.

Lemma coerced_typed (df : frame string) :
  typed df -> coerced_by_position df = map (coerced_row df) (data df).
Proof.
  intros Hty. unfold coerced_by_position, loci.
  rewrite fold_coerce_col by apply NoDup_seq. rewrite map_map.
  apply map_ext_in. intros r Hr%list_elem_of_In.
  pose proof (typed_row_length df r Hty Hr) as Hlen.
  pose proof (typed_width df Hty) as Hw.
  apply list_eq. intros i. unfold coerced_row.
  rewrite list_lookup_imap. change (map Str r) with (Str <$> r).
  rewrite list_lookup_fmap.
  destruct (decide (i < 3)) as [Hi|Hi].
  - rewrite lookup_app_l by (rewrite length_fmap, length_take; lia).
    rewrite list_lookup_fmap, lookup_take_lt by done.
    destruct (r !! i); simpl; [|done].
    rewrite bool_decide_eq_false_2; [done|]. rewrite elem_of_seq. lia.
  - rewrite lookup_app_r by (rewrite length_fmap, length_take; lia).
    rewrite length_fmap, length_take, list_lookup_imap, lookup_drop.
    replace (3 `min` length r) with 3 by lia.
    replace (3 + (i - 3)) with i by lia.
    destruct (r !! i) as [s|] eqn:Hs; simpl; [|done].
    apply lookup_lt_Some in Hs.
    rewrite bool_decide_eq_true_2 by (rewrite elem_of_seq; lia).
    unfold cell_coerce. rewrite col_dtype_typed by (done || lia).
    done.
Qed.

(** ** The loop over the labels *)

Lemma singleton_of_NoDup (l : list nat) (j : nat) :
  NoDup l -> (forall i, i ∈ l <-> i = j) -> l = [j].
Proof.
  intros Hnd Hl. destruct l as [|x l].
  - exfalso. by apply (elem_of_nil j), Hl.
  - assert (x = j) as -> by (apply Hl, elem_of_cons; by left).
    f_equal. destruct l as [|y l]; [done|]. exfalso.
    assert (y = j) as ->
      by (apply Hl; apply elem_of_cons; right; apply elem_of_cons; by left).
    apply NoDup_cons in Hnd as [Hnd _]. apply Hnd, elem_of_cons. by left.
Qed.

Lemma elem_of_label_positions (label : string) (labels : list string) (i : nat) :
  i ∈ label_positions label labels <-> labels !! i = Some label.
Proof.
  unfold label_positions. rewrite elem_of_positions.
  change (map ?f ?l) with (f <$> l). rewrite list_lookup_fmap.
  destruct (labels !! i) as [x|]; simpl; [|split; done].
  split.
  - intros [= H]. apply String.eqb_eq in H. by subst.
  - intros [= ->]. by rewrite String.eqb_refl.
Qed.

Lemma str_accessor_distinct (labels : list string) (j : nat) (label : string) :
  NoDup labels -> labels !! j = Some label -> str_accessor label labels = inr j.
Proof.
  intros Hnd Hj. unfold str_accessor.
  rewrite (singleton_of_NoDup (label_positions label labels) j); [done| |].
  - apply NoDup_positions.
  - intros i. rewrite elem_of_label_positions. split; [|by intros ->].
    intros Hi. by eapply NoDup_lookup.
Qed.

Lemma str_accessor_repeated (labels : list string) (i j : nat) (label : string) :
  i <> j -> labels !! i = Some label -> labels !! j = Some label ->
  str_accessor label labels = inl AttributeError.
Proof.
  intros Hij Hi%elem_of_label_positions Hj%elem_of_label_positions.
  unfold str_accessor. destruct (label_positions label labels) as [|x [|y l]];
    [by apply elem_of_nil in Hi| |done].
  apply list_elem_of_singleton in Hi, Hj. congruence.
Qed.

Lemma str_accessor_error (labels : list string) (label : string) (e : exn) :
  label ∈ labels -> str_accessor label labels = inl e -> e = AttributeError.
Proof.
  intros [i Hi%elem_of_label_positions]%list_elem_of_lookup_1. unfold str_accessor.
  destruct (label_positions label labels) as [|x [|y l]];
    [by apply elem_of_nil in Hi|done|by intros [= <-]].
Qed.

Lemma coerce_label_raised (labels ls : list string) (e : exn) :
  fold_left (coerce_label labels) ls (inl e) = inl e.
Proof. induction ls as [|l ls IH]; simpl; [done|]. apply IH. Qed.

(** With distinct labels the loop visits the positions in order. *)
Lemma coerced_fold (labels : list string) (k : nat) (rows : list (list cell)) :
  NoDup labels ->
  fold_left (coerce_label labels) (drop k labels) (inr rows)
  = inr (fold_left (fun rows j => coerce_col j rows)
                   (seq k (length labels - k)) rows).
Proof.
  intros Hnd. remember (length labels - k) as n eqn:Hn.
  revert k rows Hn. induction n as [|n IH]; intros k rows Hn.
  - rewrite drop_ge by lia. done.
  - destruct (lookup_lt_is_Some_2 labels k) as [label Hl]; [lia|].
    rewrite (drop_S _ _ _ Hl). cbn [fold_left seq].
    unfold coerce_label at 2. cbn [ebind].
    rewrite (str_accessor_distinct labels k label Hnd Hl). cbn [ebind].
    apply IH. lia.
Qed.

Lemma coerced_distinct (df : frame string) :
  NoDup (columns df) -> coerced df = inr (coerced_by_position df).
Proof. intros Hnd. unfold coerced, coerced_by_position, loci. by apply coerced_fold. Qed.

(** The loop fails only on a repeated label, and does fail on one. *)
Lemma coerced_fold_error (labels ls : list string) (rows : list (list cell))
    (e : exn) :
  Forall (fun l => l ∈ labels) ls ->
  fold_left (coerce_label labels) ls (inr rows) = inl e -> e = AttributeError.
Proof.
  intros Hls. revert rows. induction Hls as [|l ls Hl _ IH]; intros rows; simpl; [done|].
  destruct (str_accessor l labels) as [e'|j] eqn:Hacc; simpl.
  - rewrite coerce_label_raised. intros [= <-]. by eapply str_accessor_error.
  - apply IH.
Qed.

Lemma coerced_fold_repeated (labels ls : list string) (rows : list (list cell)) :
  Forall (fun l => l ∈ labels) ls ->
  Exists (fun l => exists i j, i <> j /\ labels !! i = Some l /\ labels !! j = Some l)
         ls ->
  fold_left (coerce_label labels) ls (inr rows) = inl AttributeError.
Proof.
  intros Hls. revert rows. induction Hls as [|l ls Hl _ IH]; intros rows Hrep.
  - by apply Exists_nil in Hrep.
  - simpl. destruct (str_accessor l labels) as [e|j] eqn:Hacc; simpl.
    + rewrite coerce_label_raised. f_equal. by eapply str_accessor_error.
    + apply IH. apply Exists_cons in Hrep as [(i & j' & Hij & Hi & Hj)|Hrep]; [|done].
      by rewrite (str_accessor_repeated labels i j' l Hij Hi Hj) in Hacc.
Qed.

Lemma repeated_label (labels : list string) :
  ~ NoDup labels ->
  exists i j l, i < j /\ labels !! i = Some l /\ labels !! j = Some l.
Proof.
  induction labels as [|x labels IH]; intros Hnd.
  - exfalso. apply Hnd. constructor.
  - destruct (decide (x ∈ labels)) as [Hx|Hx].
    + apply list_elem_of_lookup_1 in Hx as [k Hk].
      exists 0, (S k), x. split; [lia|]. done.
    + destruct IH as (i & j & l & Hij & Hi & Hj).
      { intros Hnd'. apply Hnd. by constructor. }
      exists (S i), (S j), l. split; [lia|]. done.
Qed.

Lemma drop_labels_elem (labels : list string) (k : nat) :
  Forall (fun l => l ∈ labels) (drop k labels).
Proof.
  apply Forall_forall. intros l Hl.
  apply list_elem_of_lookup_1 in Hl as [i Hi]. rewrite lookup_drop in Hi.
  by eapply list_elem_of_lookup_2.
Qed.

Lemma coerced_error (df : frame string) (e : exn) :
  coerced df = inl e -> e = AttributeError.
Proof. apply coerced_fold_error, drop_labels_elem. Qed.

Lemma coerced_repeated (df : frame string) :
  typed df -> ~ NoDup (columns df) -> coerced df = inl AttributeError.
Proof.
  intros [Hcols _] Hnd. apply repeated_label in Hnd as (i & j & l & Hij & Hi & Hj).
  unfold coerced. apply coerced_fold_repeated; [apply drop_labels_elem|].
  assert (Hj3 : 3 <= j).
  { destruct (decide (3 <= j)) as [|Hlt]; [done|]. exfalso.
    assert (Hi' : take 3 (columns df) !! i = Some l) by (by rewrite lookup_take_lt by lia).
    assert (Hj' : take 3 (columns df) !! j = Some l) by (by rewrite lookup_take_lt by lia).
    rewrite Hcols in Hi', Hj'.
    destruct j as [|[|[|j]]]; [lia| | |lia];
      destruct i as [|[|i]]; simpl in *; try lia; congruence. }
  apply Exists_exists. exists l. split.
  - apply (list_elem_of_lookup_2 _ (j - 3)). rewrite lookup_drop.
    by replace (3 + (j - 3)) with j by lia.
  - exists i, j. split; [lia|done].
Qed.

(** ** The two filters *)

Lemma isna_store (d : dtype) (p : parsed) : isna (store d p) = is_missing p.
Proof. by destruct p, d. Qed.

Lemma existsb_imap_indep {A B} (f : nat -> A -> B) (p : B -> bool) (q : A -> bool)
    (l : list A) :
  (forall k x, p (f k x) = q x) ->
  existsb p (imap f l) = existsb q l.
Proof.
  revert f; induction l as [|x l IH]; intros f Hf; simpl; [done|].
  rewrite Hf. f_equal. apply IH. intros k y. apply Hf.
Qed.

Lemma negb_existsb {A} (p : A -> bool) (l : list A) :
  negb (existsb p l) = forallb (fun x => negb (p x)) l.
Proof. induction l as [|x l IH]; simpl; [done|]. by rewrite negb_orb, IH. Qed.

Lemma drop_coerced_row (df : frame string) (r : list string) :
  3 <= length r ->
  drop 3 (coerced_row df r)
  = imap (fun k s => store (locus_dtype df (3 + k)) (coerce_text s)) (drop 3 r).
Proof.
  intros Hlen. unfold coerced_row.
  rewrite drop_app_length'; [done|]. rewrite length_fmap, length_take. lia.
Qed.

Lemma filter_nan_typed (df : frame string) :
  typed df ->
  filter_nan (coerced_by_position df)
  = map (fun r => existsb (fun s => is_missing (coerce_text s)) (drop 3 r)) (data df).
Proof.
  intros Hty. unfold filter_nan. rewrite (coerced_typed df Hty), map_map.
  apply map_ext_in. intros r Hr%list_elem_of_In.
  rewrite drop_coerced_row.
  - apply existsb_imap_indep. intros k s. apply isna_store.
  - rewrite (typed_row_length df r Hty Hr). by apply typed_width.
Qed.

Lemma coerced_row_ST (df : frame string) (r : list string) :
  3 <= length r -> coerced_row df r !!! 2 = Str (r !!! 2).
Proof.
  intros Hlen. unfold coerced_row.
  rewrite lookup_total_app_l by (rewrite length_fmap, length_take; lia).
  rewrite (list_lookup_total_fmap Str (take 3 r) 2) by (rewrite length_take; lia).
  f_equal. apply list_lookup_total_correct.
  rewrite lookup_take_lt by lia. apply list_lookup_lookup_total_lt. lia.
Qed.

Lemma filter_no_ST_typed (df : frame string) :
  typed df ->
  filter_no_ST (columns df) (coerced_by_position df)
  = inr (map (fun r => String.eqb (r !!! 2) "-") (data df)).
Proof.
  intros Hty. unfold filter_no_ST, getitem. simpl.
  rewrite (typed_index_ST df Hty). simpl. f_equal.
  unfold get_col. rewrite (coerced_typed df Hty), !map_map.
  apply map_ext_in. intros r Hr%list_elem_of_In.
  rewrite coerced_row_ST; [done|].
  rewrite (typed_row_length df r Hty Hr). by apply typed_width.
Qed.

Lemma zip_with_map_map {A B C D} (f : B -> C -> D) (g : A -> B) (h : A -> C)
    (l : list A) :
  zip_with f (map g l) (map h l) = map (fun x => f (g x) (h x)) l.
Proof. induction l as [|x l IH]; simpl; [done|]. by rewrite IH. Qed.

Lemma complete_alt (r : list string) :
  complete r
  = negb (existsb (fun s => is_missing (coerce_text s)) (drop 3 r))
    && negb (String.eqb (r !!! 2) "-").
Proof. unfold complete. by rewrite negb_existsb. Qed.

(** ** Text and the number parser *)

Lemma take_drop_while {A} (p : A -> bool) (l : list A) :
  take_while p l ++ drop_while p l = l.
Proof. induction l as [|x l IH]; simpl; [done|]. destruct (p x); simpl; [by rewrite IH|done]. Qed.

Lemma Forall_take_while {A} (p : A -> bool) (l : list A) :
  Forall (fun x => p x = true) (take_while p l).
Proof.
  induction l as [|x l IH]; simpl; [constructor|].
  destruct (p x) eqn:Hx; by constructor.
Qed.

Lemma take_while_app {A} (p : A -> bool) (l1 l2 : list A) :
  Forall (fun x => p x = true) l1 -> stops p l2 -> take_while p (l1 ++ l2) = l1.
Proof.
  induction 1 as [|x l1 Hx _ IH]; intros Hl2; simpl.
  - destruct l2 as [|y l2]; simpl in *; [done|by rewrite Hl2].
  - by rewrite Hx, IH.
Qed.

Lemma drop_while_app {A} (p : A -> bool) (l1 l2 : list A) :
  Forall (fun x => p x = true) l1 -> stops p l2 -> drop_while p (l1 ++ l2) = l2.
Proof.
  induction 1 as [|x l1 Hx _ IH]; intros Hl2; simpl.
  - destruct l2 as [|y l2]; simpl in *; [done|by rewrite Hl2].
  - by rewrite Hx, IH.
Qed.

Lemma drop_while_all {A} (p : A -> bool) (l : list A) :
  Forall (fun x => p x = true) l -> drop_while p l = [].
Proof. induction 1 as [|x l Hx _ IH]; simpl; [done|]. by rewrite Hx. Qed.

Lemma drop_while_nil_all {A} (p : A -> bool) (l : list A) :
  drop_while p l = [] -> Forall (fun x => p x = true) l.
Proof.
  induction l as [|x l IH]; simpl; [constructor|].
  destruct (p x) eqn:Hx; [|done]. intros H. constructor; auto.
Qed.

Ltac ascii_eqb_cases :=
  repeat match goal with
         | |- context [Ascii.eqb ?c ?d] =>
             destruct (Ascii.eqb_spec c d) as [->|?]
         end.

Ltac code_arith :=
  unfold is_space, is_digit, is_letter in *;
  repeat match goal with
         | H : _ && _ = true |- _ => apply andb_true_iff in H as [? ?]
         | H : _ || _ = true |- _ => apply orb_true_iff in H as [?|?]
         | H : (_ <=? _)%N = true |- _ => apply N.leb_le in H
         | H : (_ =? _)%N = true |- _ => apply N.eqb_eq in H
         end;
  repeat match goal with
         | |- _ && _ = false => apply andb_false_iff
         | |- _ || _ = false => apply orb_false_iff; split
         | |- (_ =? _)%N = false => apply N.eqb_neq
         end;
  rewrite ?N.leb_gt; try lia.

Lemma space_not_digit (c : ascii) : is_space c = true -> is_digit c = false.
Proof. intros H. code_arith. Qed.
Lemma space_not_dot (c : ascii) : is_space c = true -> Ascii.eqb c "." = false.
Proof. intros H. ascii_eqb_cases; [by vm_compute in H|done]. Qed.
Lemma digit_not_space (c : ascii) : is_digit c = true -> is_space c = false.
Proof. intros H. code_arith. Qed.
Lemma digit_not_class (c : ascii) : is_digit c = true -> in_class c = false.
Proof.
  intros H. unfold in_class.
  ascii_eqb_cases; try (by vm_compute in H).
  rewrite !orb_false_r. code_arith.
Qed.
Lemma digit_not_sign (c : ascii) :
  is_digit c = true -> Ascii.eqb c "-" = false /\ Ascii.eqb c "+" = false.
Proof. intros H. ascii_eqb_cases; try (by vm_compute in H); done. Qed.
Lemma letter_in_class (c : ascii) : is_letter c = true -> in_class c = true.
Proof. unfold in_class. by intros ->. Qed.

Lemma chars_app (s1 s2 : string) : chars (s1 +:+ s2) = chars s1 ++ chars s2.
Proof. unfold chars. induction s1 as [|c s1 IH]; simpl; [done|]. by rewrite IH. Qed.

Lemma text_chars (s : string) : text (chars s) = s.
Proof. apply string_of_list_ascii_of_string. Qed.

Lemma filter_all_false {A} (p : A -> bool) (l : list A) :
  Forall (fun x => p x = false) l -> List.filter p l = [].
Proof. induction 1 as [|x l Hx _ IH]; simpl; [done|]. by rewrite Hx. Qed.
Lemma filter_all_true {A} (p : A -> bool) (l : list A) :
  Forall (fun x => p x = true) l -> List.filter p l = l.
Proof. induction 1 as [|x l Hx _ IH]; simpl; [done|]. by rewrite Hx, IH. Qed.

(** An integer numeral is read as its value. *)
Lemma parse_digits (neg : bool) (ds : list ascii) :
  ds <> [] -> Forall (fun c => is_digit c = true) ds ->
  parse_number ((if neg then ["-"%char] else []) ++ ds)
  = PInt (signed neg (digits_value ds)).
Proof.
  intros Hne Hds. unfold parse_number.
  destruct ds as [|d ds]; [done|]. clear Hne.
  assert (Hd : is_digit d = true) by (by inversion Hds).
  assert (Hsp : drop_while is_space ((if neg then ["-"%char] else []) ++ d :: ds)
                = (if neg then ["-"%char] else []) ++ d :: ds).
  { destruct neg; simpl; [done|]. by rewrite (digit_not_space d Hd). }
  rewrite Hsp.
  assert (Hsg : split_sign ((if neg then ["-"%char] else []) ++ d :: ds)
                = (neg, d :: ds)).
  { destruct neg; simpl; [done|].
    destruct (digit_not_sign d Hd) as [-> ->]. done. }
  rewrite Hsg.
  rewrite <- (app_nil_r (d :: ds)).
  rewrite take_while_app, drop_while_app by done.
  by rewrite app_nil_r.
Qed.

Lemma split_sign_spec (l : list ascii) :
  exists sign, l = sign ++ snd (split_sign l) /\
               (sign = [] \/ sign = ["-"%char] \/ sign = ["+"%char]).
Proof.
  destruct l as [|c t]; simpl; [exists []; auto|].
  destruct (Ascii.eqb_spec c "-") as [->|_]; [exists ["-"%char]; auto|].
  destruct (Ascii.eqb_spec c "+") as [->|_]; [exists ["+"%char]; auto|].
  exists []; auto.
Qed.

(** The parser accepts exactly the decimal numerals. *)
Lemma parse_number_numeral (l : list ascii) :
  parse_number l <> PNaN -> decimal_numeral l.
Proof.
  unfold parse_number. intros Hp.
  pose proof (take_drop_while is_space l) as Hl.
  destruct (split_sign_spec (drop_while is_space l)) as (sign & Hsign & Hs).
  destruct (split_sign (drop_while is_space l)) as [neg l2]. simpl in Hsign.
  pose proof (take_drop_while is_digit l2) as Hl2.
  pose proof (Forall_take_while is_digit l2) as Hds1.
  pose proof (Forall_take_while is_space l) as Hws1.
  remember (take_while is_space l) as ws1 eqn:Ews1.
  remember (take_while is_digit l2) as ds1 eqn:Eds1.
  assert (Hl' : l = ws1 ++ sign ++ ds1 ++ drop_while is_digit l2).
  { by rewrite Hl2, <- Hsign, Hl. }
  destruct (drop_while is_digit l2) as [|c t] eqn:Hl3.
  - destruct ds1 as [|d ds]; [done|].
    exists ws1, sign, (d :: ds), [], [].
    repeat split; auto.
  - destruct (Ascii.eqb_spec c ".") as [->|Hc].
    + pose proof (take_drop_while is_digit t) as Ht.
      pose proof (Forall_take_while is_digit t) as Hds2.
      remember (take_while is_digit t) as ds2 eqn:Eds2.
      destruct (ds1 ++ ds2) as [|x xs] eqn:Hx; [done|].
      destruct (drop_while is_space (drop_while is_digit t)) as [|y ys] eqn:Hy;
        [|done].
      apply drop_while_nil_all in Hy.
      exists ws1, sign, ds1, ("."%char :: ds2), (drop_while is_digit t).
      repeat split; auto.
      * simpl. by rewrite Ht.
      * right. exists ds2. repeat split; auto. by rewrite Hx.
    + destruct ds1 as [|d ds]; [done|].
      destruct (drop_while is_space (c :: t)) as [|y ys] eqn:Hy; [|done].
      apply drop_while_nil_all in Hy.
      exists ws1, sign, (d :: ds), [], (c :: t).
      repeat split; auto.
Qed.

Lemma numeral_parse_number (l : list ascii) :
  decimal_numeral l -> parse_number l <> PNaN.
Proof.
  intros (ws1 & sign & ds1 & frac & ws2 & -> & Hws1 & Hsign & Hds1 & Hfrac & Hws2).
  unfold parse_number.
  (* what follows the digits does not start with a digit *)
  assert (Hstop : stops is_digit (frac ++ ws2)).
  { destruct Hfrac as [[-> _]|(ds2 & -> & _)]; simpl; [|done].
    destruct Hws2 as [|c ws2 Hc _]; simpl; [done|]. by apply space_not_digit. }
  (* the body starts with a digit or the point *)
  assert (Hbody : match ds1 ++ frac ++ ws2 with
                  | c :: _ => is_space c = false /\ Ascii.eqb c "-" = false
                              /\ Ascii.eqb c "+" = false
                  | [] => False
                  end).
  { destruct Hds1 as [|d ds1 Hd _]; simpl.
    - destruct Hfrac as [[_ ?]|(ds2 & -> & _)]; [done|]. simpl. done.
    - split; [by apply digit_not_space|by apply digit_not_sign]. }
  assert (Hsp : drop_while is_space (ws1 ++ sign ++ ds1 ++ frac ++ ws2)
                = sign ++ ds1 ++ frac ++ ws2).
  { apply drop_while_app; [done|].
    destruct Hsign as [->|[->| ->]]; simpl; try done.
    destruct (ds1 ++ frac ++ ws2); [done|]. apply Hbody. }
  rewrite Hsp.
  assert (Hsg : exists neg, split_sign (sign ++ ds1 ++ frac ++ ws2)
                            = (neg, ds1 ++ frac ++ ws2)).
  { destruct Hsign as [->|[->| ->]]; [|simpl; eauto..].
    simpl. destruct (ds1 ++ frac ++ ws2) as [|c body]; [done|].
    destruct Hbody as (_ & H1 & H2). simpl. rewrite H1, H2. eauto. }
  destruct Hsg as [neg ->].
  rewrite take_while_app, drop_while_app by done.
  destruct Hfrac as [[-> Hne]|(ds2 & -> & Hds2 & Hne)].
  - rewrite app_nil_l. destruct ds1 as [|d ds1]; [done|].
    destruct ws2 as [|c ws2]; [done|].
    rewrite space_not_dot by (by inversion Hws2).
    rewrite (drop_while_all is_space (c :: ws2)) by done. done.
  - assert (Hstop2 : stops is_digit ws2).
    { destruct Hws2 as [|c ws2 Hc _]; simpl; [done|]. by apply space_not_digit. }
    cbn [app]. rewrite Ascii.eqb_refl.
    rewrite take_while_app, drop_while_app by done.
    rewrite drop_while_all by done.
    destruct (ds1 ++ ds2); done.
Qed.

(** ** The designations of mlst *)

Lemma digits_value_app (l1 l2 : list ascii) :
  digits_value (l1 ++ l2)
  = (digits_value l1 * 10 ^ Z.of_nat (length l2) + digits_value l2)%Z.
Proof.
  unfold digits_value.
  assert (H : forall l acc,
             fold_left (fun acc c => 10 * acc + digit_value c)%Z l acc
             = (acc * 10 ^ Z.of_nat (length l)
                + fold_left (fun acc c => 10 * acc + digit_value c)%Z l 0)%Z).
  { induction l as [|c l IH]; intros acc; simpl length.
    - simpl. lia.
    - cbn [fold_left]. rewrite (IH (10 * acc + digit_value c)%Z),
        (IH (10 * 0 + digit_value c)%Z).
      rewrite Nat2Z.inj_succ, Z.pow_succ_r by lia. lia. }
  rewrite fold_left_app. apply H.
Qed.

Lemma pretty_N_char_digit (d : N) :
  (d < 10)%N ->
  is_digit (pretty_N_char d) = true /\ digit_value (pretty_N_char d) = Z.of_N d.
Proof.
  intros Hd.
  assert (d = 0 \/ d = 1 \/ d = 2 \/ d = 3 \/ d = 4 \/ d = 5 \/ d = 6 \/ d = 7
          \/ d = 8 \/ d = 9)%N as Hcases by lia.
  repeat (destruct Hcases as [->|Hcases]); try subst d; by vm_compute.
Qed.

Lemma pretty_N_go_digits (n : N) (s : string) :
  Forall (fun c => is_digit c = true) (chars s) ->
  Forall (fun c => is_digit c = true) (chars (pretty_N_go n s)) /\
  digits_value (chars (pretty_N_go n s))
  = (Z.of_N n * 10 ^ Z.of_nat (length (chars s)) + digits_value (chars s))%Z.
Proof.
  revert s. induction (N.lt_wf_0 n) as [n _ IH]. intros s Hs.
  destruct (decide (n = 0%N)) as [->|Hn].
  - rewrite pretty_N_go_0. split; [done|]. lia.
  - rewrite pretty_N_go_step by lia.
    destruct (pretty_N_char_digit (n `mod` 10)%N) as [Hd Hv].
    { by apply N.mod_lt. }
    destruct (IH (n `div` 10)%N) with (s := String (pretty_N_char (n `mod` 10)) s)
      as [Hall Hval].
    { apply N.div_lt; lia. }
    { simpl. by constructor. }
    split; [done|]. rewrite Hval. simpl chars. simpl length.
    change (pretty_N_char (n `mod` 10) :: chars s)
      with ([pretty_N_char (n `mod` 10)] ++ chars s).
    rewrite digits_value_app.
    replace (digits_value [pretty_N_char (n `mod` 10)])
      with (Z.of_N (n `mod` 10)) by (unfold digits_value; simpl; lia).
    rewrite Nat2Z.inj_succ, Z.pow_succ_r by lia.
    rewrite (N.div_mod n 10) at 3 by done.
    rewrite N2Z.inj_add, N2Z.inj_mul. simpl Z.of_N. lia.
Qed.

Lemma pretty_N_digits (n : N) :
  chars (pretty n) <> [] /\
  Forall (fun c => is_digit c = true) (chars (pretty n)) /\
  digits_value (chars (pretty n)) = Z.of_N n.
Proof.
  unfold pretty, pretty_N. case_decide as Hn.
  - subst n. split; [done|]. split; [by repeat constructor|done].
  - destruct (pretty_N_go_digits n EmptyString) as [Hall Hval]; [constructor|].
    simpl in Hval. rewrite Z.mul_1_r, Z.add_0_r in Hval.
    split; [|done]. intros Hnil. rewrite Hnil in Hval.
    unfold digits_value in Hval. simpl in Hval. lia.
Qed.

Lemma str_replace_designation (gene : string) (allele : N) :
  Forall (fun c => is_letter c = true) (chars gene) ->
  str_replace (designation gene allele) = pretty allele.
Proof.
  intros Hgene. unfold str_replace, designation.
  rewrite !chars_app, !List.filter_app.
  destruct (pretty_N_digits allele) as (_ & Hds & _).
  rewrite (filter_all_false _ (chars gene)).
  2:{ eapply Forall_impl; [exact Hgene|]. simpl. intros c Hc.
      by rewrite (letter_in_class c Hc). }
  rewrite (filter_all_true _ (chars (pretty allele))).
  2:{ eapply Forall_impl; [exact Hds|]. simpl. intros c Hc.
      by rewrite (digit_not_class c Hc). }
  simpl. rewrite app_nil_r. apply text_chars.
Qed.

(** A designation is coerced to its allele number. *)
Lemma coerce_designation (gene : string) (allele : N) :
  Forall (fun c => is_letter c = true) (chars gene) ->
  coerce_text (designation gene allele) = PInt (Z.of_N allele).
Proof.
  intros Hgene. unfold coerce_text, to_numeric_scalar.
  rewrite (str_replace_designation gene allele Hgene).
  destruct (pretty_N_digits allele) as (Hne & Hds & Hval).
  rewrite <- Hval. apply (parse_digits false); done.
Qed.

(** ** astype *)

Lemma numeric_store (d : dtype) (p : parsed) :
  is_missing p = false -> numeric (store d p).
Proof. by destruct p, d. Qed.

Lemma set_col_map {A} `{Inhabited A} (j : nat) (g : A -> A) (rows : list (list A)) :
  set_col j (map g (get_col j rows)) rows
  = map (fun r => <[j := g (r !!! j)]> r) rows.
Proof.
  unfold set_col, get_col. rewrite map_map.
  change (map ?f ?l) with (f <$> l).
  by rewrite zip_with_fmap_r, zip_with_diag.
Qed.

Lemma traverse_inr {A B} (f : A -> exn + B) (l : list A) (l' : list B) :
  traverse f l = inr l' -> Forall2 (fun x y => f x = inr y) l l'.
Proof.
  revert l'; induction l as [|x l IH]; intros l'; simpl.
  - intros [= <-]. constructor.
  - destruct (f x) as [e|y] eqn:Hx; simpl; [done|].
    destruct (traverse f l) as [e|ys]; simpl; [done|].
    intros [= <-]. constructor; [done|]. by apply IH.
Qed.

Lemma traverse_map {A B} (f : A -> exn + B) (g : A -> B) (l : list A) :
  Forall (fun x => f x = inr (g x)) l -> traverse f l = inr (map g l).
Proof.
  induction 1 as [|x l Hx _ IH]; simpl; [done|]. by rewrite Hx, IH.
Qed.

Section alleles_properties.

Variable int_of_str : string -> option Z.

Lemma astype_int32_numeric (c : cell) :
  numeric c -> astype_int32 int_of_str c = inr (int32_of c).
Proof. by destruct c. Qed.

Lemma astype_raised (b : bool) (js : list nat) (e : exn) :
  fold_left (fun acc j => ebind acc (astype_col int_of_str b j)) js (inl e) = inl e.
Proof. induction js as [|j js IH]; simpl; [done|]. apply IH. Qed.

Lemma astype_cons (b : bool) (j : nat) (js : list nat) (rows : list (list cell)) :
  astype int_of_str b (j :: js) rows
  = ebind (astype_col int_of_str b j rows) (astype int_of_str b js).
Proof.
  unfold astype. simpl.
  destruct (astype_col int_of_str b j rows) as [e|rows']; simpl; [|done].
  apply astype_raised.
Qed.

(** Casting columns of numbers never fails and casts cell by cell. *)
Lemma astype_numeric (js : list nat) (rows : list (list cell)) :
  NoDup js ->
  Forall (fun r => forall j, j ∈ js -> numeric (r !!! j)) rows ->
  astype int_of_str false js rows
  = inr (map (imap (fun k c => if bool_decide (k ∈ js) then int32_of c else c)) rows).
Proof.
  revert rows; induction js as [|j js IH]; intros rows Hnd Hnum.
  - unfold astype. simpl. f_equal. symmetry.
    erewrite map_ext; [apply map_id|].
    intros r. simpl. apply list_eq. intros i. rewrite list_lookup_imap.
    by destruct (r !! i).
  - apply NoDup_cons in Hnd as [Hj Hnd].
    rewrite astype_cons. unfold astype_col.
    rewrite (traverse_map _ int32_of).
    2:{ unfold get_col. apply Forall_map.
        eapply Forall_impl; [exact Hnum|]. simpl. intros r Hr.
        apply astype_int32_numeric, Hr, elem_of_cons. by left. }
    rewrite set_col_map. simpl. rewrite (IH _ Hnd).
    2:{ apply Forall_map. eapply Forall_impl; [exact Hnum|]. simpl.
        intros r Hr k Hk.
        rewrite list_lookup_total_insert_ne by (by intros ->).
        apply Hr, elem_of_cons. by right. }
    f_equal. rewrite map_map. apply map_ext. intros r.
    apply list_eq. intros i. rewrite !list_lookup_imap.
    destruct (decide (i = j)) as [->|Hij].
    + rewrite bool_decide_eq_false_2 by done.
      rewrite bool_decide_eq_true_2 by (apply elem_of_cons; by left).
      destruct (r !! j) as [c|] eqn:Hc.
      * rewrite list_lookup_insert_eq by (by eapply lookup_lt_Some). simpl.
        by rewrite (list_lookup_total_correct _ _ _ Hc).
      * rewrite list_insert_ge by (by apply lookup_ge_None). by rewrite Hc.
    + rewrite list_lookup_insert_ne by done.
      destruct (r !! i) as [c|]; simpl; [|done].
      destruct (decide (i ∈ js)) as [Hi|Hi].
      * rewrite !bool_decide_eq_true_2; [done|apply elem_of_cons; by right|done].
      * rewrite !bool_decide_eq_false_2; [done| |done].
        intros [?|?]%elem_of_cons; done.
Qed.

(** With [errors='ignore'] the cast never fails, keeps the rows in place
    and changes a cell only by casting it. *)
Lemma astype_int32_idem (c c' : cell) :
  astype_int32 int_of_str c = inr c' -> astype_int32 int_of_str c' = inr c'.
Proof.
  destruct c as [s|z|q| |z|q]; simpl; try (by intros [= <-]).
  - destruct (int_of_str s); [by intros [= <-]|done].
  - intros [= <-]. unfold double_to_int32. by case_match.
Qed.

Lemma cast_or_same_trans (c1 c2 c3 : cell) :
  (cast_or_same int_of_str) c1 c2 -> (cast_or_same int_of_str) c2 c3 -> (cast_or_same int_of_str) c1 c3.
Proof.
  intros [->|H12] [->|H23]; [by left|by right|by right|].
  right. rewrite (astype_int32_idem _ _ H12) in H23. by injection H23 as <-.
Qed.

Lemma recast_refl (js : list nat) (r : list cell) : recast int_of_str js r r.
Proof. split; [|done]. apply Forall2_same_length_lookup_2; [done|].
  intros i c c' Hc Hc'. left. congruence. Qed.

Lemma recast_insert (j : nat) (r : list cell) (v : cell) :
  astype_int32 int_of_str (r !!! j) = inr v -> recast int_of_str [j] r (<[j := v]> r).
Proof.
  intros Hv. split.
  - apply Forall2_same_length_lookup_2; [by rewrite length_insert|].
    intros i c c' Hc Hc'. destruct (decide (i = j)) as [->|Hij].
    + rewrite list_lookup_insert_eq in Hc' by (by eapply lookup_lt_Some).
      injection Hc' as <-. right.
      by rewrite <- (list_lookup_total_correct _ _ _ Hc).
    + rewrite list_lookup_insert_ne in Hc' by done. left. congruence.
  - intros k Hk. rewrite list_lookup_insert_ne; [done|].
    intros ->. apply Hk, list_elem_of_singleton. done.
Qed.

Lemma recast_trans (j : nat) (js : list nat) (r1 r2 r3 : list cell) :
  recast int_of_str [j] r1 r2 -> recast int_of_str js r2 r3 -> recast int_of_str (j :: js) r1 r3.
Proof.
  intros [H12 K12] [H23 K23]. split.
  - apply Forall2_same_length_lookup_2.
    { by rewrite (Forall2_length _ _ _ H12), (Forall2_length _ _ _ H23). }
    intros i c1 c3 Hc1 Hc3.
    destruct (Forall2_lookup_l _ _ _ _ _ H12 Hc1) as (c2 & Hc2 & Hc12).
    destruct (Forall2_lookup_l _ _ _ _ _ H23 Hc2) as (c3' & Hc3' & Hc23).
    rewrite Hc3 in Hc3'. injection Hc3' as <-.
    by eapply cast_or_same_trans.
  - intros k Hk. rewrite K23, K12; [done| |].
    + intros ?%list_elem_of_singleton. apply Hk, elem_of_cons. by left.
    + intros ?. apply Hk, elem_of_cons. by right.
Qed.

Lemma astype_col_ignore (j : nat) (rows : list (list cell)) :
  exists rows', astype_col int_of_str true j rows = inr rows'
                /\ Forall2 (recast int_of_str [j]) rows rows'.
Proof.
  unfold astype_col.
  destruct (traverse (astype_int32 int_of_str) (get_col j rows)) as [e|col] eqn:Hcol.
  - exists rows. split; [done|]. apply Forall_Forall2_diag, Forall_forall.
    intros r _. apply recast_refl.
  - exists (set_col j col rows). split; [done|].
    apply traverse_inr in Hcol. unfold get_col, set_col in *.
    revert col Hcol. induction rows as [|r rows IH]; intros col Hcol.
    + inversion Hcol; subst. constructor.
    + inversion Hcol as [|? v ? col' Hv Hcol']; subst. simpl.
      constructor; [by apply recast_insert | by apply IH].
Qed.

Lemma astype_ignore (js : list nat) (rows : list (list cell)) :
  exists rows', astype int_of_str true js rows = inr rows'
                /\ Forall2 (recast int_of_str js) rows rows'.
Proof.
  revert rows; induction js as [|j js IH]; intros rows.
  - exists rows. split; [done|]. apply Forall_Forall2_diag, Forall_forall.
    intros r _. apply recast_refl.
  - rewrite astype_cons.
    destruct (astype_col_ignore j rows) as (rows1 & -> & H1). simpl.
    destruct (IH rows1) as (rows' & -> & H2).
    exists rows'. split; [done|].
    apply Forall2_same_length_lookup_2.
    { by rewrite (Forall2_length _ _ _ H1), (Forall2_length _ _ _ H2). }
    intros i r r' Hr Hr'.
    destruct (Forall2_lookup_l _ _ _ _ _ H1 Hr) as (r1 & Hr1 & Hrr1).
    destruct (Forall2_lookup_l _ _ _ _ _ H2 Hr1) as (r'' & Hr'' & Hrr'').
    rewrite Hr' in Hr''. injection Hr'' as <-.
    by eapply recast_trans.
Qed.


(** ** clean_dataframe_alleles in closed form *)

Lemma elem_of_loci {A} (df : frame A) (j : nat) :
  j ∈ loci df <-> 3 <= j < length (columns df).
Proof. unfold loci. rewrite elem_of_seq. lia. Qed.

Lemma cast_coerced_row (df : frame string) (r : list string) :
  length r = length (columns df) ->
  imap (fun k c => if bool_decide (k ∈ loci df) then int32_of c else c)
       (coerced_row df r) = clean_row df r.
Proof.
  intros Hlen. unfold coerced_row, clean_row. rewrite imap_app. f_equal.
  - rewrite imap_fmap. rewrite <- (imap_const Str).
    apply imap_ext. intros k s Hk. simpl.
    apply lookup_lt_Some in Hk. rewrite length_take in Hk.
    rewrite bool_decide_eq_false_2; [done|]. rewrite elem_of_loci. lia.
  - rewrite length_fmap, length_take.
    destruct (decide (3 <= length r)) as [H3|H3].
    + replace (3 `min` length r) with 3 by lia.
      apply list_eq. intros i. rewrite !list_lookup_imap.
      destruct (drop 3 r !! i) as [s|] eqn:Hs; simpl; [|done].
      apply lookup_lt_Some in Hs. rewrite length_drop in Hs.
      rewrite bool_decide_eq_true_2; [done|]. rewrite elem_of_loci. lia.
    + rewrite drop_ge by lia. done.
Qed.

Lemma complete_numeric (df : frame string) (r : list string) (j : nat) :
  length r = length (columns df) -> complete r = true -> j ∈ loci df ->
  numeric (coerced_row df r !!! j).
Proof.
  intros Hlen Hc Hj. apply elem_of_loci in Hj.
  unfold coerced_row.
  rewrite lookup_total_app_r by (rewrite length_fmap, length_take; lia).
  rewrite length_fmap, length_take.
  replace (3 `min` length r) with 3 by lia.
  assert (j - 3 < length (drop 3 r)) as Hlt by (rewrite length_drop; lia).
  destruct (lookup_lt_is_Some_2 _ _ Hlt) as [s Hs].
  erewrite list_lookup_total_correct; [|by rewrite list_lookup_imap, Hs].
  apply numeric_store.
  unfold complete in Hc. apply andb_true_iff in Hc as [Hc _].
  rewrite forallb_forall in Hc.
  apply negb_true_iff, Hc, list_elem_of_In. by eapply list_elem_of_lookup_2.
Qed.

Lemma recast_text (df : frame string) (r : list string) (f : list cell) :
  recast int_of_str (loci df) (Str <$> r) f -> recast_of int_of_str r f.
Proof.
  intros [Hcells Hfix]. split.
  - rewrite Forall2_fmap_l in Hcells.
    eapply Forall2_impl; [exact Hcells|]. simpl.
    intros s c [->|Hcast]; [by left|]. right. simpl in Hcast.
    destruct (int_of_str s) as [z|]; [|done].
    exists z. split; [done|]. by injection Hcast as <-.
  - rewrite (fmap_take Str). apply list_eq. intros k.
    destruct (decide (k < 3)) as [Hk|Hk].
    + rewrite !lookup_take_lt by done. apply Hfix.
      rewrite elem_of_loci. lia.
    + rewrite !lookup_take_ge by lia. done.
Qed.

Lemma selected_rows {A} `{Inhabited A} (p : A -> bool) (l : list A) :
  select (map p l) l = (fun i => l !!! i) <$> positions (map p l).
Proof. apply select_positions. by rewrite length_map. Qed.

Lemma alleles_closed_form (df : frame string) :
  typed df -> NoDup (columns df) ->
  exists failed,
    clean_dataframe_alleles int_of_str df
    = inr (Frame (columns df)
                 ((fun i => clean_row df (data df !!! i)) <$> clean_positions df),
           Frame (columns df) failed)
    /\ Forall2 (fun i f => recast_of int_of_str (data df !!! i) f)
               (failed_positions df) failed.
Proof.
  intros Hty Hnd. unfold clean_dataframe_alleles.
  rewrite (coerced_distinct df Hnd). cbn [ebind].
  rewrite (filter_no_ST_typed df Hty), (filter_nan_typed df Hty). simpl.
  rewrite !map_map, !zip_with_map_map.
  rewrite (map_ext _ complete) by (intros r; by rewrite complete_alt).
  rewrite (map_ext (fun r => _ || _) (fun r => negb (complete r))).
  2:{ intros r. rewrite complete_alt, negb_andb, !negb_involutive. done. }
  rewrite (coerced_typed df Hty), !select_map, !selected_rows.
  fold (clean_positions df). fold (failed_positions df).
  rewrite astype_numeric; [|apply NoDup_seq|].
  2:{ apply Forall_map, Forall_fmap, Forall_forall. intros i Hi j Hj. simpl.
      apply elem_of_positions in Hi. rewrite list_lookup_fmap in Hi.
      destruct (data df !! i) as [r|] eqn:Hr; [|done]. injection Hi as Hi.
      rewrite (list_lookup_total_correct _ _ _ Hr).
      apply complete_numeric; [|done|done].
      eapply typed_row_length; [done|]. by eapply list_elem_of_lookup_2. }
  simpl.
  destruct (astype_ignore (loci df)
              (map (map Str) ((fun i => data df !!! i) <$> failed_positions df)))
    as (failed & -> & Hfailed).
  simpl. exists failed. split.
  - do 3 f_equal. change (map ?f ?l) with (f <$> l).
    rewrite <- !list_fmap_compose.
    apply Forall_fmap_ext_1, Forall_forall. intros i Hi. simpl.
    apply cast_coerced_row.
    apply elem_of_positions in Hi. rewrite list_lookup_fmap in Hi.
    destruct (data df !! i) as [r|] eqn:Hr; [|done].
    rewrite (list_lookup_total_correct _ _ _ Hr).
    eapply typed_row_length; [done|]. by eapply list_elem_of_lookup_2.
  - change (map ?f ?l) with (f <$> l) in Hfailed.
    rewrite <- list_fmap_compose, Forall2_fmap_l in Hfailed.
    eapply Forall2_impl; [exact Hfailed|]. simpl.
    intros i f Hf. by apply (recast_text df).
Qed.

Lemma placed_typed (df : frame string) :
  typed df -> NoDup (columns df) ->
  placed int_of_str df (clean_positions df) (failed_positions df).
Proof.
  intros Hty Hnd.
  destruct (alleles_closed_form df Hty Hnd) as (failed & Hrun & Hfailed).
  eexists _, _. split; [exact Hrun|]. simpl. done.
Qed.

(** On a repeated label the stage raises, and so returns only for distinct
    labels. *)

Lemma alleles_returned_distinct (df : frame string) (clean failed : frame cell) :
  typed df -> clean_dataframe_alleles int_of_str df = inr (clean, failed) ->
  NoDup (columns df).
Proof.
  intros Hty Hrun. destruct (decide (NoDup (columns df))) as [|Hnd]; [done|].
  unfold clean_dataframe_alleles in Hrun.
  by rewrite (coerced_repeated df Hty Hnd) in Hrun.
Qed.

Lemma complete_spec (r : list string) :
  complete r = true <->
  Forall (fun s => coerce_text s <> PNaN) (drop 3 r) /\ r !!! 2 <> "-".
Proof.
  unfold complete. rewrite andb_true_iff, forallb_forall, Forall_forall,
    negb_true_iff, String.eqb_neq.
  split; intros [Hloci HST]; (split; [|done]); intros s Hs.
  - apply list_elem_of_In, Hloci, negb_true_iff in Hs.
    intros Hnan. by rewrite Hnan in Hs.
  - apply list_elem_of_In, Hloci in Hs. apply negb_true_iff.
    by destruct (coerce_text s).
Qed.

Lemma elem_of_clean_positions (df : frame string) (i : nat) (r : list string) :
  data df !! i = Some r -> i ∈ clean_positions df <-> complete r = true.
Proof.
  intros Hr. unfold clean_positions.
  rewrite elem_of_positions, list_lookup_fmap, Hr. simpl.
  split; [by intros [= ->]|by intros ->].
Qed.

Lemma elem_of_failed_positions (df : frame string) (i : nat) (r : list string) :
  data df !! i = Some r -> i ∈ failed_positions df <-> complete r = false.
Proof.
  intros Hr. unfold failed_positions.
  rewrite elem_of_positions, list_lookup_fmap, Hr. simpl.
  split; [intros [= H]; by apply negb_true_iff in H|by intros ->].
Qed.

Lemma positions_lt (mask : list bool) (i : nat) :
  i ∈ positions mask -> i < length mask.
Proof. rewrite elem_of_positions. apply lookup_lt_Some. Qed.

(** C1: for every table with distinct column labels that the
    allele-validation stage receives, the stage returns and its two outputs
    partition the rows: each row position of the scheme-matched table is
    placed in exactly one of clean and failed, once, and no other row
    appears in either. *)
Theorem clean_failed_partition (df : frame string) :
  typed df -> NoDup (columns df) ->
  placed int_of_str df (clean_positions df) (failed_positions df) /\
  NoDup (clean_positions df) /\ NoDup (failed_positions df) /\
  (forall i, i ∈ clean_positions df \/ i ∈ failed_positions df ->
             i < length (data df)) /\
  (forall i, i < length (data df) ->
             (i ∈ clean_positions df /\ (i ∉ failed_positions df)) \/
             ((i ∉ clean_positions df) /\ i ∈ failed_positions df)).
Proof.
  intros Hty Hnd. split; [by apply placed_typed|].
  split; [apply NoDup_positions|]. split; [apply NoDup_positions|]. split.
  - intros i [Hi|Hi]; apply positions_lt in Hi; by rewrite length_map in Hi.
  - intros i Hi. by apply positions_split.
Qed.

Lemma coerce_text_missing (t : string) :
  coerce_text t = PNaN <-> ~ decimal_numeral (chars (str_replace t)).
Proof.
  unfold coerce_text, to_numeric_scalar. split.
  - intros Hnan Hnum. by apply numeral_parse_number in Hnum.
  - intros Hnum. destruct (parse_number _) eqn:Hp; [| |done];
      exfalso; apply Hnum, parse_number_numeral; by rewrite Hp.
Qed.

Lemma coerce_text_integer (s : string) (z : Z) :
  integer_numeral (chars (str_replace s)) z -> coerce_text s = PInt z.
Proof.
  intros (neg & ds & Hl & Hne & Hds & ->).
  unfold coerce_text, to_numeric_scalar. rewrite Hl. by apply parse_digits.
Qed.

(** C2: in a table with distinct column labels a row is placed in clean if
    and only if no locus cell is coerced to the missing marker and its ST
    is not the sentinel; a row whose locus
    cells, stripped, are all integer numerals and whose ST is not the
    sentinel is placed in clean; and replacing one locus cell of a row by a
    token that, stripped, is no decimal numeral places that row in failed
    and not in clean. *)
Theorem clean_iff_complete (df : frame string) (i : nat) (r : list string) :
  typed df -> NoDup (columns df) -> data df !! i = Some r ->
  placed int_of_str df (clean_positions df) (failed_positions df) /\
  (i ∈ clean_positions df <->
     Forall (fun s => coerce_text s <> PNaN) (drop 3 r) /\ r !!! 2 <> "-") /\
  (Forall (fun s => exists z, integer_numeral (chars (str_replace s)) z)
          (drop 3 r) ->
     r !!! 2 <> "-" -> i ∈ clean_positions df) /\
  (forall k t, 3 <= k < length r ->
     ~ decimal_numeral (chars (str_replace t)) ->
     let df' := with_cell df i k t in
     typed df' /\
     placed int_of_str df' (clean_positions df') (failed_positions df') /\
     i ∈ failed_positions df' /\ (i ∉ clean_positions df')).
Proof.
  intros Hty Hnd Hr. split; [by apply placed_typed|].
  assert (Hiff : i ∈ clean_positions df <->
     Forall (fun s => coerce_text s <> PNaN) (drop 3 r) /\ r !!! 2 <> "-").
  { by rewrite (elem_of_clean_positions df i r Hr), complete_spec. }
  split; [exact Hiff|]. split.
  - intros Hint HST. apply Hiff. split; [|done].
    eapply Forall_impl; [exact Hint|]. simpl. intros s [z Hz].
    by rewrite (coerce_text_integer s z Hz).
  - intros k t Hk Ht%coerce_text_missing df'.
    assert (Hr' : data df' !! i = Some (<[k := t]> r)).
    { unfold df', with_cell. simpl.
      rewrite (list_lookup_total_correct _ _ _ Hr).
      apply list_lookup_insert_eq. by eapply lookup_lt_Some. }
    assert (Hty' : typed df').
    { destruct Hty as [Hcols Hrows]. split; [done|].
      unfold df', with_cell. simpl.
      rewrite (list_lookup_total_correct _ _ _ Hr).
      apply Forall_insert; [done|]. rewrite length_insert.
      apply (proj1 (Forall_forall _ _) Hrows). by eapply list_elem_of_lookup_2. }
    assert (Hinc : complete (<[k := t]> r) = false).
    { apply not_true_is_false. rewrite complete_spec. intros [Hloci _].
      rewrite Forall_forall in Hloci. apply (Hloci t); [|done].
      apply (list_elem_of_lookup_2 _ (k - 3)).
      rewrite lookup_drop. replace (3 + (k - 3)) with k by lia.
      apply list_lookup_insert_eq. lia. }
    split; [done|]. split; [by apply placed_typed|]. split.
    + by apply (elem_of_failed_positions df' i _ Hr').
    + rewrite (elem_of_clean_positions df' i _ Hr'). by rewrite Hinc.
Qed.

Lemma coerced_lookup (df : frame string) (i j : nat) (r : list string) (s : string) :
  typed df -> data df !! i = Some r -> 3 <= j -> r !! j = Some s ->
  exists r', coerced_by_position df !! i = Some r' /\
             r' !! j = Some (store (locus_dtype df j) (coerce_text s)).
Proof.
  intros Hty Hr Hj Hs. exists (coerced_row df r). split.
  - rewrite (coerced_typed df Hty).
    change (map ?f ?l) with (f <$> l). by rewrite list_lookup_fmap, Hr.
  - pose proof (lookup_lt_Some _ _ _ Hs) as Hlt. unfold coerced_row.
    rewrite lookup_app_r by (rewrite length_fmap, length_take; lia).
    rewrite length_fmap, length_take.
    replace (3 `min` length r) with 3 by lia.
    rewrite list_lookup_imap, lookup_drop.
    replace (3 + (j - 3)) with j by lia. by rewrite Hs.
Qed.

Lemma store_nan (d : dtype) (p : parsed) : store d p = NaN <-> p = PNaN.
Proof. destruct p, d; simpl; split; done. Qed.

(** C3, as amended: for a table with distinct column labels the loop over
    the locus columns raises nothing, and the coerced copy holds, in every
    locus cell, the number read from the text without its letters and
    parentheses, where a number is a decimal numeral (digits with an
    optional sign and at most one decimal point): an integer numeral gives
    that integer, a cell whose stripped text is no decimal numeral becomes
    the missing marker, and only such a cell does. *)
Theorem coerced_cell_value (df : frame string) (i j : nat) (r : list string)
    (s : string) :
  typed df -> NoDup (columns df) ->
  data df !! i = Some r -> 3 <= j -> r !! j = Some s ->
  exists rows r' c,
    coerced df = inr rows /\ rows !! i = Some r' /\ r' !! j = Some c /\
    match to_numeric_scalar (str_replace s) with
    | PInt z => c = Int64 z \/ c = Float64 (inject_Z z)
    | PFloat q => c = Float64 q
    | PNaN => c = NaN
    end /\
    (c = NaN <-> ~ decimal_numeral (chars (str_replace s))) /\
    (forall z, integer_numeral (chars (str_replace s)) z ->
               c = Int64 z \/ c = Float64 (inject_Z z)).
Proof.
  intros Hty Hnd Hr Hj Hs.
  destruct (coerced_lookup df i j r s Hty Hr Hj Hs) as (r' & Hr' & Hc).
  exists (coerced_by_position df), r', (store (locus_dtype df j) (coerce_text s)).
  split; [by apply coerced_distinct|]. split; [done|]. split; [done|].
  unfold coerce_text, to_numeric_scalar in *.
  set (l := chars (str_replace s)). split; [|split].
  - destruct (parse_number l); simpl; [|done..].
    destruct (locus_dtype df j); auto.
  - rewrite store_nan. split.
    + intros Hnan Hnum. by apply numeral_parse_number in Hnum.
    + intros Hnum. destruct (parse_number l) eqn:Hp; [| |done];
        exfalso; apply Hnum, parse_number_numeral; by rewrite Hp.
  - intros z (neg & ds & Hl & Hne & Hds & ->).
    rewrite Hl, (parse_digits neg ds Hne Hds). simpl.
    destruct (locus_dtype df j); auto.
Qed.

Lemma wrap32_small (z : Z) : in_int32 z = true -> wrap32 z = z.
Proof.
  unfold in_int32, wrap32. rewrite andb_true_iff, !Z.leb_le. intros [? ?].
  rewrite Z.mod_small; lia.
Qed.

Lemma double_to_int32_small (z : Z) :
  in_int32 z = true -> double_to_int32 (inject_Z z) = Int32 z.
Proof.
  intros Hz. unfold double_to_int32.
  rewrite Qcanon.Qred_identity by (simpl; apply Z.gcd_1_r).
  simpl. by rewrite Hz.
Qed.

Lemma int32_of_store_small (d : dtype) (z : Z) :
  in_int32 z = true -> int32_of (store d (PInt z)) = Int32 z.
Proof.
  intros Hz. destruct d; simpl;
    by rewrite ?wrap32_small, ?double_to_int32_small.
Qed.

(** X20: in a table with distinct column labels, a row whose ST is not the
    sentinel and whose locus designations all have the form gene(alleleId),
    the gene made of ASCII letters and the alleleId a decimal integer of at
    most 2^31-1, is placed in clean, and its locus values there are exactly
    the alleleIds. *)
Theorem clean_alleles_exact (df : frame string) (i : nat) (r : list string)
    (alleles : list (string * N)) :
  typed df -> NoDup (columns df) -> data df !! i = Some r ->
  drop 3 r = (fun a => designation a.1 a.2) <$> alleles ->
  Forall (fun a => Forall (fun c => is_letter c = true) (chars a.1) /\
                   (a.2 <= 2147483647)%N) alleles ->
  r !!! 2 <> "-" ->
  placed int_of_str df (clean_positions df) (failed_positions df) /\
  i ∈ clean_positions df /\
  clean_row df r
  = (Str <$> take 3 r) ++ ((fun a => Int32 (Z.of_N a.2)) <$> alleles).
Proof.
  intros Hty Hnd Hr Hloci Hok HST. split; [by apply placed_typed|]. split.
  - apply (elem_of_clean_positions df i r Hr), complete_spec. split; [|done].
    rewrite Hloci, Forall_fmap.
    eapply Forall_impl; [exact Hok|]. simpl. intros [g n] [Hg _]. simpl.
    by rewrite (coerce_designation g n Hg).
  - unfold clean_row. f_equal. rewrite Hloci, imap_fmap.
    rewrite <- (imap_const (fun a => Int32 (Z.of_N a.2))).
    apply imap_ext. intros k [g n] Ha. simpl.
    rewrite Forall_forall in Hok.
    destruct (Hok (g, n)) as [Hg Hn]; [by eapply list_elem_of_lookup_2|].
    simpl in *. rewrite (coerce_designation g n Hg).
    apply int32_of_store_small. unfold in_int32.
    apply andb_true_iff. rewrite !Z.leb_le. lia.
Qed.

End alleles_properties.

(** ** clean_dataframe_scheme *)

Lemma select_decide {A} (f : A -> bool) (P : A -> Prop) `{forall x, Decision (P x)}
    (l : list A) :
  (forall x, f x = bool_decide (P x)) ->
  select (map f l) l = filter P l.
Proof.
  intros Hf. induction l as [|x l IH]; simpl; [done|].
  rewrite Hf, filter_cons. case_bool_decide; case_decide; try done; by rewrite IH.
Qed.

Lemma eqb_decide (s t : string) : String.eqb s t = bool_decide (s = t).
Proof.
  destruct (String.eqb_spec s t); symmetry;
    [by apply bool_decide_eq_true_2 | by apply bool_decide_eq_false_2].
Qed.
Lemma negb_eqb_decide (s t : string) :
  negb (String.eqb s t) = bool_decide (s <> t).
Proof.
  destruct (String.eqb_spec s t); symmetry; simpl;
    [apply bool_decide_eq_false_2; auto | by apply bool_decide_eq_true_2].
Qed.

(** C5: the scheme partitioner returns, with the header unchanged, the rows
    whose scheme is the label and the rows whose scheme is neither the label
    nor the sentinel; no row is in both, and together with the dropped
    sentinel rows they are the rows of the input. *)
Theorem scheme_partition (df : frame string) (label : string) (j : nat) :
  index_of "scheme" (columns df) = Some j ->
  exists matched mismatched,
    clean_dataframe_scheme df label = inr (matched, mismatched) /\
    columns matched = columns df /\ columns mismatched = columns df /\
    data matched = filter (fun r => r !!! j = label) (data df) /\
    data mismatched
    = filter (fun r => r !!! j <> label /\ r !!! j <> "-") (data df) /\
    (forall r, r ∈ data matched -> r ∉ data mismatched) /\
    data df ≡ₚ data matched ++ data mismatched
               ++ filter (fun r => r !!! j <> label /\ r !!! j = "-") (data df).
Proof.
  intros Hj. unfold clean_dataframe_scheme, getitem. simpl. rewrite Hj. simpl.
  eexists _, _. split; [reflexivity|]. simpl.
  unfold get_col. rewrite !map_map.
  rewrite (select_decide _ (fun r => r !!! j = label))
    by (intros r; apply eqb_decide).
  rewrite (select_decide (fun r => negb (String.eqb (r !!! j) label))
             (fun r => r !!! j <> label))
    by (intros r; apply negb_eqb_decide).
  rewrite (select_decide (fun r => negb (String.eqb (r !!! j) "-"))
             (fun r => r !!! j <> "-"))
    by (intros r; apply negb_eqb_decide).
  rewrite list_filter_filter.
  split; [done|]. split; [done|]. split; [done|]. split.
  { apply list_filter_iff. tauto. }
  split.
  - intros r [Hr _]%list_elem_of_filter [[_ Hne] _]%list_elem_of_filter. done.
  - rewrite <- (filter_app_complement (fun r => r !!! j = label) (data df)) at 1.
    f_equiv.
    rewrite <- (filter_app_complement (fun r => r !!! j <> "-")
                  (filter (fun r => r !!! j <> label) (data df))).
    rewrite !list_filter_filter. f_equiv.
    rewrite (list_filter_iff (fun r => ~ r !!! j <> "-" /\ r !!! j <> label)
               (fun r => r !!! j <> label /\ r !!! j = "-")); [done|].
    intros r. split; [|tauto].
    intros [Hs Hne]. split; [done|]. by destruct (decide (r !!! j = "-")).
Qed.

Lemma Forall_select {A} (P : A -> Prop) (mask : list bool) (l : list A) :
  Forall P l -> Forall P (select mask l).
Proof.
  intros Hl. revert mask. induction Hl as [|x l Hx _ IH]; intros [|b mask];
    simpl; try constructor.
  destruct b; [constructor|]; auto.
Qed.

(** Both tables that the partitioner returns are typed when its input is:
    the allele validator receives a typed table. *)
Lemma clean_dataframe_scheme_typed (df matched mismatched : frame string)
    (label : string) :
  typed df -> clean_dataframe_scheme df label = inr (matched, mismatched) ->
  typed matched /\ typed mismatched.
Proof.
  intros Hty. unfold clean_dataframe_scheme, getitem. simpl.
  rewrite (typed_index_scheme df Hty). simpl. intros [= <- <-].
  destruct Hty as [Hcols Hrows].
  split; (split; [done|]); simpl; repeat apply Forall_select; done.
Qed.

(** ** select_scheme *)

Lemma insert_desc_perm (x : string * nat) (l : list (string * nat)) :
  insert_desc x l ≡ₚ x :: l.
Proof.
  induction l as [|y l IH]; simpl; [done|].
  destruct (snd y <=? snd x)%nat; [done|].
  rewrite IH. apply Permutation_swap.
Qed.

Lemma value_counts_perm (col : list string) :
  value_counts col ≡ₚ map (fun k => (k, count k col)) (distinct col).
Proof.
  unfold value_counts.
  induction (map (fun k => (k, count k col)) (distinct col)) as [|x l IH];
    simpl; [done|].
  by rewrite insert_desc_perm, IH.
Qed.

Lemma elem_of_List_filter {A} (f : A -> bool) (l : list A) (x : A) :
  x ∈ List.filter f l <-> x ∈ l /\ f x = true.
Proof. rewrite !list_elem_of_In. apply filter_In. Qed.

Lemma elem_of_distinct (x : string) (col : list string) :
  x ∈ distinct col <-> x ∈ col.
Proof.
  induction col as [|y col IH]; simpl; [done|].
  rewrite !elem_of_cons, elem_of_List_filter, IH, negb_true_iff, String.eqb_neq.
  destruct (decide (x = y)) as [->|Hne]; [tauto|].
  split; [intros [?|[? _]]; auto | intros [?|?]; [done|]; right; split; auto].
Qed.

Lemma NoDup_List_filter {A} (f : A -> bool) (l : list A) :
  NoDup l -> NoDup (List.filter f l).
Proof.
  induction 1 as [|x l Hx _ IH]; simpl; [constructor|].
  destruct (f x); [|done]. constructor; [|done].
  rewrite elem_of_List_filter. tauto.
Qed.

Lemma NoDup_distinct (col : list string) : NoDup (distinct col).
Proof.
  induction col as [|y col IH]; simpl; constructor.
  - rewrite elem_of_List_filter, negb_true_iff, String.eqb_neq. tauto.
  - by apply NoDup_List_filter.
Qed.

Lemma List_filter_perm {A} (f : A -> bool) (l l' : list A) :
  l ≡ₚ l' -> List.filter f l ≡ₚ List.filter f l'.
Proof.
  induction 1 as [|x l l' _ IH|x y l|l1 l2 l3 _ IH1 _ IH2]; simpl.
  - done.
  - destruct (f x); by rewrite IH.
  - destruct (f x), (f y); (done || apply Permutation_swap).
  - by rewrite IH1.
Qed.

Lemma filter_key_keys (g : string -> nat) (s : string) (keys : list string) :
  NoDup keys ->
  List.filter (fun kc => String.eqb (fst kc) s) (map (fun k => (k, g k)) keys)
  = if bool_decide (s ∈ keys) then [(s, g s)] else [].
Proof.
  induction 1 as [|k keys Hk Hnd IH]; simpl; [done|].
  rewrite IH. destruct (String.eqb_spec k s) as [->|Hne].
  - rewrite (bool_decide_eq_true_2 (s ∈ s :: keys)) by (apply elem_of_cons; by left).
    by rewrite (bool_decide_eq_false_2 (s ∈ keys)).
  - destruct (decide (s ∈ keys)) as [Hin|Hin].
    + rewrite !bool_decide_eq_true_2; [done|apply elem_of_cons; by right|done].
    + rewrite !bool_decide_eq_false_2; [done| |done].
      intros [?|?]%elem_of_cons; done.
Qed.

(** Looking a label up in the frequency table finds its count, or nothing. *)
Lemma value_counts_lookup (s : string) (col : list string) :
  List.filter (fun kc => String.eqb (fst kc) s) (value_counts col)
  = if bool_decide (s ∈ col) then [(s, count s col)] else [].
Proof.
  pose proof (List_filter_perm (fun kc => String.eqb (fst kc) s) _ _
                (value_counts_perm col)) as Hperm.
  rewrite (filter_key_keys (fun k => count k col) s _ (NoDup_distinct col))
    in Hperm.
  rewrite (bool_decide_ext _ (s ∈ col)) in Hperm by apply elem_of_distinct.
  case_bool_decide.
  - by apply Permutation_singleton_r.
  - by apply Permutation_nil_r.
Qed.

Lemma count_cons (k x : string) (col : list string) :
  count k (x :: col) = (if String.eqb k x then 1 else 0) + count k col.
Proof. unfold count. simpl. by destruct (String.eqb k x). Qed.

Lemma sum_list_indicator (x : string) (keys : list string) :
  NoDup keys -> x ∈ keys ->
  sum_list (map (fun k => if String.eqb k x then 1 else 0) keys) = 1.
Proof.
  induction 1 as [|k keys Hk Hnd IH]; [by intros ?%elem_of_nil|].
  intros Hx. simpl. destruct (String.eqb_spec k x) as [->|Hne].
  - clear IH Hx. f_equal. induction keys as [|y keys IH]; simpl; [done|].
    apply not_elem_of_cons in Hk as [Hy Hk].
    apply NoDup_cons in Hnd as [_ Hnd].
    destruct (String.eqb_spec y x); [done|]. by apply IH.
  - apply IH. apply elem_of_cons in Hx as [?|?]; [done|done].
Qed.

Lemma sum_list_map_add {A} (f g : A -> nat) (l : list A) :
  sum_list (map (fun x => f x + g x) l) = sum_list (map f l) + sum_list (map g l).
Proof. induction l as [|x l IH]; simpl; [done|]. rewrite IH. lia. Qed.

Lemma sum_counts (keys col : list string) :
  NoDup keys -> (forall x, x ∈ col -> x ∈ keys) ->
  sum_list (map (fun k => count k col) keys) = length col.
Proof.
  intros Hnd. induction col as [|x col IH]; intros Hsub.
  - unfold count. simpl. induction keys; simpl; [done|]. apply IHkeys.
    by apply NoDup_cons in Hnd as [_ ?]. by intros ? ?%elem_of_nil.
  - rewrite (map_ext _ (fun k => (if String.eqb k x then 1 else 0) + count k col))
      by (intros k; apply count_cons).
    rewrite sum_list_map_add, sum_list_indicator, IH; simpl; auto.
    + intros y Hy. apply Hsub, elem_of_cons. by right.
    + apply Hsub, elem_of_cons. by left.
Qed.

Lemma value_counts_total (col : list string) :
  sum_list (map snd (value_counts col)) = length col.
Proof.
  rewrite (value_counts_perm col), map_map. simpl.
  apply sum_counts; [apply NoDup_distinct|]. intros x. by rewrite elem_of_distinct.
Qed.

Lemma value_counts_head (col : list string) (k : string) (n : nat)
    (rest : list (string * nat)) :
  value_counts col = (k, n) :: rest -> k ∈ col.
Proof.
  intros Hvc. apply elem_of_distinct.
  assert (Hin : (k, n) ∈ value_counts col) by (rewrite Hvc; apply elem_of_cons; by left).
  rewrite (value_counts_perm col) in Hin.
  apply list_elem_of_fmap in Hin as (k' & [= -> _] & Hk'). done.
Qed.

Lemma value_counts_nil (col : list string) : value_counts col = [] -> col = [].
Proof.
  intros Hvc. pose proof (value_counts_total col) as Htot.
  rewrite Hvc in Htot. simpl in Htot. by destruct col.
Qed.

Lemma selected_elem (arg : option string) (col : list string) (s : string) :
  selected arg col = inr s -> s ∈ col.
Proof.
  destruct arg as [a|]; simpl.
  - case_bool_decide; [by intros [= <-]|done].
  - destruct (value_counts col) as [|[k n] rest] eqn:Hvc; [done|].
    intros [= <-]. by eapply value_counts_head.
Qed.

(** The run of the selector, in full. *)
Lemma select_scheme_run (df : frame string) (arg : option string)
    (col : list string) (w : world) :
  getitem df "scheme" = inr col ->
  select_scheme df arg w
  = match selected arg col with
    | inl e => (inl e, w)
    | inr s =>
        (inr s,
         World (files w)
               (stdout w ++ warning_lines s (percentage (count s col) (length col)))
               (written w))
    end.
Proof.
  intros Hcol. unfold select_scheme, bind, lift. rewrite Hcol.
  assert (Hpick : forall s, s ∈ col ->
    List.filter (fun kc => String.eqb (fst kc) s) (value_counts col)
    = [(s, count s col)]).
  { intros s Hs. by rewrite value_counts_lookup, bool_decide_eq_true_2. }
  assert (Hrest : forall vc s, vc = value_counts col -> s ∈ col ->
    (let (r, w') :=
       match List.filter (fun kc => String.eqb (fst kc) s) vc with
       | [(_, n)] => ret n
       | _ => raise TypeError
       end w in
     match r with
     | inl e => (inl e, w')
     | inr n =>
         let (r0, w'0) :=
           match sum_list (map snd vc) with
           | 0 => raise ZeroDivisionError
           | S _ => ret (percentage n (sum_list (map snd vc)))
           end w' in
         match r0 with
         | inl e => (inl e, w'0)
         | inr pct =>
             (if Qlt_bool pct 75
              then fun w1 =>
                     let (r1, w2) := print (Percentage pct) w1 in
                     match r1 with
                     | inl e => (inl e, w2)
                     | inr _ =>
                         let (r2, w3) := print (Line "<class 'float'>") w2 in
                         match r2 with
                         | inl e => (inl e, w3)
                         | inr _ =>
                             let (r3, w4) := print (Warning s pct) w3 in
                             match r3 with
                             | inl e => (inl e, w4)
                             | inr _ => ret s w4
                             end
                         end
                     end
              else ret s) w'0
         end
     end)
    = (inr s, World (files w)
                    (stdout w ++ warning_lines s (percentage (count s col) (length col)))
                    (written w))).
  { intros vc s -> Hs. rewrite (Hpick s Hs), value_counts_total. unfold ret.
    destruct (length col) eqn:Hlen.
    { destruct col; [by apply elem_of_nil in Hs|done]. }
    unfold warning_lines, print. simpl.
    destruct (Qlt_bool _ 75); simpl.
    - by rewrite <- !app_assoc.
    - rewrite app_nil_r. by destruct w. }
  destruct arg as [a|]; simpl.
  - unfold ret at 1. case_bool_decide as Ha.
    + by apply Hrest.
    + by rewrite value_counts_lookup, bool_decide_eq_false_2.
  - destruct (value_counts col) as [|[k n] rest] eqn:Hvc; [done|].
    unfold ret at 1. apply Hrest; [done|]. by eapply value_counts_head.
Qed.

Lemma Qlt_bool_iff (a b : Q) : Qlt_bool a b = true <-> (a < b)%Q.
Proof.
  unfold Qlt_bool. rewrite negb_true_iff, <- not_true_iff_false, Qle_bool_iff.
  split; [apply Qnot_le_lt | apply Qlt_not_le].
Qed.

(** The percentage is below 75 exactly when fewer than three rows in four
    carry the label. *)
Lemma percentage_lt (n t : nat) :
  0 < t -> (percentage n t < 75)%Q <-> 100 * n < 75 * t.
Proof.
  intros Ht. unfold percentage, Qdiv, Qinv, Qlt, Qmult. simpl.
  destruct t as [|t]; [lia|]. simpl. lia.
Qed.

Lemma elem_of_warning_lines (o : output) (s : string) (pct : Q) :
  o ∈ warning_lines s pct <->
  (pct < 75)%Q /\
  (o = Percentage pct \/ o = Line "<class 'float'>" \/ o = Warning s pct).
Proof.
  unfold warning_lines. destruct (Qlt_bool pct 75) eqn:Hlt.
  - apply Qlt_bool_iff in Hlt. rewrite !elem_of_cons, elem_of_nil. tauto.
  - rewrite elem_of_nil. split; [done|]. intros [Hlt' _].
    apply Qlt_bool_iff in Hlt'. congruence.
Qed.

(** C6: whenever the selector settles on a label, the label occurs in the
    scheme column, the percentage is the count of its rows over all rows
    times 100, and the warning that names the label and the percentage is
    printed if and only if the percentage is below 75, that is if and only
    if fewer than three rows in four carry the label; at 75 or more nothing
    is printed.  The selector settles on a label whenever the table has a
    row and no label was given, and whenever the given label occurs. *)
Theorem select_scheme_warning (df : frame string) (arg : option string)
    (col : list string) (w : world) :
  getitem df "scheme" = inr col ->
  (forall s w', select_scheme df arg w = (inr s, w') ->
     let pct := percentage (count s col) (length col) in
     s ∈ col /\ (forall a, arg = Some a -> s = a) /\
     exists out,
       w' = World (files w) (stdout w ++ out) (written w) /\
       (Warning s pct ∈ out <-> (pct < 75)%Q) /\
       ((pct < 75)%Q <-> 100 * count s col < 75 * length col) /\
       ((75 <= pct)%Q -> out = []) /\
       (forall s' p, Warning s' p ∈ out -> s' = s /\ p = pct)) /\
  ((arg = None /\ col <> []) \/ (exists a, arg = Some a /\ a ∈ col) ->
   exists s w', select_scheme df arg w = (inr s, w')).
Proof.
  intros Hcol. rewrite (select_scheme_run df arg col w Hcol). split.
  - intros s w' Hrun pct.
    destruct (selected arg col) as [e|s0] eqn:Hsel; [done|].
    injection Hrun as <- <-.
    pose proof (selected_elem arg col s0 Hsel) as Hs.
    split; [done|]. split.
    { intros a ->. simpl in Hsel. case_bool_decide; [|done]. by injection Hsel. }
    exists (warning_lines s0 pct). split; [done|]. split; [|split; [|split]].
    + rewrite elem_of_warning_lines. split; [tauto|]. auto.
    + apply percentage_lt. destruct col; [by apply elem_of_nil in Hs|simpl; lia].
    + intros Hge. unfold warning_lines.
      destruct (Qlt_bool pct 75) eqn:Hlt; [|done].
      apply Qlt_bool_iff in Hlt. by apply Qle_not_lt in Hge.
    + intros s' p [_ [?|[?|[= -> ->]]]]%elem_of_warning_lines; done.
  - intros [[-> Hne]|(a & -> & Ha)]; simpl.
    + destruct (value_counts col) as [|[k n] rest] eqn:Hvc; [|eauto].
      by apply value_counts_nil in Hvc.
    + rewrite bool_decide_eq_true_2 by done. eauto.
Qed.

(** C10: an explicit label that does not occur in the scheme column makes
    the selector raise (the count lookup is empty and [int] refuses it):
    no label is returned and nothing is printed. *)
Theorem select_scheme_absent (df : frame string) (s : string)
    (col : list string) (w : world) :
  getitem df "scheme" = inr col -> s ∉ col ->
  select_scheme df (Some s) w = (inl TypeError, w).
Proof.
  intros Hcol Hs. rewrite (select_scheme_run df (Some s) col w Hcol). simpl.
  by rewrite bool_decide_eq_false_2.
Qed.

(** ** read_mlst_files *)

Lemma read_mlst_loop_run (paths : list string) (nr_cols : Z)
    (df_list : list raw_frame) (fs : gmap string file) (out : list output)
    (wr : list (string * frame cell)) :
  Forall (fun p => is_Some (fs !! p)) paths ->
  read_mlst_loop paths nr_cols df_list (World fs out wr)
  = (inr (df_list ++ map (table_of fs) (List.filter (accepted fs nr_cols) paths)),
     World fs (out ++ omap (skip_message fs nr_cols) paths) wr).
Proof.
  intros Hex. revert df_list out.
  induction Hex as [|p paths [f Hf] _ IH]; intros df_list out; simpl.
  - by rewrite !app_nil_r.
  - unfold bind, os_stat_size, read_table, accepted, skip_message, table_of.
    simpl. rewrite Hf.
    destruct (0 <? st_size f)%N; simpl.
    + rewrite Hf. destruct (shape_is (table f) 1 nr_cols); simpl.
      * rewrite IH. unfold table_of. rewrite Hf. by rewrite <- app_assoc.
      * rewrite IH. by rewrite <- app_assoc.
    + rewrite IH. by rewrite <- app_assoc.
Qed.

Lemma shape_is_spec (t : raw_frame) (nrows ncols : Z) :
  shape_is t nrows ncols = true <-> shape t = (nrows, ncols).
Proof.
  unfold shape_is. rewrite andb_true_iff, !Z.eqb_eq.
  destruct (shape t) as [a b]. simpl. split; [by intros [-> ->]|by intros [= -> ->]].
Qed.

Lemma accepted_spec (fs : gmap string file) (n : Z) (p : string) :
  accepted fs n p = true <->
  exists f, fs !! p = Some f /\ (0 < st_size f)%N /\ shape (table f) = (1, n)%Z.
Proof.
  unfold accepted. destruct (fs !! p) as [f|].
  - rewrite andb_true_iff, N.ltb_lt, shape_is_spec. split.
    + intros [? ?]. by exists f.
    + by intros (f' & [= <-] & ? & ?).
  - split; [done|]. by intros (f & ? & _).
Qed.

Lemma List_filter_nil {A} (f : A -> bool) (l : list A) :
  List.filter f l = [] <-> forall x, x ∈ l -> f x = false.
Proof.
  induction l as [|x l IH]; simpl.
  - split; [by intros _ ? ?%elem_of_nil|done].
  - destruct (f x) eqn:Hx.
    + split; [done|]. intros H. specialize (H x (list_elem_of_here _ _)). congruence.
    + rewrite IH. split.
      * intros H y [->|?]%elem_of_cons; auto.
      * intros H y Hy. apply H, elem_of_cons. by right.
Qed.

(** C4: in multi-file mode the ingestion raises ValueError, and returns no
    table, exactly when no file passes the checks, that is when every file
    is empty or has the wrong dimensions; as soon as one file passes, it
    returns the rows of the files that pass, in file order, however many
    others are skipped, and each skipped file leaves its message. *)
Theorem read_mlst_files_outcome (paths : list string) (nr_loci : Z) (w : world) :
  Forall (fun p => is_Some (files w !! p)) paths ->
  let fs := files w in
  let nr_cols := (nr_loci + 3)%Z in
  let ok := List.filter (accepted fs nr_cols) paths in
  let log := omap (skip_message fs nr_cols) paths in
  (ok = [] <->
   forall p, p ∈ paths ->
     exists f, fs !! p = Some f /\
               (st_size f = 0%N \/ shape (table f) <> (1, nr_cols)%Z)) /\
  (ok = [] ->
   read_mlst_files paths nr_loci w
   = (inl ValueError, World fs (stdout w ++ log) (written w))) /\
  (ok <> [] ->
   read_mlst_files paths nr_loci w
   = (inr (concat (map (table_of fs) ok)),
      World fs (stdout w ++ log
                ++ [Line ("Combined " +:+ pretty (length ok) +:+ " files")])
            (written w)) /\
   length (concat (map (table_of fs) ok)) = length ok).
Proof.
  intros Hex fs nr_cols ok log. subst fs. split; [|split].
  - unfold ok. rewrite List_filter_nil. split.
    + intros Hnone p Hp.
      destruct (proj1 (Forall_forall _ _) Hex p Hp) as [f Hf].
      exists f. split; [done|].
      specialize (Hnone p Hp). unfold accepted in Hnone. rewrite Hf in Hnone.
      apply andb_false_iff in Hnone as [Hsize|Hshape].
      * left. apply N.ltb_ge in Hsize. lia.
      * right. intros Hs. apply shape_is_spec in Hs. congruence.
    + intros Hall p Hp. destruct (Hall p Hp) as (f & Hf & Hbad).
      apply not_true_is_false. intros (f' & Hf' & Hsize & Hshape)%accepted_spec.
      rewrite Hf in Hf'. injection Hf' as <-.
      destruct Hbad as [Hz|Hs]; [lia|done].
  - intros Hok. unfold read_mlst_files, bind. destruct w as [fs0 out wr].
    simpl in *. rewrite read_mlst_loop_run by done. fold nr_cols.
    fold ok. by rewrite Hok.
  - intros Hok. split.
    + unfold read_mlst_files, bind. destruct w as [fs0 out wr].
      simpl in *. rewrite read_mlst_loop_run by done. fold nr_cols.
      fold ok. unfold lift, pd_concat, print. simpl.
      destruct (map (table_of fs0) ok) as [|t ts] eqn:Hts.
      { apply map_eq_nil in Hts. done. }
      rewrite <- Hts, length_map. simpl. by rewrite <- app_assoc.
    + assert (Hone : Forall (fun p => length (table_of (files w) p) = 1) ok).
      { apply Forall_forall. intros p [_ Hp]%elem_of_List_filter.
        apply accepted_spec in Hp as (f & Hf & _ & Hshape).
        unfold table_of. rewrite Hf. unfold shape in Hshape.
        injection Hshape as Hrows _. lia. }
      clear Hok. induction Hone as [|p ps Hp _ IH]; simpl; [done|].
      rewrite length_app, Hp, IH. done.
Qed.

(** ** The output stage *)

Lemma select_all {A} (mask : list bool) (l : list A) :
  Forall (fun b => b = true) mask -> length l <= length mask ->
  select mask l = l.
Proof.
  intros Hmask. revert l. induction Hmask as [|b mask -> _ IH]; intros [|x l] Hlen;
    simpl in *; try done; try lia.
  f_equal. apply IH. lia.
Qed.

(** Dropping [file] and [scheme] from a table whose header starts with them
    and has them nowhere else takes away the first two columns. *)
Lemma drop_file_scheme {A} (df : frame A) (rest : list string) :
  columns df = "file" :: "scheme" :: rest ->
  "file" ∉ rest -> "scheme" ∉ rest ->
  Forall (fun r => length r = length (columns df)) (data df) ->
  drop_labels ["file"; "scheme"] df = inr (Frame rest (drop 2 <$> data df)).
Proof.
  intros Hcols Hfile Hscheme Hrows. unfold drop_labels. rewrite Hcols.
  simpl.
  assert (Hmask : Forall (fun b => b = true)
            (map (fun c => negb (existsb (String.eqb c) ["file"; "scheme"])) rest)).
  { apply Forall_map, Forall_forall. intros c Hc. simpl.
    destruct (String.eqb_spec c "file") as [->|_]; [done|].
    destruct (String.eqb_spec c "scheme") as [->|_]; [done|]. done. }
  f_equal. f_equal.
  - apply select_all; [done|]. by rewrite length_map.
  - apply Forall_fmap_ext_1. eapply Forall_impl; [exact Hrows|]. simpl.
    intros r Hr. rewrite Hcols in Hr. destruct r as [|a [|b r]]; simpl in *; try done.
    change (drop 0 r) with r. apply select_all; [done|]. rewrite length_map. lia.
Qed.

(** C9: without the identification flag the clean table is written without
    its [file] and [scheme] columns, and with every other column as it is;
    with the flag it is written whole; and whatever the flag, the
    mismatched-scheme table and the failed-allele table are written, where
    requested, with all their columns. *)
Theorem write_outputs_columns (args : arguments) (df : frame cell)
    (df_not_scheme : frame string) (df_failed_alleles : frame cell)
    (rest : list string) (w : world) :
  columns df = "file" :: "scheme" :: rest ->
  "file" ∉ rest -> "scheme" ∉ rest ->
  Forall (fun r => length r = length (columns df)) (data df) ->
  write_outputs args df df_not_scheme df_failed_alleles w
  = (inr tt,
     World (files w) (stdout w)
           (written w
            ++ [(out args,
                 if include_filename args then df
                 else Frame rest (drop 2 <$> data df))]
            ++ match not_scheme args with
               | Some path =>
                   [(path, Frame (columns df_not_scheme)
                                 (map (map Str) (data df_not_scheme)))]
               | None => []
               end
            ++ match failed_alleles args with
               | Some path => [(path, df_failed_alleles)]
               | None => []
               end)).
Proof.
  intros Hcols Hfile Hscheme Hrows. unfold write_outputs, bind, lift, ret, to_csv.
  rewrite (drop_file_scheme df rest Hcols Hfile Hscheme Hrows).
  destruct (include_filename args), (not_scheme args), (failed_alleles args);
    simpl; rewrite <- ?app_assoc; simpl; try done.
  all: by rewrite ?app_nil_r.
Qed.

(** ** The header deriver delivers typed tables *)

Lemma fix_header_typed (raw : raw_frame) (df : frame string) :
  (forall r r', r ∈ raw -> r' ∈ raw -> length r = length r') ->
  fix_header raw = inr df -> typed df /\ data df = raw.
Proof.
  intros Hrect. unfold fix_header. destruct raw as [|first rest]; [done|].
  destruct (_ =? _)%nat eqn:Hlen; [|done]. intros [= <-].
  apply Nat.eqb_eq in Hlen. split; [|done]. split; [done|]. simpl.
  apply Forall_forall. intros r Hr. simpl in Hlen. rewrite Hlen.
  apply Hrect; [done|]. apply elem_of_cons. by left.
Qed.

(** ** The sample run

    The three samples of section 8: the majority scheme is selected and,
    at two rows in three, the warning is printed; the empty file and the
    narrow file are skipped; the clean table is written without its
    identification columns, the two other tables whole.  The fields read
    are shown as their text (an ST that the reader takes for a number is
    written with the same digits). *)
Example main_sample :
  main int_literal sample_arguments sample_world
  = (inr tt,
     World sample_files
       [ Line "empty.tsv is an empty file. Skipping...";
         Line "narrow.tsv did not have expected dimensions. Skipping...";
         Line "Combined 3 files";
         Percentage (200 # 3);
         Line "<class 'float'>";
         Warning "scheme1" (200 # 3) ]
       [ ("allelic_profiles.tsv",
          Frame ["ST"; "adk"; "fumC"]
                [ [Str "5"; Int32 1; Int32 2]; [Str "6"; Int32 1; Int32 3] ]);
         ("other.tsv",
          Frame ["file"; "scheme"; "ST"; "adk"; "fumC"]
                [ [Str "s3.fa"; Str "scheme2"; Str "7"; Str "adk(4)"; Str "fumC(2)"] ]);
         ("failed.tsv", Frame ["file"; "scheme"; "ST"; "adk"; "fumC"] []) ]).
Proof. vm_compute. reflexivity. Qed.

(** A gene name that carries a digit leaves it in the number. *)
Example digit_in_gene_name : coerce_text "g6pd(3)" = PInt 63.
Proof. reflexivity. Qed.

(** ** The theorems at the sample data *)

Ltac distinct_labels :=
  repeat (apply NoDup_cons_2;
          [ rewrite ?elem_of_cons, elem_of_nil; intros H;
            repeat (destruct H as [H|H]; [discriminate H|]); destruct H | ]);
  apply NoDup_nil_2.

Lemma sample_table_typed : typed sample_table.
Proof. split; [reflexivity | repeat constructor]. Qed.

Lemma sample_table_distinct : NoDup (columns sample_table).
Proof. simpl. distinct_labels. Qed.

Lemma clean_failed_partition_sample :
  typed sample_table /\ NoDup (columns sample_table) /\
  placed int_literal sample_table
         (clean_positions sample_table) (failed_positions sample_table).
Proof.
  split; [exact sample_table_typed|]. split; [exact sample_table_distinct|].
  exact (proj1 (clean_failed_partition int_literal sample_table
                  sample_table_typed sample_table_distinct)).
Defined.

Lemma clean_iff_complete_sample :
  typed sample_table /\ NoDup (columns sample_table) /\
  data sample_table !! 0 = Some ["a.fa"; "ecoli"; "10"; "adk(12)"; "fumC(3)"] /\
  0 ∈ clean_positions sample_table.
Proof.
  assert (Hr : data sample_table !! 0
               = Some ["a.fa"; "ecoli"; "10"; "adk(12)"; "fumC(3)"]) by reflexivity.
  split; [exact sample_table_typed|]. split; [exact sample_table_distinct|].
  split; [exact Hr|].
  destruct (clean_iff_complete int_literal sample_table 0 _
              sample_table_typed sample_table_distinct Hr)
    as (_ & Hiff & _).
  apply Hiff. split; [|discriminate].
  repeat constructor; discriminate.
Defined.

Lemma coerced_cell_value_sample :
  typed sample_table /\ NoDup (columns sample_table) /\
  exists rows r' c,
    coerced sample_table = inr rows /\ rows !! 2 = Some r' /\
    r' !! 3 = Some c /\ c = NaN.
Proof.
  split; [exact sample_table_typed|]. split; [exact sample_table_distinct|].
  destruct (coerced_cell_value sample_table 2 3
              ["c.fa"; "ecoli"; "11"; "adk(-)"; "fumC(7)"] "adk(-)"
              sample_table_typed sample_table_distinct)
    as (rows & r' & c & Hrows & Hr' & Hc & Hval & _); [reflexivity|lia|reflexivity|].
  exists rows, r', c. split; [exact Hrows|]. split; [exact Hr'|].
  split; [exact Hc|]. exact Hval.
Defined.

Lemma clean_alleles_exact_sample :
  typed sample_table /\ NoDup (columns sample_table) /\
  clean_row sample_table ["a.fa"; "ecoli"; "10"; "adk(12)"; "fumC(3)"]
  = [Str "a.fa"; Str "ecoli"; Str "10"; Int32 12; Int32 3].
Proof.
  split; [exact sample_table_typed|]. split; [exact sample_table_distinct|].
  apply (clean_alleles_exact int_literal sample_table 0
           ["a.fa"; "ecoli"; "10"; "adk(12)"; "fumC(3)"]
           [("adk", 12%N); ("fumC", 3%N)]
           sample_table_typed sample_table_distinct).
  - reflexivity.
  - reflexivity.
  - repeat constructor; simpl; lia.
  - discriminate.
Defined.

Lemma read_mlst_files_outcome_sample :
  exists df w',
    read_mlst_files ["s1.tsv"; "empty.tsv"; "s2.tsv"; "narrow.tsv"; "s3.tsv"] 2
                    sample_world = (inr df, w')
    /\ length df = 3.
Proof.
  destruct (read_mlst_files_outcome
              ["s1.tsv"; "empty.tsv"; "s2.tsv"; "narrow.tsv"; "s3.tsv"] 2
              sample_world) as (_ & _ & Hsome).
  - repeat constructor; vm_compute; eexists; reflexivity.
  - destruct Hsome as [Hrun Hlen]; [vm_compute; discriminate|].
    eexists _, _. split; [exact Hrun|]. exact Hlen.
Defined.

Lemma scheme_partition_sample :
  exists matched mismatched,
    clean_dataframe_scheme sample_table "ecoli" = inr (matched, mismatched) /\
    length (data matched) = 3 /\ length (data mismatched) = 1.
Proof.
  destruct (scheme_partition sample_table "ecoli" 1)
    as (matched & mismatched & Hrun & _ & _ & Hm & Hmm & _); [reflexivity|].
  exists matched, mismatched. split; [exact Hrun|].
  rewrite Hm, Hmm. split; reflexivity.
Defined.

Lemma select_scheme_warning_sample :
  exists s w', select_scheme sample_table None sample_world = (inr s, w').
Proof.
  destruct (select_scheme_warning sample_table None
              ["ecoli"; "ecoli"; "ecoli"; "senterica"; "-"] sample_world)
    as [_ Hruns]; [reflexivity|].
  apply Hruns. left. split; [reflexivity|discriminate].
Defined.

Lemma write_outputs_columns_sample :
  exists w',
    write_outputs sample_arguments sample_clean sample_table sample_clean
                  sample_world = (inr tt, w')
    /\ written w' !! 0
       = Some ("allelic_profiles.tsv",
               Frame ["ST"; "adk"; "fumC"] [[Str "10"; Int32 12; Int32 3]]).
Proof.
  eexists. split.
  - apply (write_outputs_columns sample_arguments sample_clean sample_table
             sample_clean ["ST"; "adk"; "fumC"] sample_world).
    + reflexivity.
    + intros H. by repeat (apply elem_of_cons in H as [H|H]; [discriminate H|]);
        apply elem_of_nil in H.
    + intros H. by repeat (apply elem_of_cons in H as [H|H]; [discriminate H|]);
        apply elem_of_nil in H.
    + repeat constructor.
  - reflexivity.
Defined.

Lemma select_scheme_absent_sample :
  select_scheme sample_table (Some "kpneumoniae") sample_world
  = (inl TypeError, sample_world).
Proof.
  apply (select_scheme_absent sample_table "kpneumoniae"
           ["ecoli"; "ecoli"; "ecoli"; "senterica"; "-"] sample_world).
  - reflexivity.
  - intros H. by repeat (apply elem_of_cons in H as [H|H]; [discriminate H|]);
      apply elem_of_nil in H.
Defined.

(** ** Where the code departs from the letter of the specification *)

(** The stripped text [1.5] is no integer, yet the cell is not missing: the
    coerced copy holds 1.5 and the row lands in the clean table. *)
Lemma integer_parse_only_fails :
  spec_integer_parse (str_replace "adk(1.5)") = None /\
  coerced decimal_table
  = inr [[Str "a.fa"; Str "ecoli"; Str "10"; Float64 (15 # 10)]] /\
  clean_positions decimal_table = [0] /\
  ~ integer_parse_only.
Proof.
  split; [reflexivity|]. split; [reflexivity|]. split; [reflexivity|].
  intros Hclaim.
  destruct (Hclaim decimal_table 0 3 ["a.fa"; "ecoli"; "10"; "adk(1.5)"] "adk(1.5)")
    as (rows & r' & Hrows & Hr' & Hnan).
  - split; [reflexivity | repeat constructor].
  - simpl. distinct_labels.
  - reflexivity.
  - lia.
  - reflexivity.
  - reflexivity.
  - vm_compute in Hrows. injection Hrows as <-.
    vm_compute in Hr'. injection Hr' as <-. discriminate Hnan.
Qed.

(** C8: the round trip fails on a gene name that carries a digit.  The
    pattern of line 175 strips letters and parentheses only, so the digits
    of the name stay in front of the allele number: the row
    [a.fa, ecoli, 10, cpn60(2)] is placed in clean with 602 in its locus
    column, where the designation says 2. *)
Theorem digit_gene_name_leaks (int_of_str : string -> option Z) :
  designation "cpn60" 2 = "cpn60(2)" /\
  clean_dataframe_alleles int_of_str digit_table
  = inr (Frame ["file"; "scheme"; "ST"; "cpn60"]
               [[Str "a.fa"; Str "ecoli"; Str "10"; Int32 602]],
         Frame ["file"; "scheme"; "ST"; "cpn60"] []).
Proof. split; reflexivity. Qed.

(** The allele number 4294967297 does not fit the int32 of the clean
    table, which holds 1 in its place. *)
Example large_allele_wraps (int_of_str : string -> option Z) :
  clean_dataframe_alleles int_of_str large_table
  = inr (Frame ["file"; "scheme"; "ST"; "adk"]
               [[Str "a.fa"; Str "ecoli"; Str "10"; Int32 1]],
         Frame ["file"; "scheme"; "ST"; "adk"] []).
Proof. reflexivity. Qed.

(** * Further properties of the code *)

(** ** Text *)

Lemma List_filter_subset {A} (f : A -> bool) (l : list A) (x : A) :
  x ∈ List.filter f l -> x ∈ l.
Proof. rewrite elem_of_List_filter. tauto. Qed.

Lemma chars_text (l : list ascii) : chars (text l) = l.
Proof. apply list_ascii_of_string_of_list_ascii. Qed.

Lemma numeral_chars (l : list ascii) :
  decimal_numeral l ->
  Forall (fun c => numeral_char c = true) l /\
  Exists (fun c => is_digit c = true) l.
Proof.
  intros (ws1 & sign & ds1 & frac & ws2 & -> & Hws1 & Hsign & Hds1 & Hfrac & Hws2).
  assert (Hsp : forall l, Forall (fun c => is_space c = true) l ->
                          Forall (fun c => numeral_char c = true) l).
  { intros l Hl. eapply Forall_impl; [exact Hl|]. simpl. intros c Hc.
    unfold numeral_char. rewrite Hc, orb_true_r. done. }
  assert (Hdg : forall l, Forall (fun c => is_digit c = true) l ->
                          Forall (fun c => numeral_char c = true) l).
  { intros l Hl. eapply Forall_impl; [exact Hl|]. simpl. intros c Hc.
    unfold numeral_char. by rewrite Hc. }
  split.
  - repeat apply Forall_app_2; auto.
    + destruct Hsign as [->|[->| ->]]; repeat constructor.
    + destruct Hfrac as [[-> _]|(ds2 & -> & Hds2 & _)]; [constructor|].
      constructor; [done|auto].
  - apply Exists_app. right. apply Exists_app. right.
    destruct Hfrac as [[-> Hne]|(ds2 & -> & Hds2 & Hne)].
    + apply Exists_app. left. destruct Hds1 as [|d ds1 Hd _]; [done|].
      by apply Exists_cons_hd.
    + destruct Hds1 as [|d ds1 Hd _].
      * apply Exists_app. right. apply Exists_app. left. apply Exists_cons_tl.
        simpl in Hne. destruct Hds2 as [|d ds2 Hd _]; [done|].
        by apply Exists_cons_hd.
      * apply Exists_app. left. by apply Exists_cons_hd.
Qed.

(** X1: a locus cell is coerced to the missing marker whenever it holds no
    digit at all, and whenever it holds a character that is neither a
    letter or parenthesis (which are stripped) nor a digit, sign, point or
    white space: the bare sentinel, and the inexact or multiple allele
    calls that mlst marks with [~], [?] or a comma, all count as missing. *)
Theorem coerce_text_missing_cases (t : string) :
  Forall (fun c => is_digit c = false) (chars t) \/
  Exists (fun c => in_class c = false /\ numeral_char c = false) (chars t) ->
  coerce_text t = PNaN.
Proof.
  intros Hcases. apply coerce_text_missing. intros Hnum.
  apply numeral_chars in Hnum as [Hall Hdigit].
  unfold str_replace in *. rewrite chars_text in *.
  destruct Hcases as [Hnone|Hforeign].
  - apply Exists_exists in Hdigit as (c & Hc & Hd).
    apply List_filter_subset in Hc.
    rewrite Forall_forall in Hnone. specialize (Hnone c Hc). congruence.
  - apply Exists_exists in Hforeign as (c & Hc & Hclass & Hforeign).
    rewrite Forall_forall in Hall.
    assert (Hin : c ∈ List.filter (fun c => negb (in_class c)) (chars t)).
    { apply elem_of_List_filter. split; [done|]. by rewrite Hclass. }
    specialize (Hall c Hin). congruence.
Qed.

Lemma coerce_text_missing_cases_sample : coerce_text "adk(~12)" = PNaN.
Proof.
  apply coerce_text_missing_cases. right.
  do 4 apply Exists_cons_tl. apply Exists_cons_hd. split; reflexivity.
Defined.

Lemma letter_not_digit (c : ascii) : is_letter c = true -> is_digit c = false.
Proof. intros H. code_arith. Qed.

(** X2: the digits of a gene name end up in the allele number.  For a gene
    name of letters and digits, the designation [gene(allele)] is coerced
    to the number whose decimal digits are the digits of the name followed
    by those of the allele: only letters and parentheses are stripped. *)
Theorem coerce_designation_gene_digits (gene : string) (allele : N) :
  Forall (fun c => is_letter c = true \/ is_digit c = true) (chars gene) ->
  coerce_text (designation gene allele)
  = PInt (digits_value (List.filter is_digit (chars gene))
          * 10 ^ Z.of_nat (length (chars (pretty allele))) + Z.of_N allele).
Proof.
  intros Hgene. unfold coerce_text, to_numeric_scalar, str_replace, designation.
  rewrite chars_text, !chars_app, !List.filter_app.
  destruct (pretty_N_digits allele) as (Hne & Hds & Hval).
  assert (Hg : List.filter (fun c => negb (in_class c)) (chars gene)
               = List.filter is_digit (chars gene)).
  { induction Hgene as [|c l Hc _ IH]; simpl; [done|]. rewrite IH.
    destruct Hc as [Hc|Hc].
    - by rewrite (letter_in_class c Hc), (letter_not_digit c Hc).
    - by rewrite (digit_not_class c Hc), Hc. }
  rewrite Hg, (filter_all_true _ (chars (pretty allele))).
  2:{ eapply Forall_impl; [exact Hds|]. simpl. intros c Hc.
      by rewrite (digit_not_class c Hc). }
  simpl. rewrite app_nil_r.
  pose proof (parse_digits false
                (List.filter is_digit (chars gene) ++ chars (pretty allele))) as Hp.
  simpl in Hp. rewrite Hp.
  - by rewrite digits_value_app, Hval.
  - by intros [_ ?]%app_eq_nil.
  - apply Forall_app_2; [|done]. apply Forall_forall. intros c Hc.
    by apply elem_of_List_filter in Hc as [_ Hc].
Qed.

Lemma coerce_designation_gene_digits_sample :
  coerce_text (designation "g6pd" 3) = PInt 63.
Proof.
  apply (coerce_designation_gene_digits "g6pd" 3).
  repeat (constructor; [first [left; reflexivity | right; reflexivity]|]).
  constructor.
Defined.

(** ** fix_header *)

Lemma split_paren_0_prefix (g tail : string) :
  "("%char ∉ chars g -> split_paren_0 (g +:+ "(" +:+ tail) = g.
Proof.
  intros Hg. unfold split_paren_0. rewrite chars_app.
  rewrite take_while_app; [apply text_chars| |done].
  apply Forall_forall. intros c Hc. apply negb_true_iff.
  destruct (Ascii.eqb_spec c "("); [by subst|done].
Qed.

Lemma split_paren_0_whole (g : string) :
  "("%char ∉ chars g -> split_paren_0 g = g.
Proof.
  intros Hg. unfold split_paren_0.
  rewrite <- (app_nil_r (chars g)) at 1.
  rewrite take_while_app; [apply text_chars| |done].
  apply Forall_forall. intros c Hc. apply negb_true_iff.
  destruct (Ascii.eqb_spec c "("); [by subst|done].
Qed.

(** X3: the header comes from the first row alone.  When each locus cell
    of the first row is a gene name, or a gene name followed by an opening
    parenthesis and anything, the columns are named file, scheme, ST and
    then the gene names, whatever the other rows hold; a first-row cell
    without a parenthesis, such as the sentinel, names its column itself.
    The rows are kept as they are, the first one included. *)
Theorem fix_header_names (f s st : string) (cells genes : list string)
    (rest : raw_frame) :
  Forall2 (fun cell g => ("("%char ∉ chars g) /\
                         (cell = g \/ exists tail, cell = g +:+ "(" +:+ tail))
          cells genes ->
  fix_header ((f :: s :: st :: cells) :: rest)
  = inr (Frame ("file" :: "scheme" :: "ST" :: genes)
               ((f :: s :: st :: cells) :: rest)).
Proof.
  intros Hcells.
  assert (Hmap : map split_paren_0 cells = genes).
  { induction Hcells as [|cell g cells genes [Hg Hcell] _ IH]; simpl; [done|].
    rewrite IH. f_equal.
    destruct Hcell as [->|[tail ->]];
      [by apply split_paren_0_whole|by apply split_paren_0_prefix]. }
  unfold fix_header. change (drop 3 (f :: s :: st :: cells)) with cells.
  rewrite Hmap. cbn [app length]. rewrite (Forall2_length _ _ _ Hcells).
  by rewrite Nat.eqb_refl.
Qed.

Lemma fix_header_names_sample :
  fix_header [ ["s1.fa"; "ecoli"; "10"; "adk(12)"; "-"];
               ["s2.fa"; "ecoli"; "-"; "adk(~12)"; "fumC(3)"] ]
  = inr (Frame ["file"; "scheme"; "ST"; "adk"; "-"]
               [ ["s1.fa"; "ecoli"; "10"; "adk(12)"; "-"];
                 ["s2.fa"; "ecoli"; "-"; "adk(~12)"; "fumC(3)"] ]).
Proof.
  apply (fix_header_names "s1.fa" "ecoli" "10" ["adk(12)"; "-"] ["adk"; "-"]).
  assert (Hadk : "("%char ∉ chars "adk").
  { intros H. by repeat (apply elem_of_cons in H as [H|H]; [discriminate H|]);
      apply elem_of_nil in H. }
  assert (Hdash : "("%char ∉ chars "-").
  { intros H. by repeat (apply elem_of_cons in H as [H|H]; [discriminate H|]);
      apply elem_of_nil in H. }
  constructor; [split; [exact Hadk|right; by exists "12)"]|].
  constructor; [split; [exact Hdash|by left]|]. constructor.
Defined.

(** ** read_mlst_files *)

(** The loop over the paths up to a point where every file exists. *)
Lemma read_mlst_loop_app (pre rest : list string) (nr_cols : Z)
    (df_list : list raw_frame) (fs : gmap string file) (out : list output)
    (wr : list (string * frame cell)) :
  Forall (fun p => is_Some (fs !! p)) pre ->
  read_mlst_loop (pre ++ rest) nr_cols df_list (World fs out wr)
  = read_mlst_loop rest nr_cols
      (df_list ++ map (table_of fs) (List.filter (accepted fs nr_cols) pre))
      (World fs (out ++ omap (skip_message fs nr_cols) pre) wr).
Proof.
  intros Hex. revert df_list out.
  induction Hex as [|p pre [f Hf] _ IH]; intros df_list out.
  - simpl. by rewrite !app_nil_r.
  - cbn [app read_mlst_loop].
    unfold bind, os_stat_size, read_table, accepted, skip_message, table_of.
    simpl. rewrite Hf.
    destruct (0 <? st_size f)%N; simpl.
    + rewrite Hf. destruct (shape_is (table f) 1 nr_cols); simpl.
      * rewrite IH. unfold table_of. rewrite Hf. by rewrite <- !app_assoc.
      * rewrite IH. by rewrite <- !app_assoc.
    + rewrite IH. by rewrite <- !app_assoc.
Qed.

(** The loop reads and prints, and fails only on a path that does not
    exist. *)
Lemma read_mlst_loop_inv (paths : list string) (nr_cols : Z)
    (df_list : list raw_frame) (w w' : world) (r : exn + list raw_frame) :
  read_mlst_loop paths nr_cols df_list w = (r, w') ->
  files w' = files w /\ written w' = written w /\
  match r with
  | inl e => e = FileNotFoundError
  | inr _ => Forall (fun p => is_Some (files w !! p)) paths
  end.
Proof.
  revert df_list w. induction paths as [|p paths IH]; intros df_list w; simpl.
  - intros [= <- <-]. done.
  - unfold bind, os_stat_size, read_table, print.
    destruct (files w !! p) as [f|] eqn:Hf; [|by intros [= <- <-]].
    destruct (0 <? st_size f)%N.
    + rewrite Hf. destruct (shape_is (table f) 1 nr_cols).
      * intros H. apply IH in H as (? & ? & H). repeat split; [done..|].
        destruct r; [done|]. constructor; [by rewrite Hf|done].
      * intros H. apply IH in H as (? & ? & H). repeat split; [done..|].
        destruct r; [done|]. constructor; [by rewrite Hf|done].
    + intros H. apply IH in H as (? & ? & H). repeat split; [done..|].
      destruct r; [done|]. constructor; [by rewrite Hf|done].
Qed.

(** X4: one missing file stops the reading of all.  When the files before
    a path exist and the path itself does not, [read_mlst_files] raises
    FileNotFoundError whatever follows: the files after it are not looked
    at, no table is returned, and the console holds just the skip messages
    of the files before it. *)
Theorem read_mlst_files_missing (pre post : list string) (p : string)
    (nr_loci : Z) (w : world) :
  Forall (fun q => is_Some (files w !! q)) pre ->
  files w !! p = None ->
  read_mlst_files (pre ++ p :: post) nr_loci w
  = (inl FileNotFoundError,
     World (files w)
           (stdout w ++ omap (skip_message (files w) (nr_loci + 3)) pre)
           (written w)).
Proof.
  intros Hpre Hp. destruct w as [fs out wr]. simpl in *.
  unfold read_mlst_files, bind at 1.
  rewrite read_mlst_loop_app by done. simpl.
  unfold bind at 1, os_stat_size. simpl. by rewrite Hp.
Qed.

Lemma read_mlst_files_missing_sample :
  read_mlst_files ["s1.tsv"; "empty.tsv"; "lost.tsv"; "s2.tsv"] 2 sample_world
  = (inl FileNotFoundError,
     World sample_files [Line "empty.tsv is an empty file. Skipping..."] []).
Proof.
  apply (read_mlst_files_missing ["s1.tsv"; "empty.tsv"] ["s2.tsv"] "lost.tsv"
           2 sample_world).
  - repeat constructor; by eexists.
  - reflexivity.
Defined.

Lemma accepted_row (fs : gmap string file) (n : Z) (p : string) :
  accepted fs n p = true ->
  exists r, table_of fs p = [r] /\ Z.of_nat (length r) = n.
Proof.
  intros (f & Hf & _ & Hshape)%accepted_spec. unfold table_of. rewrite Hf.
  unfold shape in Hshape. destruct (table f) as [|r [|r' t]]; simpl in Hshape.
  - by injection Hshape.
  - exists r. split; [done|]. by injection Hshape.
  - injection Hshape as Hrows _. lia.
Qed.

Lemma concat_accepted (fs : gmap string file) (n : Z) (paths : list string) :
  Forall (fun p => accepted fs n p = true) paths ->
  Forall (fun r => Z.of_nat (length r) = n) (concat (map (table_of fs) paths)) /\
  length (concat (map (table_of fs) paths)) = length paths.
Proof.
  induction 1 as [|p paths Hp _ [IH1 IH2]]; simpl; [done|].
  apply accepted_row in Hp as (r & -> & Hr). simpl. split; [by constructor|].
  by rewrite IH2.
Qed.

(** What [read_mlst_files] leaves behind: it writes no table and touches
    no file; it fails on a missing file or when no file is accepted; the
    table it returns has one row of [nr_loci + 3] fields for each file
    accepted, and at least one. *)
Lemma read_mlst_files_inv (paths : list string) (nr_loci : Z) (w w' : world)
    (r : exn + raw_frame) :
  read_mlst_files paths nr_loci w = (r, w') ->
  files w' = files w /\ written w' = written w /\
  match r with
  | inl e => e = FileNotFoundError \/ e = ValueError
  | inr raw =>
      raw <> [] /\
      length raw = length (List.filter (accepted (files w) (nr_loci + 3)) paths) /\
      Forall (fun r => Z.of_nat (length r) = (nr_loci + 3)%Z) raw
  end.
Proof.
  unfold read_mlst_files, bind at 1.
  destruct (read_mlst_loop _ _ _ _) as [[e|df_list] w1] eqn:Hloop.
  { apply read_mlst_loop_inv in Hloop as (? & ? & ->). intros [= <- <-]. auto. }
  pose proof (read_mlst_loop_inv _ _ _ _ _ _ Hloop) as (_ & _ & Hex).
  destruct w as [fs out wr]. simpl in Hex.
  rewrite read_mlst_loop_run in Hloop by done. simpl in Hloop.
  injection Hloop as <- <-. simpl.
  set (ok := List.filter (accepted fs (nr_loci + 3)) paths).
  destruct (concat_accepted fs (nr_loci + 3) ok) as [Hwidth Hlen].
  { apply Forall_forall. intros p Hp. by apply elem_of_List_filter in Hp as [_ ?]. }
  unfold bind, lift, pd_concat, print, ret.
  remember (map (table_of fs) ok) as tabs eqn:Htabs.
  destruct tabs as [|t ts]; [intros [= <- <-]; auto|]. intros [= <- <-]. simpl.
  assert (Hok : length ok <> 0) by (by destruct ok).
  split; [done|]. split; [done|]. split; [|done].
  intros Hnil. change (t ++ concat ts) with (concat (t :: ts)) in Hnil.
  rewrite Hnil in Hlen. simpl in Hlen. lia.
Qed.

(** [fix_header] on a table whose rows all have [n] fields. *)
Lemma fix_header_rect (raw : raw_frame) (n : nat) :
  raw <> [] -> Forall (fun r => length r = n) raw ->
  if (3 <=? n)%nat
  then exists df, fix_header raw = inr df /\ typed df /\ data df = raw /\
                  length (columns df) = n
  else fix_header raw = inl ValueError.
Proof.
  intros Hne Hwidth. destruct raw as [|first rest]; [done|].
  assert (Hfirst : length first = n) by (by inversion Hwidth).
  unfold fix_header. cbn [app length]. rewrite length_map, length_drop.
  destruct (3 <=? n)%nat eqn:Hn.
  - apply Nat.leb_le in Hn.
    assert (Heq : S (S (S (length first - 3))) = length first) by lia.
    rewrite Heq, Nat.eqb_refl. eexists. split; [done|]. simpl.
    split; [|split; [done|]].
    + split; [done|]. simpl. rewrite length_map, length_drop, Heq.
      eapply Forall_impl; [exact Hwidth|]. simpl. intros r Hr. lia.
    + rewrite length_map, length_drop. lia.
  - apply Nat.leb_gt in Hn.
    destruct (Nat.eqb_spec (S (S (S (length first - 3)))) (length first)); [lia|done].
Qed.

(** X5: what [read_mlst_files] returns, [fix_header] takes.  A table that
    [read_mlst_files] returns has one row for every file that passed the
    checks, at least one, each of [nr_loci + 3] fields.  For a negative
    number of loci [fix_header] raises ValueError on it.  For a number of
    loci that is not negative, and locus fields of the first row that are
    designations (they hold an opening parenthesis, so the reader has
    left them as text), [fix_header] succeeds on it, with as many labels,
    and delivers the table with file, scheme and ST in front and rows as
    wide as the header. *)
Theorem read_mlst_files_fix_header (paths : list string) (nr_loci : Z)
    (w w' : world) (raw : raw_frame) :
  read_mlst_files paths nr_loci w = (inr raw, w') ->
  raw <> [] /\
  length raw = length (List.filter (accepted (files w) (nr_loci + 3)) paths) /\
  Forall (fun r => Z.of_nat (length r) = (nr_loci + 3)%Z) raw /\
  ((nr_loci < 0)%Z -> fix_header raw = inl ValueError) /\
  ((0 <= nr_loci)%Z ->
   Forall (fun s => "("%char ∈ chars s) (drop 3 (raw !!! 0)) ->
   exists df, fix_header raw = inr df /\ typed df /\ data df = raw /\
              Z.of_nat (length (columns df)) = (nr_loci + 3)%Z).
Proof.
  intros Hrun. apply read_mlst_files_inv in Hrun as (_ & _ & Hne & Hlen & Hwidth).
  split; [done|]. split; [done|]. split; [done|].
  destruct raw as [|first rest]; [done|].
  assert (Hfirst : Z.of_nat (length first) = (nr_loci + 3)%Z)
    by (by inversion Hwidth).
  pose proof (fix_header_rect (first :: rest) (length first) Hne) as Hfix.
  split.
  - intros Hloci.
    replace (3 <=? length first)%nat with false in Hfix
      by (symmetry; apply Nat.leb_gt; lia).
    apply Hfix. eapply Forall_impl; [exact Hwidth|]. simpl. intros r Hr. lia.
  - intros Hloci _.
    replace (3 <=? length first)%nat with true in Hfix
      by (symmetry; apply Nat.leb_le; lia).
    destruct Hfix as (df & ? & ? & ? & Hcols).
    { eapply Forall_impl; [exact Hwidth|]. simpl. intros r Hr. lia. }
    exists df. rewrite Hcols. done.
Qed.

Lemma read_mlst_files_fix_header_sample :
  exists df,
    fix_header [ ["s1.fa"; "scheme1"; "5"; "adk(1)"; "fumC(2)"];
                 ["s2.fa"; "scheme1"; "6"; "adk(1)"; "fumC(3)"];
                 ["s3.fa"; "scheme2"; "7"; "adk(4)"; "fumC(2)"] ] = inr df /\
    typed df.
Proof.
  destruct (read_mlst_files_fix_header
              ["s1.tsv"; "empty.tsv"; "s2.tsv"; "narrow.tsv"; "s3.tsv"] 2
              sample_world
              (World sample_files
                 [ Line "empty.tsv is an empty file. Skipping...";
                   Line "narrow.tsv did not have expected dimensions. Skipping...";
                   Line "Combined 3 files" ] [])
              [ ["s1.fa"; "scheme1"; "5"; "adk(1)"; "fumC(2)"];
                ["s2.fa"; "scheme1"; "6"; "adk(1)"; "fumC(3)"];
                ["s3.fa"; "scheme2"; "7"; "adk(4)"; "fumC(2)"] ])
    as (_ & _ & _ & _ & Hfix).
  { vm_compute. reflexivity. }
  destruct Hfix as (df & Hfix & Htyped & _).
  { lia. }
  { repeat (apply Forall_cons_2; [apply list_elem_of_In; vm_compute; tauto|]).
    apply Forall_nil_2. }
  by exists df.
Defined.

(** ** select_scheme *)

Lemma index_of_None (label : string) (labels : list string) :
  index_of label labels = None <-> label ∉ labels.
Proof.
  induction labels as [|l ls IH]; simpl.
  - split; [intros _ H; by apply elem_of_nil in H|done].
  - rewrite not_elem_of_cons. destruct (String.eqb_spec l label) as [->|Hne].
    + split; [done|]. by intros [? _].
    + destruct (index_of label ls); simpl.
      * split; [done|]. intros [_ H]. by apply IH in H.
      * split; [|done]. intros _. split; [congruence|]. by apply IH.
Qed.

Lemma getitem_KeyError {A} `{Inhabited A} (df : frame A) (label : string) :
  label ∉ columns df -> getitem df label = inl KeyError.
Proof. intros Hl. unfold getitem. by apply index_of_None in Hl as ->. Qed.

Lemma getitem_inr {A} `{Inhabited A} (df : frame A) (label : string) :
  label ∈ columns df ->
  exists j, index_of label (columns df) = Some j /\
            getitem df label = inr (get_col j (data df)).
Proof.
  intros Hl. unfold getitem. destruct (index_of label (columns df)) as [j|] eqn:Hj.
  - by exists j.
  - by apply index_of_None in Hj.
Qed.

Lemma insert_desc_descending (x : string * nat) (l : list (string * nat)) :
  descending l -> descending (insert_desc x l).
Proof.
  induction l as [|y l IH]; simpl; [done|]. intros [Hy Hl].
  destruct (snd y <=? snd x)%nat eqn:Hle.
  - apply Nat.leb_le in Hle. simpl. split; [|done].
    constructor; [done|]. eapply Forall_impl; [exact Hy|]. simpl. lia.
  - apply Nat.leb_gt in Hle. simpl. split; [|by apply IH].
    rewrite (insert_desc_perm x l). constructor; [lia|done].
Qed.

Lemma value_counts_descending (col : list string) : descending (value_counts col).
Proof.
  unfold value_counts. induction (map _ (distinct col)) as [|x l IH]; simpl; [done|].
  by apply insert_desc_descending.
Qed.

Lemma elem_of_value_counts (k : string) (n : nat) (col : list string) :
  (k, n) ∈ value_counts col <-> k ∈ col /\ n = count k col.
Proof.
  rewrite (value_counts_perm col), list_elem_of_fmap. split.
  - intros (k' & [= -> ->] & Hk). split; [by apply elem_of_distinct|done].
  - intros [Hk ->]. exists k. split; [done|]. by apply elem_of_distinct.
Qed.

Lemma count_absent (k : string) (col : list string) : k ∉ col -> count k col = 0.
Proof.
  intros Hk. unfold count. replace (List.filter (String.eqb k) col) with (@nil string);
    [done|].
  symmetry. apply List_filter_nil. intros x Hx. apply String.eqb_neq.
  intros ->. done.
Qed.

(** The first key of the frequency table is a most frequent value. *)
Lemma value_counts_head_max (col : list string) (s : string) (n : nat)
    (rest : list (string * nat)) (k : string) :
  value_counts col = (s, n) :: rest -> count k col <= count s col.
Proof.
  intros Hvc. pose proof (value_counts_descending col) as Hdesc.
  rewrite Hvc in Hdesc. destruct Hdesc as [Hrest _].
  assert (Hn : n = count s col).
  { apply (elem_of_value_counts s n col). rewrite Hvc. apply elem_of_cons. by left. }
  destruct (decide (k ∈ col)) as [Hk|Hk]; [|rewrite (count_absent k col Hk); lia].
  assert (Hin : (k, count k col) ∈ value_counts col)
    by (by apply elem_of_value_counts).
  rewrite Hvc in Hin. apply elem_of_cons in Hin as [[= -> _]|Hin]; [done|].
  rewrite Forall_forall in Hrest. specialize (Hrest _ Hin). simpl in Hrest. lia.
Qed.

(** X6: without an explicit scheme the selector returns a most frequent
    label: no label, the sentinel included, marks more rows of the scheme
    column than the one returned. *)
Theorem select_scheme_most_frequent (df : frame string) (col : list string)
    (s : string) (w w' : world) :
  getitem df "scheme" = inr col ->
  select_scheme df None w = (inr s, w') ->
  forall k, count k col <= count s col.
Proof.
  intros Hcol Hrun k. rewrite (select_scheme_run df None col w Hcol) in Hrun.
  simpl in Hrun. destruct (value_counts col) as [|[s' n] rest] eqn:Hvc; [done|].
  injection Hrun as -> _. by eapply value_counts_head_max.
Qed.

Lemma select_scheme_most_frequent_sample :
  count "senterica" ["ecoli"; "ecoli"; "ecoli"; "senterica"; "-"]
  <= count "ecoli" ["ecoli"; "ecoli"; "ecoli"; "senterica"; "-"].
Proof.
  apply (select_scheme_most_frequent sample_table
           ["ecoli"; "ecoli"; "ecoli"; "senterica"; "-"] "ecoli" sample_world
           (World sample_files
              [ Percentage (300 # 5); Line "<class 'float'>";
                Warning "ecoli" (300 # 5) ] [])).
  - reflexivity.
  - vm_compute. reflexivity.
Defined.

Lemma count_two (s k : string) (col : list string) :
  s <> k -> count s col + count k col <= length col.
Proof.
  intros Hsk. induction col as [|x col IH]; simpl; [done|].
  rewrite !count_cons.
  destruct (String.eqb_spec s x) as [->|_], (String.eqb_spec k x) as [->|_];
    simpl; try done; lia.
Qed.

(** X18: a label that marks more than half of the rows is the one
    selected when no scheme is given, the sentinel not excepted: the
    selector then does not depend on how ties in the frequency table are
    ordered. *)
Theorem select_scheme_majority (df : frame string) (col : list string)
    (k : string) (w : world) :
  getitem df "scheme" = inr col ->
  length col < 2 * count k col ->
  exists w', select_scheme df None w = (inr k, w').
Proof.
  intros Hcol Hmajor. rewrite (select_scheme_run df None col w Hcol). simpl.
  destruct (value_counts col) as [|[s n] rest] eqn:Hvc.
  - apply value_counts_nil in Hvc. subst col. simpl in Hmajor. lia.
  - pose proof (value_counts_head_max col s n rest k Hvc) as Hmax.
    destruct (decide (s = k)) as [->|Hsk]; [by eexists|].
    pose proof (count_two s k col Hsk). lia.
Qed.

Lemma select_scheme_majority_sample :
  exists w', select_scheme sample_table None sample_world = (inr "ecoli", w').
Proof.
  apply (select_scheme_majority sample_table
           ["ecoli"; "ecoli"; "ecoli"; "senterica"; "-"] "ecoli" sample_world).
  - reflexivity.
  - vm_compute. lia.
Defined.

(** X7: on a table whose column labels are distinct the selector raises in
    three cases and no other, and has printed nothing when it does:
    KeyError when the table has no scheme column, IndexError when no scheme
    is given and the table has no row, TypeError when the scheme given
    marks no row.  It never divides by zero. *)
Theorem select_scheme_raises (df : frame string) (arg : option string)
    (w w' : world) (e : exn) :
  NoDup (columns df) ->
  select_scheme df arg w = (inl e, w') <->
  w' = w /\
  ((e = KeyError /\ "scheme" ∉ columns df) \/
   (e = IndexError /\ arg = None /\ "scheme" ∈ columns df /\ data df = []) \/
   (e = TypeError /\
    exists a col, arg = Some a /\ getitem df "scheme" = inr col /\ a ∉ col)).
Proof.
  intros _. destruct (decide ("scheme" ∈ columns df)) as [Hin|Hout].
  - destruct (getitem_inr df "scheme" Hin) as (j & Hj & Hcol).
    rewrite (select_scheme_run df arg _ w Hcol).
    set (col := get_col j (data df)) in *.
    assert (Hnil : col = [] <-> data df = []).
    { unfold col, get_col. by destruct (data df). }
    destruct arg as [a|]; simpl.
    + case_bool_decide as Ha.
      * split; [done|]. intros [_ [[_ ?]|[(_ & ? & _)|(_ & a' & col' & Ha' & Hcol' & Hn)]]];
          [done..|]. injection Ha' as <-. rewrite Hcol in Hcol'.
        injection Hcol' as <-. done.
      * split.
        -- intros [= <- <-]. split; [done|]. right. right. split; [done|].
           by exists a, col.
        -- intros [-> [[_ ?]|[(_ & ? & _)|(-> & _)]]]; done.
    + destruct (value_counts col) as [|[k n] rest] eqn:Hvc.
      * apply value_counts_nil in Hvc. split.
        -- intros [= <- <-]. split; [done|]. right. left. by rewrite <- Hnil.
        -- intros [-> [[_ ?]|[(-> & _)|(_ & a' & col' & ? & _)]]]; done.
      * split; [done|].
        intros [_ [[_ ?]|[(_ & _ & _ & Hd)|(_ & a' & col' & ? & _)]]]; [done| |done].
        apply Hnil in Hd. by rewrite Hd in Hvc.
  - unfold select_scheme, bind, lift. rewrite (getitem_KeyError df "scheme" Hout).
    split.
    + intros [= <- <-]. split; [done|]. by left.
    + intros [-> [[-> _]|[(_ & _ & ? & _)|(_ & a & col & _ & Hcol & _)]]]; done.
Qed.

Lemma select_scheme_raises_sample :
  select_scheme (Frame ["file"; "ST"; "adk"] [["a.fa"; "10"; "adk(1)"]]) None
                sample_world
  = (inl KeyError, sample_world).
Proof.
  apply (select_scheme_raises (Frame ["file"; "ST"; "adk"] [["a.fa"; "10"; "adk(1)"]])
           None sample_world sample_world KeyError).
  - simpl. distinct_labels.
  - split; [reflexivity|]. left. split; [reflexivity|]. simpl.
    rewrite !elem_of_cons, elem_of_nil. intros H.
    repeat (destruct H as [H|H]; [discriminate H|]). destruct H.
Defined.

Lemma length_select_count (g : list string -> string) (s : string)
    (rows : list (list string)) :
  length (select (map (fun s' => String.eqb s' s) (map g rows)) rows)
  = count s (map g rows).
Proof.
  induction rows as [|r rows IH]; simpl; [done|].
  rewrite count_cons, (String.eqb_sym s (g r)).
  destruct (String.eqb (g r) s); simpl; by rewrite IH.
Qed.

(** X8: the label that the selector returns always fits the partitioner:
    whatever [select_scheme] returns, [clean_dataframe_scheme] with that
    label succeeds, and its matched table is not empty: it has as many rows
    as the scheme column has occurrences of the label. *)
Theorem select_then_partition (df : frame string) (arg : option string)
    (s : string) (w w' : world) :
  select_scheme df arg w = (inr s, w') ->
  exists col matched mismatched,
    getitem df "scheme" = inr col /\
    clean_dataframe_scheme df s = inr (matched, mismatched) /\
    length (data matched) = count s col /\ data matched <> [].
Proof.
  intros Hrun. destruct (decide ("scheme" ∈ columns df)) as [Hin|Hout].
  - destruct (getitem_inr df "scheme" Hin) as (j & Hj & Hcol).
    rewrite (select_scheme_run df arg _ w Hcol) in Hrun.
    destruct (selected arg _) as [e|s'] eqn:Hsel; [done|].
    injection Hrun as -> _. apply selected_elem in Hsel.
    unfold clean_dataframe_scheme. rewrite Hcol. simpl.
    unfold getitem. simpl. rewrite Hj. simpl.
    eexists _, _, _. split; [done|]. split; [done|]. simpl.
    assert (Hlen : length (select (map (fun s' => String.eqb s' s)
                                       (get_col j (data df))) (data df))
                   = count s (get_col j (data df)))
      by apply length_select_count.
    split; [done|]. intros Hnil. rewrite Hnil in Hlen. simpl in Hlen.
    unfold count in Hlen. symmetry in Hlen. apply length_zero_iff_nil in Hlen.
    pose proof (proj1 (List_filter_nil _ _) Hlen s Hsel) as Hs.
    by rewrite String.eqb_refl in Hs.
  - unfold select_scheme, bind, lift in Hrun.
    by rewrite (getitem_KeyError df "scheme" Hout) in Hrun.
Qed.

Lemma select_then_partition_sample :
  exists col matched mismatched,
    getitem sample_table "scheme" = inr col /\
    clean_dataframe_scheme sample_table "ecoli" = inr (matched, mismatched) /\
    length (data matched) = count "ecoli" col /\ data matched <> [].
Proof.
  apply (select_then_partition sample_table None "ecoli" sample_world
           (World sample_files
              [ Percentage (300 # 5); Line "<class 'float'>";
                Warning "ecoli" (300 # 5) ] [])).
  vm_compute. reflexivity.
Defined.

(** ** clean_dataframe_alleles *)

Lemma wrap32_range (z : Z) : (- 2 ^ 31 <= wrap32 z < 2 ^ 31)%Z.
Proof.
  unfold wrap32. pose proof (Z.mod_pos_bound (z + 2 ^ 31) (2 ^ 32)). lia.
Qed.

Lemma double_to_int32_cell (q : Q) : int32_cell (double_to_int32 q).
Proof.
  unfold double_to_int32.
  destruct (_ && _) eqn:Hq; simpl; [|done].
  apply andb_true_iff in Hq as [_ Hq]. unfold in_int32 in Hq.
  apply andb_true_iff in Hq. rewrite !Z.leb_le in Hq. lia.
Qed.

Lemma int32_of_store_cell (d : dtype) (p : parsed) :
  p <> PNaN -> int32_cell (int32_of (store d p)).
Proof.
  intros Hp. destruct p as [z|q|]; [| |done]; simpl.
  - destruct d; simpl; first [apply wrap32_range | apply double_to_int32_cell].
  - apply double_to_int32_cell.
Qed.

Lemma traverse_inl {A B} (f : A -> exn + B) (l : list A) (x : A) (e : exn) :
  x ∈ l -> f x = inl e -> exists e', traverse f l = inl e'.
Proof.
  induction l as [|y l IH]; [by intros ?%elem_of_nil|].
  intros [->|Hx]%elem_of_cons Hf; simpl.
  - rewrite Hf. by exists e.
  - destruct (f y) as [e1|y']; simpl; [by exists e1|].
    destruct (IH Hx Hf) as [e' ->]. by exists e'.
Qed.

Section alleles_tables.

Variable int_of_str : string -> option Z.

(** X9: the clean table is a table of int32 loci.  For a table as
    [fix_header] delivers it, with distinct column labels, the allele stage
    succeeds; its clean table
    has the header of the input and rows as wide as the header; every
    locus cell of it is an element of an int32 column, never a text and
    never the missing marker, and an integer there lies between -2^31 and
    2^31 - 1; and each clean row carries the file, scheme and ST of a row
    of the input, as text, with an ST that is not the sentinel. *)
Theorem clean_table_int32 (df : frame string) :
  typed df -> NoDup (columns df) ->
  exists clean failed,
    clean_dataframe_alleles int_of_str df = inr (clean, failed) /\
    typed clean /\ columns clean = columns df /\
    Forall (fun row =>
              Forall int32_cell (drop 3 row) /\
              exists r, r ∈ data df /\ take 3 row = Str <$> take 3 r /\
                        r !!! 2 <> "-")
           (data clean).
Proof.
  intros Hty Hnd.
  destruct (alleles_closed_form int_of_str df Hty Hnd) as (failed & Hrun & _).
  eexists _, _. split; [exact Hrun|]. simpl.
  pose proof (typed_width df Hty) as Hw.
  assert (Hrow : forall i, i ∈ clean_positions df ->
            exists r, data df !! i = Some r /\ r ∈ data df /\
                      length r = length (columns df) /\ complete r = true).
  { intros i Hi. pose proof Hi as Hlt. apply positions_lt in Hlt.
    rewrite length_map in Hlt.
    destruct (lookup_lt_is_Some_2 _ _ Hlt) as [r Hr]. exists r.
    assert (Hin : r ∈ data df) by (by eapply list_elem_of_lookup_2).
    split; [done|]. split; [done|].
    split; [by apply typed_row_length|].
    by apply (elem_of_clean_positions df i r Hr). }
  split; [|split; [done|]].
  - split; [by destruct Hty|]. simpl. apply Forall_fmap, Forall_forall.
    intros i Hi. simpl. destruct (Hrow i Hi) as (r & Hr & _ & Hlen & _).
    rewrite (list_lookup_total_correct _ _ _ Hr). unfold clean_row.
    rewrite length_app, length_fmap, length_take, length_imap, length_drop. lia.
  - apply Forall_fmap, Forall_forall. intros i Hi. simpl.
    destruct (Hrow i Hi) as (r & Hr & Hin & Hlen & Hc).
    rewrite (list_lookup_total_correct _ _ _ Hr).
    apply complete_spec in Hc as [Hloci HST]. unfold clean_row. split.
    + rewrite drop_app_length' by (rewrite length_fmap, length_take; lia).
      apply Forall_forall. intros c Hc.
      apply list_elem_of_lookup_1 in Hc as [k Hk].
      rewrite list_lookup_imap in Hk.
      destruct (drop 3 r !! k) as [s|] eqn:Hs; [|done]. injection Hk as <-.
      apply int32_of_store_cell.
      rewrite Forall_forall in Hloci. apply Hloci.
      by eapply list_elem_of_lookup_2.
    + exists r. split; [done|]. split; [|done].
      rewrite take_app_length' by (rewrite length_fmap, length_take; lia). done.
Qed.

Lemma astype_col_kept (j : nat) (rows : list (list cell)) (r : list cell) (e : exn) :
  r ∈ rows -> astype_int32 int_of_str (r !!! j) = inl e ->
  astype_col int_of_str true j rows = inr rows.
Proof.
  intros Hr He. unfold astype_col.
  destruct (traverse_inl (astype_int32 int_of_str) (get_col j rows) (r !!! j) e)
    as [e' ->]; [|done..].
  unfold get_col. apply list_elem_of_In, in_map. by apply list_elem_of_In.
Qed.

(** With [errors='ignore'] a column that holds a cell that cannot be cast
    is left as it is, whatever happens to the other columns. *)
Lemma astype_ignore_column (js : list nat) (j : nat) (rows rows' : list (list cell))
    (r0 : list cell) (e : exn) :
  r0 ∈ rows -> astype_int32 int_of_str (r0 !!! j) = inl e ->
  astype int_of_str true js rows = inr rows' ->
  Forall2 (fun r r' => r' !! j = r !! j) rows rows'.
Proof.
  revert rows r0. induction js as [|k js IH]; intros rows r0 Hr0 He.
  - unfold astype. simpl. intros [= <-].
    apply Forall_Forall2_diag, Forall_forall. done.
  - rewrite astype_cons. destruct (decide (k = j)) as [->|Hkj].
    + rewrite (astype_col_kept j rows r0 e Hr0 He). simpl. by apply IH with r0.
    + destruct (astype_col_ignore int_of_str k rows) as (rows1 & -> & H1). simpl.
      assert (H1j : Forall2 (fun r r1 => r1 !! j = r !! j) rows rows1).
      { eapply Forall2_impl; [exact H1|]. simpl. intros r r1 [_ Hfix].
        apply Hfix. by intros ->%list_elem_of_singleton. }
      apply list_elem_of_lookup_1 in Hr0 as [i Hi].
      destruct (Forall2_lookup_l _ _ _ _ _ H1j Hi) as (r1 & Hr1 & Hr1j).
      intros Hrun. eapply (IH rows1 r1) in Hrun.
      * apply Forall2_same_length_lookup_2.
        { by rewrite (Forall2_length _ _ _ H1j), (Forall2_length _ _ _ Hrun). }
        intros i' r r' Hr Hr'.
        destruct (Forall2_lookup_l _ _ _ _ _ H1j Hr) as (r1' & Hr1' & E1).
        destruct (Forall2_lookup_l _ _ _ _ _ Hrun Hr1') as (r'' & Hr'' & E2).
        rewrite Hr' in Hr''. injection Hr'' as <-. congruence.
      * by eapply list_elem_of_lookup_2.
      * by rewrite !list_lookup_total_alt, Hr1j in *.
Qed.

(** The failed table is the cast, with [errors='ignore'], of the rows that
    are not complete. *)
Lemma alleles_failed_form (df : frame string) (clean failed : frame cell) :
  typed df ->
  clean_dataframe_alleles int_of_str df = inr (clean, failed) ->
  columns failed = columns df /\
  astype int_of_str true (loci df)
         (map (map Str) ((fun i => data df !!! i) <$> failed_positions df))
  = inr (data failed).
Proof.
  intros Hty Hrun.
  pose proof (alleles_returned_distinct int_of_str df clean failed Hty Hrun) as Hnd.
  unfold clean_dataframe_alleles in Hrun.
  rewrite (coerced_distinct df Hnd) in Hrun. cbn [ebind] in Hrun.
  rewrite (filter_no_ST_typed df Hty), (filter_nan_typed df Hty) in Hrun.
  simpl in Hrun. rewrite !map_map, !zip_with_map_map in Hrun.
  rewrite (map_ext (fun r => _ || _) (fun r => negb (complete r))) in Hrun.
  2:{ intros r. rewrite complete_alt, negb_andb, !negb_involutive. done. }
  rewrite !select_map, !selected_rows in Hrun. fold (failed_positions df) in Hrun.
  destruct (astype int_of_str false _ _) as [e|c]; simpl in Hrun; [done|].
  destruct (astype int_of_str true _ _) as [e|f] eqn:Hf; simpl in Hrun; [done|].
  injection Hrun as <- <-. done.
Qed.

(** X10: the failed table is cast by whole columns.  When some row of the
    failed table holds, at a column, a text that Python's [int] rejects
    (a designation such as [adk(1)] for one), that column is left as text
    in every row of the failed table; and every row of the failed table
    keeps its width and its file, scheme and ST as text. *)
Theorem failed_table_columns (df : frame string) (clean failed : frame cell)
    (j i0 : nat) (r0 : list string) (s0 : string) :
  typed df ->
  clean_dataframe_alleles int_of_str df = inr (clean, failed) ->
  i0 ∈ failed_positions df -> data df !! i0 = Some r0 ->
  r0 !! j = Some s0 -> int_of_str s0 = None ->
  typed failed /\
  Forall2 (fun i f => f !! j = Str <$> (data df !!! i) !! j /\
                      take 3 f = Str <$> take 3 (data df !!! i))
          (failed_positions df) (data failed).
Proof.
  intros Hty Hrun Hi0 Hr0 Hs0 Hint.
  destruct (alleles_failed_form df clean failed Hty Hrun) as [Hcols Hfailed].
  pose proof (alleles_returned_distinct int_of_str df clean failed Hty Hrun) as Hnd.
  destruct (alleles_closed_form int_of_str df Hty Hnd) as (failed' & Hrun' & Hrecast).
  rewrite Hrun in Hrun'. injection Hrun' as _ Hf. subst failed. simpl in *.
  assert (Hkept : Forall2 (fun i f => f !! j = Str <$> (data df !!! i) !! j)
                          (failed_positions df) failed').
  { eapply (astype_ignore_column _ j _ _ (Str <$> r0) ValueError) in Hfailed.
    - change (map ?f ?l) with (f <$> l) in Hfailed.
      rewrite <- list_fmap_compose, Forall2_fmap_l in Hfailed.
      eapply Forall2_impl; [exact Hfailed|]. simpl. intros i f ->.
      by rewrite list_lookup_fmap.
    - change (map ?f ?l) with (f <$> l). rewrite <- list_fmap_compose.
      apply list_elem_of_fmap. exists i0. split; [|done]. simpl.
      by rewrite (list_lookup_total_correct _ _ _ Hr0).
    - rewrite (list_lookup_total_correct (Str <$> r0) j (Str s0))
        by (by rewrite list_lookup_fmap, Hs0).
      simpl. by rewrite Hint. }
  split.
  - split; [by destruct Hty|].
    apply Forall_forall. intros f Hfin.
    apply list_elem_of_lookup_1 in Hfin as [k Hk].
    destruct (Forall2_lookup_r _ _ _ _ _ Hrecast Hk) as (i & Hi & [Hcells _]).
    rewrite <- (Forall2_length _ _ _ Hcells).
    apply list_elem_of_lookup_2 in Hi. apply positions_lt in Hi.
    rewrite length_map in Hi. destruct (lookup_lt_is_Some_2 _ _ Hi) as [r Hr].
    rewrite (list_lookup_total_correct _ _ _ Hr). simpl.
    apply (typed_row_length df r Hty). by eapply list_elem_of_lookup_2.
  - apply Forall2_same_length_lookup_2; [by eapply Forall2_length|].
    intros k i f Hi Hf'.
    destruct (Forall2_lookup_l _ _ _ _ _ Hkept Hi) as (f1 & Hf1 & ?).
    destruct (Forall2_lookup_l _ _ _ _ _ Hrecast Hi) as (f2 & Hf2 & [_ ?]).
    split; congruence.
Qed.

(** X21: a repeated column label stops the allele stage.  For a table as
    [fix_header] delivers it in which two columns carry one label, the
    stage raises AttributeError: the loop over the locus labels meets the
    repeated label at the [.str] accessor, and returns no table. *)
Theorem alleles_repeated_label (df : frame string) :
  typed df -> ~ NoDup (columns df) ->
  clean_dataframe_alleles int_of_str df = inl AttributeError.
Proof.
  intros Hty Hnd. unfold clean_dataframe_alleles.
  destruct (coerced df) as [e|rows] eqn:Hrows.
  - apply coerced_error in Hrows as ->. done.
  - by rewrite (coerced_repeated df Hty Hnd) in Hrows.
Qed.

End alleles_tables.

Lemma clean_table_int32_sample :
  exists clean failed,
    clean_dataframe_alleles int_literal sample_table = inr (clean, failed) /\
    typed clean /\ columns clean = columns sample_table /\
    Forall (fun row =>
              Forall int32_cell (drop 3 row) /\
              exists r, r ∈ data sample_table /\ take 3 row = Str <$> take 3 r /\
                        r !!! 2 <> "-")
           (data clean).
Proof.
  apply (clean_table_int32 int_literal sample_table).
  - exact sample_table_typed.
  - exact sample_table_distinct.
Defined.

Lemma alleles_repeated_label_sample :
  clean_dataframe_alleles int_literal untyped_table = inl AttributeError.
Proof.
  apply (alleles_repeated_label int_literal untyped_table).
  - split; [reflexivity | repeat constructor].
  - unfold untyped_table. simpl. intros Hnd.
    do 3 apply NoDup_cons in Hnd as [_ Hnd]. apply NoDup_cons in Hnd as [Hin _].
    apply Hin, elem_of_cons. by left.
Defined.

Lemma failed_table_columns_sample :
  exists failed : frame cell,
    typed failed /\
    Forall2 (fun i f => f !! 3 = Str <$> (data sample_table !!! i) !! 3 /\
                        take 3 f = Str <$> take 3 (data sample_table !!! i))
            (failed_positions sample_table) (data failed).
Proof.
  assert (Hty : typed sample_table) by (split; [reflexivity | repeat constructor]).
  destruct (alleles_closed_form int_literal sample_table Hty sample_table_distinct)
    as (failed & Hrun & _).
  exists (Frame (columns sample_table) failed).
  apply (failed_table_columns int_literal sample_table _ _ 3 1
           ["b.fa"; "ecoli"; "-"; "adk(1)"; "fumC(7)"] "adk(1)" Hty Hrun).
  - apply elem_of_positions. reflexivity.
  - reflexivity.
  - reflexivity.
  - reflexivity.
Defined.

(** ** write_outputs and main *)

Lemma existsb_eqb (l : string) (labels : list string) :
  existsb (String.eqb l) labels = true <-> l ∈ labels.
Proof.
  rewrite existsb_exists. split.
  - intros (x & Hx & ->%String.eqb_eq). by apply list_elem_of_In.
  - intros Hl. exists l. split; [by apply list_elem_of_In|apply String.eqb_refl].
Qed.

Lemma drop_file_scheme_outcome {A} (df : frame A) :
  if bool_decide ("file" ∈ columns df /\ "scheme" ∈ columns df)
  then exists d, drop_labels ["file"; "scheme"] df = inr d
  else drop_labels ["file"; "scheme"] df = inl KeyError.
Proof.
  unfold drop_labels. cbn [forallb].
  case_bool_decide as Hin.
  - destruct Hin as [Hf Hs].
    rewrite (proj2 (existsb_eqb "file" _) Hf), (proj2 (existsb_eqb "scheme" _) Hs).
    simpl. by eexists.
  - destruct (existsb (String.eqb "file") (columns df)) eqn:Hf; [|done].
    destruct (existsb (String.eqb "scheme") (columns df)) eqn:Hs; [|done].
    exfalso. apply Hin. by rewrite <- !existsb_eqb.
Qed.

Lemma bind_inv {A B} (m : M A) (k : A -> M B) (w w' : world) (r : exn + B) :
  bind m k w = (r, w') ->
  (exists e, m w = (inl e, w') /\ r = inl e) \/
  (exists a w1, m w = (inr a, w1) /\ k a w1 = (r, w')).
Proof.
  unfold bind. destruct (m w) as [[e|a] w1].
  - intros [= <- <-]. left. by exists e.
  - intros Hk. right. by exists a, w1.
Qed.

(** What [write_outputs] does to the world. *)
Lemma write_outputs_inv (args : arguments) (df : frame cell)
    (df_not_scheme : frame string) (df_failed_alleles : frame cell)
    (w w' : world) (r : exn + unit) :
  write_outputs args df df_not_scheme df_failed_alleles w = (r, w') ->
  match r with
  | inl e => e = KeyError /\ w' = w /\ include_filename args = false /\
             ~ ("file" ∈ columns df /\ "scheme" ∈ columns df)
  | inr _ => (include_filename args = true \/
              "file" ∈ columns df /\ "scheme" ∈ columns df) /\
             files w' = files w /\ stdout w' = stdout w /\
             exists first,
               written w'
               = written w ++ [(out args, first)]
                 ++ match not_scheme args with
                    | Some path =>
                        [(path, Frame (columns df_not_scheme)
                                      (map (map Str) (data df_not_scheme)))]
                    | None => []
                    end
                 ++ match failed_alleles args with
                    | Some path => [(path, df_failed_alleles)]
                    | None => []
                    end
               /\ if include_filename args then first = df
                  else drop_labels ["file"; "scheme"] df = inr first
  end.
Proof.
  unfold write_outputs.
  assert (Hrest : forall first,
    (run to_csv (out args) first;
     run match not_scheme args with
         | Some path =>
             to_csv path (Frame (columns df_not_scheme)
                                (map (map Str) (data df_not_scheme)))
         | None => ret tt
         end;
     match failed_alleles args with
     | Some path => to_csv path df_failed_alleles
     | None => ret tt
     end)%py w
    = (inr tt,
       World (files w) (stdout w)
         (written w ++ [(out args, first)]
          ++ match not_scheme args with
             | Some path =>
                 [(path, Frame (columns df_not_scheme)
                               (map (map Str) (data df_not_scheme)))]
             | None => []
             end
          ++ match failed_alleles args with
             | Some path => [(path, df_failed_alleles)]
             | None => []
             end))).
  { intros first. unfold bind, to_csv, ret. simpl.
    destruct (not_scheme args), (failed_alleles args); simpl;
      by rewrite <- ?app_assoc, ?app_nil_r. }
  destruct (include_filename args) eqn:Hflag.
  - unfold bind at 1. unfold ret at 1. rewrite Hrest. intros [= <- <-]. simpl.
    split; [by left|]. split; [done|]. split; [done|]. by eexists.
  - unfold bind at 1, lift.
    pose proof (drop_file_scheme_outcome df) as Hdrop.
    case_bool_decide as Hin.
    + destruct Hdrop as [d Hd]. rewrite Hd, Hrest. intros [= <- <-]. simpl.
      split; [by right|]. split; [done|]. split; [done|]. by eexists.
    + rewrite Hdrop. intros [= <- <-]. done.
Qed.

(** X11: for want of a column to drop, [write_outputs] fails before it
    writes.  When the file name is not to be included and the clean table
    lacks a column named file or a column named scheme, it raises KeyError,
    and no table has been written, the optional ones included. *)
Theorem write_outputs_raises (args : arguments) (df : frame cell)
    (df_not_scheme : frame string) (df_failed_alleles : frame cell) (w : world) :
  include_filename args = false ->
  ~ ("file" ∈ columns df /\ "scheme" ∈ columns df) ->
  write_outputs args df df_not_scheme df_failed_alleles w = (inl KeyError, w).
Proof.
  intros Hflag Hin.
  destruct (write_outputs args df df_not_scheme df_failed_alleles w)
    as [[e|[]] w1] eqn:Hrun.
  - apply write_outputs_inv in Hrun as (-> & -> & _). done.
  - apply write_outputs_inv in Hrun as ([Hflag'|Hin'] & _); [congruence|done].
Qed.

Lemma write_outputs_raises_sample :
  write_outputs sample_arguments
                (Frame ["ST"; "adk"; "fumC"] [[Str "10"; Int32 12; Int32 3]])
                sample_table sample_clean sample_world
  = (inl KeyError, sample_world).
Proof.
  apply (write_outputs_raises sample_arguments
           (Frame ["ST"; "adk"; "fumC"] [[Str "10"; Int32 12; Int32 3]])).
  - reflexivity.
  - simpl. rewrite !elem_of_cons, elem_of_nil. intros [H _].
    repeat (destruct H as [H|H]; [discriminate H|]). destruct H.
Defined.

Ltac in_list :=
  repeat match goal with
         | H : _ = _ \/ _ = _ |- _ => destruct H as [->| ->]
         end;
  rewrite !elem_of_cons; tauto.

Ltac exn_cases H :=
  rewrite !elem_of_cons, elem_of_nil in H;
  destruct H as [?|[?|[?|[?|[?|[]]]]]]; subst.

Lemma fixed_header_index (labels : list string) :
  take 3 labels = ["file"; "scheme"; "ST"] ->
  index_of "scheme" labels = Some 1 /\ index_of "ST" labels = Some 2 /\
  "file" ∈ labels /\ "scheme" ∈ labels.
Proof.
  destruct labels as [|a [|b [|c labels]]]; try done. simpl.
  intros [= -> -> ->]. simpl. repeat split; in_list.
Qed.

Lemma fix_header_inv (raw : raw_frame) (r : exn + frame string) :
  fix_header raw = r ->
  match r with
  | inl e => e = IndexError \/ e = ValueError
  | inr df => take 3 (columns df) = ["file"; "scheme"; "ST"] /\ data df = raw
  end.
Proof.
  unfold fix_header. destruct raw as [|first rest]; [intros <-; auto|].
  destruct (_ =? _)%nat; intros <-; auto.
Qed.

Lemma select_scheme_inv (df : frame string) (arg : option string)
    (col : list string) (w w' : world) (r : exn + string) :
  getitem df "scheme" = inr col ->
  select_scheme df arg w = (r, w') ->
  files w' = files w /\ written w' = written w /\
  match r with
  | inl e => (e = IndexError \/ e = TypeError) /\ w' = w
  | inr s => s ∈ col
  end.
Proof.
  intros Hcol. rewrite (select_scheme_run df arg col w Hcol).
  destruct (selected arg col) as [e|s] eqn:Hsel.
  - intros [= <- <-]. split; [done|]. split; [done|]. split; [|done].
    unfold selected in Hsel. destruct arg as [a|].
    + case_bool_decide; [done|]. injection Hsel as <-. by right.
    + destruct (value_counts col) as [|[k n] rest]; [|done].
      injection Hsel as <-. by left.
  - intros [= <- <-]. simpl. split; [done|]. split; [done|].
    by eapply selected_elem.
Qed.

Lemma clean_dataframe_scheme_inv (df : frame string) (label : string) (j : nat) :
  index_of "scheme" (columns df) = Some j ->
  exists matched mismatched,
    clean_dataframe_scheme df label = inr (matched, mismatched) /\
    columns matched = columns df /\ columns mismatched = columns df.
Proof.
  intros Hj. unfold clean_dataframe_scheme, getitem. simpl. rewrite Hj. simpl.
  by eexists _, _.
Qed.

Section main_properties.

Variable int_of_str : string -> option Z.

Lemma traverse_astype_error (l : list cell) (e : exn) :
  traverse (astype_int32 int_of_str) l = inl e -> e = ValueError.
Proof.
  induction l as [|c l IH]; simpl; [done|].
  destruct (astype_int32 int_of_str c) as [e'|c'] eqn:Hc; simpl.
  - intros He. injection He as <-.
    destruct c as [s|z|q| |z|q]; simpl in Hc;
      [destruct (int_of_str s)|..]; congruence.
  - destruct (traverse _ l) as [e'|l']; simpl; [|done].
    intros [= <-]. by apply IH.
Qed.

Lemma astype_error (js : list nat) (rows : list (list cell)) (e : exn) :
  astype int_of_str false js rows = inl e -> e = ValueError.
Proof.
  revert rows. induction js as [|j js IH]; intros rows.
  - unfold astype. simpl. done.
  - rewrite astype_cons. unfold astype_col at 1.
    destruct (traverse _ _) as [e'|col] eqn:Hcol; simpl.
    + intros [= <-]. by eapply traverse_astype_error.
    + apply IH.
Qed.

Lemma clean_dataframe_alleles_inv (df : frame string)
    (r : exn + (frame cell * frame cell)) :
  take 3 (columns df) = ["file"; "scheme"; "ST"] ->
  clean_dataframe_alleles int_of_str df = r ->
  match r with
  | inl e => e = ValueError \/ e = AttributeError
  | inr (clean, failed) => columns clean = columns df /\ columns failed = columns df
  end.
Proof.
  intros Hcols. apply fixed_header_index in Hcols as (_ & HST & _).
  unfold clean_dataframe_alleles.
  destruct (coerced df) as [e|rows] eqn:Hrows; simpl.
  { intros <-. right. by eapply coerced_error. }
  unfold filter_no_ST, getitem. simpl. rewrite HST. simpl.
  destruct (astype int_of_str false _ _) as [e|c] eqn:Hclean; simpl.
  - intros <-. left. by eapply astype_error.
  - destruct (astype_ignore int_of_str (loci df)
                (select (zip_with orb (filter_nan rows)
                           (map (fun c => cell_eqb_str c "-") (get_col 2 rows)))
                        (map (map Str) (data df)))) as (f & -> & _).
    simpl. by intros <-.
Qed.

(** The ways [main] ends: a failure before the output step has written no
    table; a success has written the primary table. *)
Lemma main_inv (args : arguments) (w w' : world) (r : exn + unit) :
  main int_of_str args w = (r, w') ->
  files w' = files w /\
  match r with
  | inl e =>
      written w' = written w /\
      (e ∈ [FileNotFoundError; ValueError; IndexError; TypeError; AttributeError] \/
       e = UnboundLocalError /\ mlst_files args = None /\
       mlst_summary args = None /\ w' = w)
  | inr _ =>
      exists first,
        map fst (written w')
        = map fst (written w) ++ [out args]
          ++ match not_scheme args with Some path => [path] | None => [] end
          ++ match failed_alleles args with Some path => [path] | None => [] end
        /\ written w' !! length (written w) = Some (out args, first)
  end.
Proof.
  intros Hrun. unfold main in Hrun.
  (* the tables read *)
  apply bind_inv in Hrun as [(e & Hm & ->)|(df1 & w1 & Hm & Hrun)].
  { destruct (mlst_files args) as [paths|]; [|done].
    apply bind_inv in Hm as [(e' & Hm & [= <-])|(a & w2 & _ & Hm)]; [|done].
    apply read_mlst_files_inv in Hm as (? & ? & He).
    split; [done|]. split; [done|]. left. in_list. }
  assert (H1 : files w1 = files w /\ written w1 = written w /\
               (df1 = None -> mlst_files args = None /\ w1 = w)).
  { destruct (mlst_files args) as [paths|].
    - apply bind_inv in Hm as [(e' & _ & ?)|(a & w2 & Hm & [= <- <-])]; [done|].
      apply read_mlst_files_inv in Hm as (? & ? & _). done.
    - by injection Hm as <- <-. }
  destruct H1 as (Hf1 & Hw1 & Hnone1). clear Hm.
  apply bind_inv in Hrun as [(e & Hm & ->)|(df2 & w2 & Hm & Hrun)].
  { destruct (mlst_summary args) as [path|]; [|done].
    apply bind_inv in Hm as [(e' & Hm & [= <-])|(a & w3 & _ & Hm)]; [|done].
    unfold read_mlst_summary, read_table in Hm.
    destruct (files w1 !! path); [done|]. injection Hm as <- <-.
    split; [done|]. split; [done|]. left. in_list. }
  assert (H2 : w2 = w1 /\ (df2 = None -> df1 = None /\ mlst_summary args = None)).
  { destruct (mlst_summary args) as [path|].
    - apply bind_inv in Hm as [(e' & _ & ?)|(a & w3 & Hm & [= <- <-])]; [done|].
      unfold read_mlst_summary, read_table in Hm.
      destruct (files w1 !! path); [|done]. by injection Hm as _ <-.
    - by injection Hm as <- <-. }
  destruct H2 as (-> & Hnone2). clear Hm.
  apply bind_inv in Hrun as [(e & Hm & ->)|(raw & w3 & Hm & Hrun)].
  { destruct df2 as [raw|]; [done|]. injection Hm as <- <-.
    destruct Hnone2 as [-> ?]; [done|]. destruct Hnone1 as [? ->]; [done|].
    split; [done|]. split; [done|]. by right. }
  assert (w3 = w1) as -> by (destruct df2; [by injection Hm|done]). clear Hm.
  (* the header *)
  apply bind_inv in Hrun as [(e & Hm & ->)|(df & w3 & Hm & Hrun)].
  { injection Hm as Hm <-. apply fix_header_inv in Hm.
    split; [done|]. split; [done|]. left. in_list. }
  injection Hm as Hm <-. apply fix_header_inv in Hm as [Hcols _].
  destruct (fixed_header_index _ Hcols) as (Hscheme & HST & Hfile_in & Hscheme_in).
  (* the scheme *)
  assert (Hcol : getitem df "scheme" = inr (get_col 1 (data df)))
    by (unfold getitem; by rewrite Hscheme).
  apply bind_inv in Hrun as [(e & Hm & ->)|(s & w3 & Hm & Hrun)].
  { apply (select_scheme_inv df _ _ _ _ _ Hcol) in Hm as (_ & _ & He & ->).
    split; [done|]. split; [done|]. left. in_list. }
  apply (select_scheme_inv df _ _ _ _ _ Hcol) in Hm as (Hf3 & Hw3 & _).
  destruct (clean_dataframe_scheme_inv df s 1 Hscheme)
    as (matched & mismatched & Hpart & Hmcols & _).
  apply bind_inv in Hrun as [(e & Hm & ->)|([m mm] & w4 & Hm & Hrun)].
  { unfold lift in Hm. by rewrite Hpart in Hm. }
  unfold lift in Hm. rewrite Hpart in Hm. injection Hm as <- <- <-.
  (* the alleles *)
  apply bind_inv in Hrun as [(e & Hm & ->)|([clean failed] & w4 & Hm & Hrun)].
  { injection Hm as Hm <-. apply clean_dataframe_alleles_inv in Hm as [-> | ->];
      [| |by rewrite Hmcols]; (split; [congruence|]); (split; [congruence|]);
      left; in_list. }
  injection Hm as Hm <-.
  apply clean_dataframe_alleles_inv in Hm as [Hccols _]; [|by rewrite Hmcols].
  (* the tables written *)
  apply write_outputs_inv in Hrun. destruct r as [e|[]].
  - destruct Hrun as (_ & _ & _ & Hin). exfalso. apply Hin.
    by rewrite Hccols, Hmcols.
  - destruct Hrun as (_ & Hf4 & _ & first & Hw4 & _).
    split; [congruence|]. exists first. rewrite Hw4, Hw3, Hw1. split.
    + rewrite !map_app. simpl.
      by destruct (not_scheme args), (failed_alleles args).
    + rewrite lookup_app_r by done. by rewrite Nat.sub_diag.
Qed.


(** X14: the script runs [main], on the arguments and the world as they
    are, when exactly one of the two inputs is given, and leaves with the
    usage message when both or neither are; so a run of the script never
    ends in UnboundLocalError. *)
Theorem script_guard (args : arguments) (w : world) :
  match script int_of_str args w with
  | Usage _ =>
      (mlst_files args = None <-> mlst_summary args = None)
  | Ran (r, w') =>
      ~ (mlst_files args = None <-> mlst_summary args = None) /\
      (r, w') = main int_of_str args w /\ r <> inl UnboundLocalError
  end.
Proof.
  unfold script.
  destruct (Bool.eqb _ _) eqn:Hguard.
  - apply Bool.eqb_prop in Hguard.
    do 2 case_bool_decide; try done; tauto.
  - apply Bool.eqb_false_iff in Hguard.
    destruct (main int_of_str args w) as [r w'] eqn:Hrun.
    assert (Hone : ~ (mlst_files args = None <-> mlst_summary args = None)).
    { intros Hiff. apply Hguard. do 2 case_bool_decide; try done; tauto. }
    split; [done|]. split; [done|]. intros ->.
    apply main_inv in Hrun as (_ & _ & [He|(_ & H1 & H2 & _)]); [by exn_cases He|].
    apply Hone. by rewrite H1, H2.
Qed.

Lemma bind_run {A B} (m : M A) (k : A -> M B) (w w1 : world) (a : A) :
  m w = (inr a, w1) -> bind m k w = k a w1.
Proof. unfold bind. by intros ->. Qed.

(** From a table of rows of one width, three at least, whose header comes
    out with distinct labels, the four stages succeed one after the other,
    provided that the scheme, when one is given, occurs in the second
    column. *)
Lemma stages_run (raw : raw_frame) (n : nat) (arg : option string) (w : world) :
  raw <> [] -> Forall (fun r => length r = n) raw -> 3 <= n ->
  (forall df, fix_header raw = inr df -> NoDup (columns df)) ->
  (forall a, arg = Some a -> a ∈ get_col 1 raw) ->
  exists df s w' matched mismatched clean failed first,
    fix_header raw = inr df /\
    select_scheme df arg w = (inr s, w') /\
    clean_dataframe_scheme df s = inr (matched, mismatched) /\
    clean_dataframe_alleles int_of_str matched = inr (clean, failed) /\
    drop_labels ["file"; "scheme"] clean = inr first.
Proof.
  intros Hne Hwidth Hn Hdistinct Hscheme.
  pose proof (fix_header_rect raw n Hne Hwidth) as Hfix.
  replace (3 <=? n)%nat with true in Hfix by (symmetry; by apply Nat.leb_le).
  destruct Hfix as (df & Hfix & Hty & Hdata & _).
  pose proof (Hdistinct df Hfix) as Hnd.
  pose proof (typed_index_scheme df Hty) as Hj.
  assert (Hcol : getitem df "scheme" = inr (get_col 1 (data df)))
    by (unfold getitem; by rewrite Hj).
  assert (Hsel : exists s, selected arg (get_col 1 (data df)) = inr s).
  { destruct arg as [a|]; simpl.
    - rewrite bool_decide_eq_true_2; [by eexists|]. rewrite Hdata. by apply Hscheme.
    - destruct (value_counts _) as [|[k c] rest] eqn:Hvc; [|by eexists].
      apply value_counts_nil in Hvc. rewrite Hdata in Hvc.
      unfold get_col in Hvc. by destruct raw. }
  destruct Hsel as [s Hsel].
  pose proof (select_scheme_run df arg _ w Hcol) as Hselect.
  rewrite Hsel in Hselect.
  destruct (clean_dataframe_scheme_inv df s 1 Hj)
    as (matched & mismatched & Hpart & Hmcols & _).
  destruct (clean_dataframe_scheme_typed df matched mismatched s Hty Hpart)
    as [Hmty _].
  assert (Hmnd : NoDup (columns matched)) by (by rewrite Hmcols).
  destruct (alleles_closed_form int_of_str matched Hmty Hmnd)
    as (failed & Halleles & _).
  destruct (fixed_header_index (columns matched) (proj1 Hmty))
    as (_ & _ & Hfile_in & Hscheme_in).
  pose proof (drop_file_scheme_outcome
                (Frame (columns matched)
                   ((fun i => clean_row matched (data matched !!! i))
                      <$> clean_positions matched))) as Hdrop.
  rewrite bool_decide_eq_true_2 in Hdrop by done.
  destruct Hdrop as [first Hdrop].
  by eexists df, s, _, matched, mismatched, _, _, first.
Qed.

(** X15: on a table of text the four stages succeed one after the other.
    For a table with a first row, rows as wide as the first, three fields
    at least, locus fields of the first row that name distinct genes, none
    of them file, scheme or ST, and a scheme that, when one is given, occurs
    in the second column: [fix_header] names the columns, [select_scheme]
    returns a label, [clean_dataframe_scheme] partitions on that label,
    [clean_dataframe_alleles] returns two tables for the matched rows, and
    the columns file and scheme can be dropped from the clean one. *)
Theorem stages_succeed (first : list string) (rest : raw_frame)
    (arg : option string) (w : world) :
  Forall (fun r => length r = length first) rest -> 3 <= length first ->
  NoDup (["file"; "scheme"; "ST"] ++ map split_paren_0 (drop 3 first)) ->
  (forall a, arg = Some a -> a ∈ get_col 1 (first :: rest)) ->
  exists df s w' matched mismatched clean failed primary,
    fix_header (first :: rest) = inr df /\
    select_scheme df arg w = (inr s, w') /\
    clean_dataframe_scheme df s = inr (matched, mismatched) /\
    clean_dataframe_alleles int_of_str matched = inr (clean, failed) /\
    drop_labels ["file"; "scheme"] clean = inr primary.
Proof.
  intros Hwidth Hn Hdistinct Hscheme.
  apply (stages_run (first :: rest) (length first)); try done.
  - by apply Forall_cons.
  - intros df. unfold fix_header.
    destruct (_ =? _)%nat; [|done]. by intros [= <-].
Qed.

End main_properties.


Lemma stages_succeed_sample :
  exists df s w' matched mismatched clean failed primary,
    fix_header [ ["s1.fa"; "scheme1"; "5"; "adk(1)"; "fumC(2)"];
                 ["s2.fa"; "scheme1"; "-"; "adk(1)"; "fumC(~3)"];
                 ["s3.fa"; "scheme2"; "7"; "adk(4)"; "fumC(2)"] ] = inr df /\
    select_scheme df (Some "scheme1") sample_world = (inr s, w') /\
    clean_dataframe_scheme df s = inr (matched, mismatched) /\
    clean_dataframe_alleles int_literal matched = inr (clean, failed) /\
    drop_labels ["file"; "scheme"] clean = inr primary.
Proof.
  apply (stages_succeed int_literal
           ["s1.fa"; "scheme1"; "5"; "adk(1)"; "fumC(2)"]
           [ ["s2.fa"; "scheme1"; "-"; "adk(1)"; "fumC(~3)"];
             ["s3.fa"; "scheme2"; "7"; "adk(4)"; "fumC(2)"] ]
           (Some "scheme1") sample_world).
  - repeat constructor.
  - simpl. lia.
  - vm_compute. distinct_labels.
  - intros a [= <-]. apply list_elem_of_In. vm_compute. tauto.
Defined.

(** ** The stages together *)

Lemma length_select_split {A B} (p : A -> bool) (l : list A) (l' : list B) :
  length l = length l' ->
  length (select (map p l) l') + length (select (map (fun x => negb (p x)) l) l')
  = length l.
Proof.
  revert l'. induction l as [|x l IH]; intros [|y l'] Hlen; simpl in *; try done.
  injection Hlen as Hlen. specialize (IH l' Hlen).
  destruct (p x); simpl; lia.
Qed.

Lemma count_unselected (g : list string -> string) (label k : string)
    (rows : list (list string)) :
  count k (map g (select (map (fun r => negb (String.eqb (g r) label)) rows) rows))
  = if String.eqb label k then 0 else count k (map g rows).
Proof.
  induction rows as [|r rows IH]; simpl.
  - by destruct (String.eqb label k).
  - rewrite count_cons.
    destruct (String.eqb_spec (g r) label) as [Hr|Hr]; simpl.
    + rewrite IH. destruct (String.eqb_spec label k) as [Hk|Hk]; [done|].
      destruct (String.eqb_spec k (g r)); [congruence|done].
    + rewrite count_cons, IH.
      destruct (String.eqb_spec label k) as [Hk|Hk]; [|done].
      destruct (String.eqb_spec k (g r)); [congruence|done].
Qed.

Section accounting.

Variable int_of_str : string -> option Z.

(** X17: no row is lost and none is counted twice across the two cleaning
    stages.  For a table as [fix_header] delivers it, with distinct column
    labels, and any label to select, both stages succeed, and the rows of the clean table, of the failed-allele
    table and of the mismatched-scheme table, together with the rows that
    carry the sentinel scheme and are dropped (none when the label is the
    sentinel itself), are as many as the rows of the input. *)
Theorem rows_accounted (df : frame string) (label : string) :
  typed df -> NoDup (columns df) ->
  exists matched mismatched clean failed,
    clean_dataframe_scheme df label = inr (matched, mismatched) /\
    clean_dataframe_alleles int_of_str matched = inr (clean, failed) /\
    length (data clean) + length (data failed) = length (data matched) /\
    length (data matched) + length (data mismatched)
    + (if String.eqb label "-" then 0 else count "-" (get_col 1 (data df)))
    = length (data df).
Proof.
  intros Hty Hnd. pose proof (typed_index_scheme df Hty) as Hj.
  destruct (clean_dataframe_scheme_inv df label 1 Hj)
    as (matched & mismatched & Hpart & Hmcols & _).
  destruct (clean_dataframe_scheme_typed df matched mismatched label Hty Hpart)
    as [Hmty _].
  assert (Hmnd : NoDup (columns matched)) by (by rewrite Hmcols).
  destruct (alleles_closed_form int_of_str matched Hmty Hmnd)
    as (failed & Hrun & Hfailed).
  eexists _, _, _, _. split; [exact Hpart|]. split; [exact Hrun|]. simpl. split.
  - rewrite length_fmap, <- (Forall2_length _ _ _ Hfailed).
    unfold clean_positions, failed_positions, positions. rewrite !length_map.
    apply length_select_split. by rewrite length_seq.
  - clear Hrun Hfailed Hmty.
    unfold clean_dataframe_scheme, getitem in Hpart. simpl in Hpart.
    rewrite Hj in Hpart. simpl in Hpart. injection Hpart as <- <-. simpl.
    unfold get_col. rewrite !map_map.
    set (g := fun r : list string => r !!! 1).
    set (rest := select (map (fun r => negb (String.eqb (g r) label)) (data df))
                        (data df)).
    pose proof (length_select_split (fun r => String.eqb (g r) label)
                  (data df) (data df) eq_refl) as Hsplit1.
    pose proof (length_select_split (fun r => String.eqb (g r) "-")
                  rest rest eq_refl) as Hsplit2.
    pose proof (length_select_count g "-" rest) as Hcount.
    rewrite map_map in Hcount.
    pose proof (count_unselected g label "-" (data df)) as Hdropped.
    subst rest g. cbv beta in *. lia.
Qed.

End accounting.

Lemma rows_accounted_sample :
  exists matched mismatched clean failed,
    clean_dataframe_scheme sample_table "ecoli" = inr (matched, mismatched) /\
    clean_dataframe_alleles int_literal matched = inr (clean, failed) /\
    length (data clean) + length (data failed) = length (data matched) /\
    length (data matched) + length (data mismatched)
    + (if String.eqb "ecoli" "-" then 0
       else count "-" (get_col 1 (data sample_table)))
    = length (data sample_table).
Proof.
  apply (rows_accounted int_literal sample_table "ecoli").
  - exact sample_table_typed.
  - exact sample_table_distinct.
Defined.

(** ** A run on typed samples *)

Lemma letters_no_paren (g : string) :
  Forall (fun c => is_letter c = true) (chars g) -> "("%char ∉ chars g.
Proof.
  intros Hg Hin. rewrite Forall_forall in Hg. specialize (Hg _ Hin).
  by vm_compute in Hg.
Qed.

Lemma mlst_row_length (sch : string) (genes : list string) (iso : isolate) :
  length (isolate_alleles iso) = length genes ->
  length (mlst_row sch genes iso) = 3 + length genes.
Proof.
  intros Hlen. unfold mlst_row. rewrite length_app, length_zip_with. simpl. lia.
Qed.

Lemma split_designations (genes : list string) (alleles : list N) :
  Forall (fun g => Forall (fun c => is_letter c = true) (chars g)) genes ->
  length alleles = length genes ->
  map split_paren_0 (zip_with designation genes alleles) = genes.
Proof.
  intros Hgenes. revert alleles.
  induction Hgenes as [|g genes Hg _ IH]; intros [|a alleles] Hlen;
    simpl in *; try done.
  rewrite IH by lia. f_equal.
  apply (split_paren_0_prefix g (pretty a +:+ ")")). by apply letters_no_paren.
Qed.

Lemma imap_designations (F : nat -> string -> cell) (genes : list string)
    (alleles : list N) :
  (forall k g a, g ∈ genes -> a ∈ alleles ->
                 F k (designation g a) = Int32 (Z.of_N a)) ->
  length alleles = length genes ->
  imap F (zip_with designation genes alleles)
  = map (fun a => Int32 (Z.of_N a)) alleles.
Proof.
  revert F alleles. induction genes as [|g genes IH]; intros F [|a alleles] HF Hlen;
    simpl in *; try done.
  rewrite HF by (apply elem_of_cons; by left). f_equal.
  apply IH; [|lia]. intros k g' a' Hg' Ha'. apply HF; apply elem_of_cons; by right.
Qed.

Lemma select_none {A} (mask : list bool) (l : list A) :
  Forall (fun b => b = false) mask -> select mask l = [].
Proof.
  intros Hmask. revert l. induction Hmask as [|b mask -> _ IH]; intros [|x l];
    simpl; try done.
Qed.

Lemma positions_all (mask : list bool) :
  Forall (fun b => b = true) mask -> positions mask = seq 0 (length mask).
Proof.
  intros Hmask. unfold positions. apply select_all; [done|]. by rewrite length_seq.
Qed.

Lemma fmap_lookup_total_seq {A B} `{Inhabited A} (f : A -> B) (l : list A) :
  (fun i => f (l !!! i)) <$> seq 0 (length l) = f <$> l.
Proof.
  apply list_eq. intros i. rewrite !list_lookup_fmap.
  destruct (decide (i < length l)) as [Hi|Hi].
  - rewrite lookup_seq_lt by done. simpl.
    destruct (lookup_lt_is_Some_2 l i Hi) as [x Hx].
    by rewrite Hx, (list_lookup_total_correct _ _ _ Hx).
  - rewrite lookup_seq_ge by lia. by rewrite lookup_ge_None_2 by lia.
Qed.

Lemma Forall_map_const {A} (f : A -> bool) (b : bool) (l : list A) :
  (forall x, x ∈ l -> f x = b) -> Forall (fun y => y = b) (map f l).
Proof.
  intros Hf. induction l as [|x l IH]; simpl; constructor.
  - apply Hf, elem_of_cons. by left.
  - apply IH. intros y Hy. apply Hf, elem_of_cons. by right.
Qed.

Section typed_run.

Variable int_of_str : string -> option Z.
Variable sch : string.
Variable genes : list string.
Hypothesis genes_letters :
  Forall (fun g => Forall (fun c => is_letter c = true) (chars g)) genes.

Lemma mlst_row_complete (iso : isolate) :
  fully_typed genes iso -> complete (mlst_row sch genes iso) = true.
Proof.
  intros (Hlen & HST & _). apply complete_spec. split; [|done].
  unfold mlst_row. change (drop 3 (?a :: ?b :: ?c :: ?l)) with l. simpl.
  apply Forall_forall. intros s Hs.
  apply list_elem_of_lookup_1 in Hs as [k Hk].
  apply lookup_zip_with_Some in Hk as (g & a & -> & Hg & _).
  rewrite coerce_designation; [done|].
  rewrite Forall_forall in genes_letters. apply genes_letters.
  by eapply list_elem_of_lookup_2.
Qed.

Lemma mlst_row_clean (df : frame string) (iso : isolate) :
  fully_typed genes iso ->
  clean_row df (mlst_row sch genes iso)
  = [Str (isolate_file iso); Str sch; Str (isolate_ST iso)]
    ++ map (fun a => Int32 (Z.of_N a)) (isolate_alleles iso).
Proof.
  intros (Hlen & _ & Hsmall). unfold clean_row, mlst_row. simpl. do 3 f_equal.
  apply imap_designations; [|done]. intros k g a Hg Ha.
  rewrite Forall_forall in genes_letters.
  rewrite (coerce_designation g a (genes_letters g Hg)).
  apply int32_of_store_small. unfold in_int32.
  rewrite Forall_forall in Hsmall. specialize (Hsmall a Ha).
  apply andb_true_iff. rewrite !Z.leb_le. lia.
Qed.

(** X19: the stages turn the lines of typed samples into their allelic
    profiles.  Take the table of text that holds, for each sample, the line
    that mlst prints for it under one scheme: each sample with an ST and
    with an allele, of at most 2^31 - 1, for every gene of the scheme, the
    gene names made of letters, distinct, and none of them file, scheme or
    ST.  Then [fix_header] names the columns file, scheme, ST and the
    genes; [select_scheme], with no scheme given, returns the scheme and
    prints nothing; [clean_dataframe_scheme] keeps every row and leaves no
    mismatched one; [clean_dataframe_alleles] leaves no failed row; and
    the clean table without the columns file and scheme has the columns ST
    and the genes, and one row for each sample, in their order: the ST as
    the text it was and the allele numbers as int32. *)
Theorem stages_profiles (isolates : list isolate) (w : world) :
  NoDup ("file" :: "scheme" :: "ST" :: genes) ->
  isolates <> [] -> Forall (fully_typed genes) isolates ->
  exists df clean,
    fix_header (mlst_row sch genes <$> isolates) = inr df /\
    columns df = "file" :: "scheme" :: "ST" :: genes /\
    select_scheme df None w = (inr sch, w) /\
    clean_dataframe_scheme df sch = inr (df, Frame (columns df) []) /\
    clean_dataframe_alleles int_of_str df = inr (clean, Frame (columns df) []) /\
    drop_labels ["file"; "scheme"] clean
    = inr (Frame ("ST" :: genes) (profile <$> isolates)).
Proof.
  intros Hnd Hne Hty.
  set (rows := mlst_row sch genes <$> isolates).
  (* the header *)
  destruct isolates as [|iso0 isolates']; [done|].
  set (isolates := iso0 :: isolates') in *.
  assert (Hrow : Forall (fun r => length r = 3 + length genes) rows).
  { apply Forall_fmap. eapply Forall_impl; [exact Hty|].
    intros iso Hiso. unfold compose. apply (mlst_row_length sch genes iso), Hiso. }
  set (df := Frame ("file" :: "scheme" :: "ST" :: genes) rows).
  assert (Hfix : fix_header rows = inr df).
  { assert (Hiso0 : fully_typed genes iso0) by (by inversion Hty).
    assert (Hdrop3 : drop 3 (mlst_row sch genes iso0)
                     = zip_with designation genes (isolate_alleles iso0)) by done.
    unfold fix_header, rows, isolates. cbn [fmap list_fmap].
    rewrite Hdrop3, split_designations by (done || apply Hiso0).
    rewrite (mlst_row_length sch genes iso0) by apply Hiso0.
    cbn [app length]. by rewrite Nat.eqb_refl. }
  assert (Hdf : typed df).
  { split; [done|]. simpl. eapply Forall_impl; [exact Hrow|]. simpl. lia. }
  (* the scheme *)
  assert (Hcol : getitem df "scheme" = inr (get_col 1 rows)) by done.
  assert (Hconst : get_col 1 rows = (fun _ => sch) <$> isolates).
  { unfold get_col, rows. rewrite map_map. done. }
  assert (Hall : forall s, s ∈ get_col 1 rows -> s = sch).
  { intros s. rewrite Hconst. by intros (? & -> & _)%list_elem_of_fmap. }
  assert (Hcount : count sch (get_col 1 rows) = length (get_col 1 rows)).
  { unfold count. rewrite filter_all_true; [done|].
    apply Forall_forall. intros s Hs. rewrite (Hall s Hs). apply String.eqb_refl. }
  assert (Hselect : select_scheme df None w = (inr sch, w)).
  { rewrite (select_scheme_run df None _ w Hcol). unfold selected.
    destruct (value_counts (get_col 1 rows)) as [|[k n] rest] eqn:Hvc.
    { apply value_counts_nil in Hvc. by rewrite Hconst in Hvc. }
    pose proof (value_counts_head _ _ _ _ Hvc) as Hk. apply Hall in Hk as ->.
    rewrite Hcount. unfold warning_lines.
    destruct (Qlt_bool _ 75) eqn:Hlt.
    - apply Qlt_bool_iff in Hlt. apply percentage_lt in Hlt.
      + lia.
      + rewrite Hconst, length_fmap. simpl. lia.
    - destruct w. simpl. by rewrite app_nil_r. }
  (* the partition *)
  assert (Hpart : clean_dataframe_scheme df sch
                  = inr (df, Frame (columns df) [])).
  { unfold clean_dataframe_scheme. rewrite Hcol. cbn [ebind data columns].
    rewrite (select_all (map (fun s => String.eqb s sch) (get_col 1 rows)) rows).
    2:{ apply Forall_map_const. intros s Hs. rewrite (Hall s Hs).
        apply String.eqb_refl. }
    2:{ unfold get_col. by rewrite !length_map. }
    rewrite map_map, select_none.
    2:{ apply Forall_map_const. intros s Hs. rewrite (Hall s Hs).
        by rewrite String.eqb_refl. }
    done. }
  (* the alleles *)
  assert (Hcomplete : Forall (fun b => b = true) (map complete (data df))).
  { apply Forall_map_const. intros r (iso & -> & Hiso)%list_elem_of_fmap.
    apply mlst_row_complete. by apply (proj1 (Forall_forall _ _) Hty). }
  destruct (alleles_closed_form int_of_str df Hdf Hnd)
    as (failed & Halleles & Hfailed).
  assert (Hnone : failed = []).
  { unfold failed_positions, positions in Hfailed.
    rewrite select_none in Hfailed; [by inversion Hfailed|].
    apply Forall_map_const. intros r Hr.
    rewrite Forall_forall in Hcomplete.
    rewrite (Hcomplete (complete r)); [done|].
    apply list_elem_of_fmap. by exists r. }
  subst failed.
  assert (Hclean : (fun i => clean_row df (data df !!! i)) <$> clean_positions df
                   = (fun iso => [Str (isolate_file iso); Str sch;
                                  Str (isolate_ST iso)]
                                 ++ map (fun a => Int32 (Z.of_N a))
                                        (isolate_alleles iso)) <$> isolates).
  { unfold clean_positions. rewrite positions_all by exact Hcomplete.
    rewrite length_map. rewrite (fmap_lookup_total_seq (clean_row df) (data df)).
    change (data df) with (mlst_row sch genes <$> isolates).
    rewrite <- list_fmap_compose.
    apply Forall_fmap_ext_1. eapply Forall_impl; [exact Hty|].
    intros iso Hiso. unfold compose. by apply mlst_row_clean. }
  rewrite Hclean in Halleles.
  set (clean := Frame (columns df) _) in Halleles.
  (* the columns dropped *)
  assert (Hdrop : drop_labels ["file"; "scheme"] clean
                  = inr (Frame ("ST" :: genes) (profile <$> isolates))).
  { apply NoDup_cons in Hnd as [Hfile Hnd]. apply NoDup_cons in Hnd as [Hsch _].
    rewrite (drop_file_scheme clean ("ST" :: genes)).
    - unfold clean. cbn [data]. by rewrite <- list_fmap_compose.
    - done.
    - intros Hin. apply Hfile. apply elem_of_cons. by right.
    - done.
    - unfold clean. cbn [data columns]. apply Forall_fmap.
      eapply Forall_impl; [exact Hty|].
      intros iso (Hiso & _). unfold compose.
      change (length (columns df)) with (3 + length genes).
      cbn [app length]. rewrite length_map. lia. }
  by exists df, clean.
Qed.

End typed_run.

Lemma stages_profiles_sample :
  exists df clean,
    fix_header (mlst_row "ecoli" ["adk"; "fumC"] <$> typed_isolates) = inr df /\
    columns df = "file" :: "scheme" :: "ST" :: ["adk"; "fumC"] /\
    select_scheme df None sample_world = (inr "ecoli", sample_world) /\
    clean_dataframe_scheme df "ecoli" = inr (df, Frame (columns df) []) /\
    clean_dataframe_alleles int_literal df = inr (clean, Frame (columns df) []) /\
    drop_labels ["file"; "scheme"] clean
    = inr (Frame ("ST" :: ["adk"; "fumC"]) (profile <$> typed_isolates)).
Proof.
  apply (stages_profiles int_literal "ecoli" ["adk"; "fumC"]).
  - repeat constructor.
  - distinct_labels.
  - discriminate.
  - repeat constructor; try discriminate; simpl; lia.
Defined.
